(** * Xgram chat: message fan-out, presence and client cache

    A shallow embedding of the socket handlers of the chat server
    (the [io.on('connection', ...)] block of the server entry file), of
    the REST routes that write the database files or serve the messages
    and groups, of the client's [SocketContext], [ChatRoom] and [Chats]
    listeners and of the [localStorage] helpers in [utils/storage.ts],
    followed by the properties proved about them.

    Conventions of the embedding
    - an [async] handler is a tree of operations ([Async]); the two [fs]
      operations are the only points where a handler is suspended, every
      other operation runs synchronously with the code before it;
    - a JavaScript [undefined] field is [None]; truthiness of an optional
      string is [truthy]; the fields of a payload have the types the
      client declares for them, and the payload of [send_message] and of
      [message_reaction] may be missing altogether;
    - an ISO time stamp produced by [new Date().toISOString()] is the number
      of milliseconds it denotes;
    - a JSON file of the database directory is the typed list it holds;
    - an object used as a map from ids is a finite map, which it is for
      the ids that name no property of [Object.prototype]
      ([JS.inherited]); what [bcrypt] computes is given with the request
      that needs it. *)

From stdpp Require Import gmap strings list fin_maps sorting.
From Stdlib Require Import ZArith.

Open Scope string_scope.
Open Scope list_scope.
Open Scope stdpp_scope.

(** ** JavaScript values *)

Module JS.

(** [if (x)] for an optional string: [undefined] and [''] are falsy. *)
Definition truthy (x : option string) : bool :=
  match x with
  | Some s => if decide (s = "") then false else true
  | None => false
  end.

(** [x || d] for an optional string. *)
Definition or_else (x : option string) (d : string) : string :=
  match x with
  | Some s => if decide (s = "") then d else s
  | None => d
  end.

(** Property key of [obj[k]]: an [undefined] key is the string
    ["undefined"]. *)
Definition prop_key (k : option string) : string :=
  match k with
  | Some s => s
  | None => "undefined"
  end.

(** The names every object inherits from [Object.prototype].  For such a
    key, [obj[key]] on an object that has no property of its own with the
    name is the inherited member, not [undefined], and
    [obj['__proto__'] = v] stores nothing.  An object used as a map from
    ids is modelled by a finite map for the keys that are not of this
    kind. *)
Definition Object_prototype : list string :=
  ["constructor"; "__proto__"; "hasOwnProperty"; "isPrototypeOf";
   "propertyIsEnumerable"; "toLocaleString"; "toString"; "valueOf";
   "__defineGetter__"; "__defineSetter__"; "__lookupGetter__";
   "__lookupSetter__"].

Definition inherited (key : string) : bool :=
  bool_decide (key ∈ Object_prototype).

End JS.

(** ** Records of the three collections *)

Record Reaction := mkReaction {
  r_userId : string;
  r_emoji : string;
  r_createdAt : Z
}.

Record Reply := mkReply {
  rp_id : string;
  rp_userId : string;
  rp_content : string;
  rp_createdAt : Z
}.

Record Message := mkMessage {
  m_id : string;
  m_senderId : string;
  m_receiverId : option string;
  m_groupId : option string;
  m_content : string;
  m_type : string;
  m_fileUrl : option string;
  m_fileName : option string;
  m_createdAt : Z;
  m_updatedAt : Z;
  m_reactions : list Reaction;
  m_replies : list Reply;
  m_isEdited : bool
}.

Record User := mkUser {
  u_id : string;
  u_username : string;
  u_email : string;
  u_password : string;
  u_name : string;
  u_bio : string;
  u_avatar : string;
  u_banner : string;
  u_links : list string;
  u_createdAt : Z;
  u_isOnline : bool;
  u_lastSeen : Z
}.

Record Group := mkGroup {
  g_id : string;
  g_name : string;
  g_description : string;
  g_avatar : string;
  g_members : list string;
  g_createdBy : string;
  g_createdAt : Z;
  g_lastActivity : Z
}.

#[global] Instance Reaction_eq_dec : EqDecision Reaction.
Proof. solve_decision. Defined.
#[global] Instance Reply_eq_dec : EqDecision Reply.
Proof. solve_decision. Defined.
#[global] Instance Message_eq_dec : EqDecision Message.
Proof. solve_decision. Defined.
#[global] Instance User_eq_dec : EqDecision User.
Proof. solve_decision. Defined.
#[global] Instance Group_eq_dec : EqDecision Group.
Proof. solve_decision. Defined.

(** Field assignments ([message.reactions = ...], [message.updatedAt = ...],
    [existingReaction.emoji = ...], [users[i].isOnline = ...]). *)

Definition set_emoji (r : Reaction) (emoji : string) : Reaction :=
  {| r_userId := r_userId r; r_emoji := emoji; r_createdAt := r_createdAt r |}.

Definition set_reactions (m : Message) (rs : list Reaction) : Message :=
  {| m_id := m_id m; m_senderId := m_senderId m; m_receiverId := m_receiverId m;
     m_groupId := m_groupId m; m_content := m_content m; m_type := m_type m;
     m_fileUrl := m_fileUrl m; m_fileName := m_fileName m;
     m_createdAt := m_createdAt m; m_updatedAt := m_updatedAt m;
     m_reactions := rs; m_replies := m_replies m; m_isEdited := m_isEdited m |}.

Definition set_updatedAt (m : Message) (t : Z) : Message :=
  {| m_id := m_id m; m_senderId := m_senderId m; m_receiverId := m_receiverId m;
     m_groupId := m_groupId m; m_content := m_content m; m_type := m_type m;
     m_fileUrl := m_fileUrl m; m_fileName := m_fileName m;
     m_createdAt := m_createdAt m; m_updatedAt := t;
     m_reactions := m_reactions m; m_replies := m_replies m;
     m_isEdited := m_isEdited m |}.

Definition set_presence (u : User) (online : bool) (lastSeen : Z) : User :=
  {| u_id := u_id u; u_username := u_username u; u_email := u_email u;
     u_password := u_password u; u_name := u_name u; u_bio := u_bio u;
     u_avatar := u_avatar u; u_banner := u_banner u; u_links := u_links u;
     u_createdAt := u_createdAt u; u_isOnline := online;
     u_lastSeen := lastSeen |}.

(** ** The database directory *)

Inductive coll := Users | Messages | Groups.

#[global] Instance coll_eq_dec : EqDecision coll.
Proof. solve_decision. Defined.

Definition coll_data (c : coll) : Type :=
  match c with
  | Users => list User
  | Messages => list Message
  | Groups => list Group
  end.

Record Disk := mkDisk {
  users_json : list User;
  messages_json : list Message;
  groups_json : list Group
}.

Definition disk_get (d : Disk) (c : coll) : coll_data c :=
  match c with
  | Users => users_json d
  | Messages => messages_json d
  | Groups => groups_json d
  end.

Definition disk_set (d : Disk) (c : coll) : coll_data c → Disk :=
  match c with
  | Users => λ v, {| users_json := v; messages_json := messages_json d;
                     groups_json := groups_json d |}
  | Messages => λ v, {| users_json := users_json d; messages_json := v;
                        groups_json := groups_json d |}
  | Groups => λ v, {| users_json := users_json d;
                      messages_json := messages_json d; groups_json := v |}
  end.

(** ** Events and payloads of the socket protocol *)

(** Payload of [send_message]. *)
Record SendData := mkSendData {
  sd_senderId : string;
  sd_receiverId : option string;
  sd_groupId : option string;
  sd_content : string;
  sd_type : option string;
  sd_fileUrl : option string;
  sd_fileName : option string
}.

(** Payload of [message_reaction]. *)
Record ReactionData := mkReactionData {
  rd_messageId : option string;
  rd_userId : string;
  rd_emoji : string
}.

(** Payload of [typing]. *)
Record TypingData := mkTypingData {
  td_senderId : string;
  td_receiverId : option string;
  td_groupId : option string;
  td_isTyping : bool
}.

(** Server to client events with their payloads. *)
Inductive ServerEvent :=
| receive_message (m : Message)
| message_sent (m : Message)
| message_updated (m : Message)
| user_online (userId : string)
| user_offline (userId : string)
| user_typing (userId : string) (isTyping : bool)
| message_error (error : string)
| reaction_error (error : string).

#[global] Instance ServerEvent_eq_dec : EqDecision ServerEvent.
Proof. solve_decision. Defined.

Definition is_error_event (e : ServerEvent) : bool :=
  match e with
  | message_error _ | reaction_error _ => true
  | _ => false
  end.

(** The four ways the server addresses an emit. *)
Inductive Target :=
| io_to (rooms : list (option string))
| socket_emit (sid : string)
| socket_broadcast (sid : string)
| socket_to (sid : string) (room : option string).

#[global] Instance Target_eq_dec : EqDecision Target.
Proof. solve_decision. Defined.

(** A connection as the server sees it.  A socket is in the room named by
    its own id from the start and leaves every room when it closes. *)
Record Socket := mkSocket {
  sock_userId : option string;
  sock_rooms : gset string;
  sock_connected : bool
}.

Definition in_room (s : Socket) (room : option string) : bool :=
  match room with
  | Some r => bool_decide (r ∈ sock_rooms s)
  | None => false
  end.

(** Does an emit addressed to [t] reach the socket [s] with id [sid]? *)
Definition reaches (t : Target) (sid : string) (s : Socket) : bool :=
  sock_connected s &&
  match t with
  | io_to rooms => existsb (in_room s) rooms
  | socket_emit sid' => bool_decide (sid = sid')
  | socket_broadcast sid' => negb (bool_decide (sid = sid'))
  | socket_to sid' room => negb (bool_decide (sid = sid')) && in_room s room
  end.

Definition recipients (ss : gmap string Socket) (t : Target) : gset string :=
  dom (filter (λ p, reaches t p.1 p.2 = true) ss).

(** One emit, with the connections it reached when it was made. *)
Record Emission := mkEmission {
  em_target : Target;
  em_event : ServerEvent;
  em_recipients : gset string
}.

(** ** Server state *)

Record World := mkWorld {
  disk : Disk;
  readable : coll → bool;
  writable : coll → bool;
  connectedUsers : gmap string string;
  sockets : gmap string Socket;
  emitted : list Emission;
  console : list string;
  uuid_src : nat → string;
  uuid_n : nat;
  clock_src : nat → Z;
  clock_n : nat
}.

Definition with_disk (w : World) (d : Disk) : World :=
  {| disk := d; readable := readable w; writable := writable w;
     connectedUsers := connectedUsers w; sockets := sockets w;
     emitted := emitted w; console := console w;
     uuid_src := uuid_src w; uuid_n := uuid_n w;
     clock_src := clock_src w; clock_n := clock_n w |}.

Definition with_faults (w : World) (rd wr : coll → bool) : World :=
  {| disk := disk w; readable := rd; writable := wr;
     connectedUsers := connectedUsers w; sockets := sockets w;
     emitted := emitted w; console := console w;
     uuid_src := uuid_src w; uuid_n := uuid_n w;
     clock_src := clock_src w; clock_n := clock_n w |}.

Definition with_connectedUsers (w : World) (cu : gmap string string) : World :=
  {| disk := disk w; readable := readable w; writable := writable w;
     connectedUsers := cu; sockets := sockets w;
     emitted := emitted w; console := console w;
     uuid_src := uuid_src w; uuid_n := uuid_n w;
     clock_src := clock_src w; clock_n := clock_n w |}.

Definition with_sockets (w : World) (ss : gmap string Socket) : World :=
  {| disk := disk w; readable := readable w; writable := writable w;
     connectedUsers := connectedUsers w; sockets := ss;
     emitted := emitted w; console := console w;
     uuid_src := uuid_src w; uuid_n := uuid_n w;
     clock_src := clock_src w; clock_n := clock_n w |}.

Definition with_emitted (w : World) (es : list Emission) : World :=
  {| disk := disk w; readable := readable w; writable := writable w;
     connectedUsers := connectedUsers w; sockets := sockets w;
     emitted := es; console := console w;
     uuid_src := uuid_src w; uuid_n := uuid_n w;
     clock_src := clock_src w; clock_n := clock_n w |}.

Definition with_console (w : World) (c : list string) : World :=
  {| disk := disk w; readable := readable w; writable := writable w;
     connectedUsers := connectedUsers w; sockets := sockets w;
     emitted := emitted w; console := c;
     uuid_src := uuid_src w; uuid_n := uuid_n w;
     clock_src := clock_src w; clock_n := clock_n w |}.

Definition next_uuid (w : World) : World :=
  {| disk := disk w; readable := readable w; writable := writable w;
     connectedUsers := connectedUsers w; sockets := sockets w;
     emitted := emitted w; console := console w;
     uuid_src := uuid_src w; uuid_n := S (uuid_n w);
     clock_src := clock_src w; clock_n := clock_n w |}.

Definition next_clock (w : World) : World :=
  {| disk := disk w; readable := readable w; writable := writable w;
     connectedUsers := connectedUsers w; sockets := sockets w;
     emitted := emitted w; console := console w;
     uuid_src := uuid_src w; uuid_n := uuid_n w;
     clock_src := clock_src w; clock_n := S (clock_n w) |}.

(** ** Handlers as trees of operations *)

(** The operations a handler performs.  [FsReadFile] and [FsWriteFile] are
    the awaited file operations: their result is [None] / [false] when the
    promise is rejected.  The others are synchronous. *)
Inductive Op : Type → Type :=
| FsReadFile (c : coll) : Op (option (coll_data c))
| FsWriteFile (c : coll) (data : coll_data c) : Op bool
| Uuidv4 : Op string
| DateNow : Op Z
| Emit (t : Target) (e : ServerEvent) : Op unit
| SetUserId (sid userId : string) : Op unit
| GetUserId (sid : string) : Op (option string)
| SocketJoin (sid room : string) : Op unit
| SocketLeave (sid room : string) : Op unit
| ConnectedSet (userId sid : string) : Op unit
| ConnectedDelete (userId : string) : Op unit
| ConsoleError (msg : string) : Op unit.

Definition is_io {X} (op : Op X) : bool :=
  match op with
  | FsReadFile _ | FsWriteFile _ _ => true
  | _ => false
  end.

Inductive Async (A : Type) : Type :=
| Ret (a : A)
| Throw (error : string)
| Vis {X : Type} (op : Op X) (k : X → Async A).

Arguments Ret {A} a.
Arguments Throw {A} error.
Arguments Vis {A X} op k.

Fixpoint bind {A B} (p : Async A) (f : A → Async B) : Async B :=
  match p with
  | Ret a => f a
  | Throw e => Throw e
  | Vis op k => Vis op (λ x, bind (k x) f)
  end.

#[global] Instance Async_ret : MRet Async := @Ret.
#[global] Instance Async_bind : MBind Async := λ A B f p, bind p f.

(** [try { body } catch (error) { handler }] *)
Fixpoint try_catch {A} (body : Async A) (handler : string → Async A) : Async A :=
  match body with
  | Ret a => Ret a
  | Throw e => handler e
  | Vis op k => Vis op (λ x, try_catch (k x) handler)
  end.

Definition perform {X} (op : Op X) : Async X := Vis op Ret.

(** [list.forEach(f)] *)
Fixpoint forEach {A} (l : list A) (f : A → Async unit) : Async unit :=
  match l with
  | [] => Ret tt
  | x :: l' => f x ;; forEach l' f
  end.

(** Effect of one operation on the server state. *)
Definition exec {X} (op : Op X) (w : World) : X * World :=
  match op in Op X return X * World with
  | FsReadFile c =>
      if readable w c then (Some (disk_get (disk w) c), w) else (None, w)
  | FsWriteFile c data =>
      if writable w c then (true, with_disk w (disk_set (disk w) c data))
      else (false, w)
  | Uuidv4 => (uuid_src w (uuid_n w), next_uuid w)
  | DateNow => (clock_src w (clock_n w), next_clock w)
  | Emit t e =>
      (tt, with_emitted w
             (emitted w ++ [mkEmission t e (recipients (sockets w) t)]))
  | SetUserId sid userId =>
      (tt, with_sockets w
             (alter (λ s, mkSocket (Some userId) (sock_rooms s)
                            (sock_connected s)) sid (sockets w)))
  | GetUserId sid => (sockets w !! sid ≫= sock_userId, w)
  | SocketJoin sid room =>
      (tt, with_sockets w
             (alter (λ s, mkSocket (sock_userId s) ({[room]} ∪ sock_rooms s)
                            (sock_connected s)) sid (sockets w)))
  | SocketLeave sid room =>
      (tt, with_sockets w
             (alter (λ s, mkSocket (sock_userId s) (sock_rooms s ∖ {[room]})
                            (sock_connected s)) sid (sockets w)))
  | ConnectedSet userId sid =>
      (tt, with_connectedUsers w (<[userId := sid]> (connectedUsers w)))
  | ConnectedDelete userId =>
      (tt, with_connectedUsers w (delete userId (connectedUsers w)))
  | ConsoleError msg => (tt, with_console w (console w ++ [msg]))
  end.

(** A handler run from start to end with nothing else in between.  The
    result is [inr e] when the exception [e] leaves the handler. *)
Fixpoint run {A} (p : Async A) (w : World) : (A + string) * World :=
  match p with
  | Ret a => (inl a, w)
  | Throw e => (inr e, w)
  | Vis op k => let '(x, w') := exec op w in run (k x) w'
  end.

(** ** Database helper functions *)

Definition filename (c : coll) : string :=
  match c with
  | Users => "users.json"
  | Messages => "messages.json"
  | Groups => "groups.json"
  end.

Definition no_records (c : coll) : coll_data c :=
  match c with
  | Users => []
  | Messages => []
  | Groups => []
  end.

(** [await fs.readFile(...)] followed by [JSON.parse]: a missing, unreadable
    or malformed file throws. *)
Definition fs_readFile (c : coll) : Async (coll_data c) :=
  Vis (FsReadFile c) (λ r,
    match r with
    | Some data => Ret data
    | None => Throw "read failed"
    end).

Definition fs_writeFile (c : coll) (data : coll_data c) : Async unit :=
  Vis (FsWriteFile c data) (λ ok : bool,
    if ok then Ret tt else Throw "write failed").

Definition readDatabase (c : coll) : Async (coll_data c) :=
  try_catch (fs_readFile c) (λ _, Ret (no_records c)).

Definition writeDatabase (c : coll) (data : coll_data c) : Async unit :=
  try_catch (fs_writeFile c data)
    (λ error,
       perform (ConsoleError ("Error writing to " ++ filename c ++ ":")%string)).

(** ** Reaction reducer (body of the [message_reaction] handler) *)

(** [message.reactions.find(r => r.userId === userId)]: the first entry of
    the user with its position, the position standing for the reference the
    handler later assigns through. *)
Definition find_reaction (userId : string) (rs : list Reaction)
    : option (nat * Reaction) :=
  list_find (λ r, r_userId r = userId) rs.

(** The reaction reducer: the reaction list after the toggle, as a
    function of the list, the user, the emoji and the time stamp a pushed
    reaction gets. *)
Definition applyReaction (rs : list Reaction) (userId emoji : string) (now : Z)
    : list Reaction :=
  match find_reaction userId rs with
  | Some (i, existingReaction) =>
      if decide (r_emoji existingReaction = emoji)
      then filter (λ r, r_userId r ≠ userId) rs
      else <[i := set_emoji existingReaction emoji]> rs
  | None => rs ++ [mkReaction userId emoji now]
  end.

(** Lines 529 to 543 of the handler as they are written, the clock being
    read only where a new reaction is pushed. *)
Definition toggle_reaction (rs : list Reaction) (userId emoji : string)
    : Async (list Reaction) :=
  match find_reaction userId rs with
  | Some (i, existingReaction) =>
      if decide (r_emoji existingReaction = emoji)
      then Ret (filter (λ r, r_userId r ≠ userId) rs)
      else Ret (<[i := set_emoji existingReaction emoji]> rs)
  | None =>
      createdAt ← perform DateNow;
      Ret (rs ++ [mkReaction userId emoji createdAt])
  end.

(** ** Socket handlers *)

Module Server.

Definition emit (t : Target) (e : ServerEvent) : Async unit := perform (Emit t e).

(** Reading a field of the payload [data]: when the client sent no object
    ([undefined], [null]) this throws a [TypeError]. *)
Definition payload {A} (data : option A) : Async A :=
  match data with
  | Some d => Ret d
  | None => Throw "TypeError"
  end.

(** [messages.findIndex(m => m.id === data.messageId)]: the callback reads
    the payload for each message it tests, and is not called when there is
    none. *)
Definition findIndex_by_id (data : option ReactionData) (messages : list Message)
    : Async (option (nat * Message)) :=
  match data, messages with
  | Some d, _ => Ret (list_find (λ m, Some (m_id m) = rd_messageId d) messages)
  | None, [] => Ret None
  | None, _ :: _ => Throw "TypeError"
  end.

(** [socket.on('join', async (userId) => ...)] *)
Definition on_join (socket : string) (userId : string) : Async unit :=
  perform (SetUserId socket userId) ;;
  perform (SocketJoin socket userId) ;;
  perform (ConnectedSet userId socket) ;;
  users ← readDatabase Users;
  match list_find (λ u, u_id u = userId) users with
  | Some (userIndex, user) =>
      lastSeen ← perform DateNow;
      let users := <[userIndex := set_presence user true lastSeen]> users in
      writeDatabase Users users ;;
      emit (socket_broadcast socket) (user_online userId)
  | None => Ret tt
  end.

(** [socket.on('send_message', async (data) => ...)] *)
Definition on_send_message (socket : string) (data : option SendData)
    : Async unit :=
  try_catch
    (messages ← readDatabase Messages;
     id ← perform Uuidv4;
     data ← payload data;
     createdAt ← perform DateNow;
     updatedAt ← perform DateNow;
     let message :=
       {| m_id := id;
          m_senderId := sd_senderId data;
          m_receiverId := sd_receiverId data;
          m_groupId := sd_groupId data;
          m_content := sd_content data;
          m_type := JS.or_else (sd_type data) "text";
          m_fileUrl := sd_fileUrl data;
          m_fileName := sd_fileName data;
          m_createdAt := createdAt;
          m_updatedAt := updatedAt;
          m_reactions := [];
          m_replies := [];
          m_isEdited := false |} in
     let messages := messages ++ [message] in
     writeDatabase Messages messages ;;
     if JS.truthy (sd_groupId data) then
       groups ← readDatabase Groups;
       match list_find (λ g, Some (g_id g) = sd_groupId data) groups with
       | Some (_, group) =>
           forEach (g_members group) (λ memberId,
             emit (io_to [Some memberId]) (receive_message message))
       | None => Ret tt
       end
     else
       emit (io_to [sd_receiverId data]) (receive_message message) ;;
       emit (socket_emit socket) (message_sent message))
    (λ error, emit (socket_emit socket) (message_error "Failed to send message")).

(** [socket.on('message_reaction', async (data) => ...)] *)
Definition on_message_reaction (socket : string) (data : option ReactionData)
    : Async unit :=
  try_catch
    (messages ← readDatabase Messages;
     found ← findIndex_by_id data messages;
     match found with
     | Some (messageIndex, message) =>
         data ← payload data;
         reactions ← toggle_reaction (m_reactions message)
                       (rd_userId data) (rd_emoji data);
         let message := set_reactions message reactions in
         updatedAt ← perform DateNow;
         let message := set_updatedAt message updatedAt in
         let messages := <[messageIndex := message]> messages in
         writeDatabase Messages messages ;;
         if JS.truthy (m_groupId message) then
           groups ← readDatabase Groups;
           match list_find (λ g, Some (g_id g) = m_groupId message) groups with
           | Some (_, group) =>
               forEach (g_members group) (λ memberId,
                 emit (io_to [Some memberId]) (message_updated message))
           | None => Ret tt
           end
         else
           emit (io_to [Some (m_senderId message); m_receiverId message])
             (message_updated message)
     | None => Ret tt
     end)
    (λ error, emit (socket_emit socket) (reaction_error "Failed to add reaction")).

(** [socket.on('typing', (data) => ...)] *)
Definition on_typing (socket : string) (data : TypingData) : Async unit :=
  if JS.truthy (td_groupId data) then
    emit (socket_to socket (td_groupId data))
      (user_typing (td_senderId data) (td_isTyping data))
  else
    emit (socket_to socket (td_receiverId data))
      (user_typing (td_senderId data) (td_isTyping data)).

Definition on_join_group (socket : string) (groupId : string) : Async unit :=
  perform (SocketJoin socket groupId).

Definition on_leave_group (socket : string) (groupId : string) : Async unit :=
  perform (SocketLeave socket groupId).

(** [socket.on('disconnect', async () => ...)] *)
Definition on_disconnect (socket : string) : Async unit :=
  socket_userId ← perform (GetUserId socket);
  if JS.truthy socket_userId then
    let userId := JS.prop_key socket_userId in
    perform (ConnectedDelete userId) ;;
    users ← readDatabase Users;
    match list_find (λ u, u_id u = userId) users with
    | Some (userIndex, user) =>
        lastSeen ← perform DateNow;
        let users := <[userIndex := set_presence user false lastSeen]> users in
        writeDatabase Users users ;;
        emit (socket_broadcast socket) (user_offline userId)
    | None => Ret tt
    end
  else Ret tt.

(** What a connection sends to the server. *)
Inductive ClientEvent :=
| connection
| join (userId : string)
| send_message (data : option SendData)
| message_reaction (data : option ReactionData)
| typing (data : TypingData)
| join_group (groupId : string)
| leave_group (groupId : string)
| disconnect.

(** What the socket library does itself before a handler is called: a new
    connection is registered in the room of its own id; a closed one has
    left every room and is no longer reached by any emit. *)
Definition before (socket : string) (ev : ClientEvent) (w : World) : World :=
  match ev with
  | connection =>
      with_sockets w (<[socket := mkSocket None {[socket]} true]> (sockets w))
  | disconnect =>
      with_sockets w
        (alter (λ s, mkSocket (sock_userId s) ∅ false) socket (sockets w))
  | _ => w
  end.

Definition handler (socket : string) (ev : ClientEvent) : Async unit :=
  match ev with
  | connection => Ret tt
  | join userId => on_join socket userId
  | send_message data => on_send_message socket data
  | message_reaction data => on_message_reaction socket data
  | typing data => on_typing socket data
  | join_group groupId => on_join_group socket groupId
  | leave_group groupId => on_leave_group socket groupId
  | disconnect => on_disconnect socket
  end.

(** *** Handlers one after the other *)

(** An input of the server: an event of a connection, or a change of which
    files can be read and written. *)
Inductive Input :=
| from_socket (socket : string) (ev : ClientEvent)
| fs_faults (rd wr : coll → bool).

Definition deliver (i : Input) (w : World) : World :=
  match i with
  | from_socket socket ev => (run (handler socket ev) (before socket ev w)).2
  | fs_faults rd wr => with_faults w rd wr
  end.

Definition deliver_all (inputs : list Input) (w : World) : World :=
  foldl (λ w i, deliver i w) w inputs.

(** *** Handlers in flight together *)

(** Run the synchronous operations at the head of a task, up to its next
    awaited file operation. *)
Fixpoint resume {A} (p : Async A) (w : World) : Async A * World :=
  match p with
  | Vis op k =>
      if is_io op then (p, w)
      else let '(x, w') := exec op w in resume (k x) w'
  | _ => (p, w)
  end.

(** One step of a task: the file operation it waits for completes, or, when
    it is not waiting for one, it runs up to the next. *)
Definition step_task {A} (p : Async A) (w : World) : Async A * World :=
  match p with
  | Vis op k =>
      if is_io op then let '(x, w') := exec op w in (k x, w')
      else resume p w
  | _ => (p, w)
  end.

(** A schedule names, step by step, the task that advances. *)
Fixpoint interleave (schedule : list nat) (tasks : list (Async unit)) (w : World)
    : list (Async unit) * World :=
  match schedule with
  | [] => (tasks, w)
  | i :: schedule' =>
      match tasks !! i with
      | Some p =>
          let '(p', w') := step_task p w in
          interleave schedule' (<[i := p']> tasks) w'
      | None => interleave schedule' tasks w
      end
  end.

Definition finished {A} (p : Async A) : bool :=
  match p with
  | Vis _ _ => false
  | _ => true
  end.

End Server.

(** ** REST snapshot of a conversation *)

Module Rest.

(** [Array.prototype.sort] with the comparator
    [(a, b) => new Date(a.createdAt) - new Date(b.createdAt)]: the sort is
    stable, so the result is the stable insertion into the sorted rest. *)
Fixpoint insert_by_createdAt (m : Message) (l : list Message) : list Message :=
  match l with
  | [] => [m]
  | x :: l' =>
      if decide (m_createdAt m - m_createdAt x ≤ 0)%Z then m :: x :: l'
      else x :: insert_by_createdAt m l'
  end.

Definition sort_by_createdAt (l : list Message) : list Message :=
  foldr insert_by_createdAt [] l.

(** [GET /api/messages/:userId] for the authenticated user [me]. *)
Definition get_messages (me userId : string) (messages : list Message)
    : list Message :=
  sort_by_createdAt
    (filter (λ m,
       (m_senderId m = me ∧ m_receiverId m = Some userId) ∨
       (m_senderId m = userId ∧ m_receiverId m = Some me)) messages).

End Rest.

(** ** Client: local storage, socket context and chat room *)

Module Client.

(** The three [localStorage] items the message handlers use, each [None]
    while the item is absent or does not parse; [setItem_ok] tells whether
    [localStorage.setItem] succeeds.  The items are objects used as maps
    from conversation and group ids; they are finite maps here, which is
    what [obj[id]] and [obj[id] = v] are for every id that names no
    property of [Object.prototype] ([JS.inherited]): the properties about
    an id assume that of it. *)
Record LocalStorage := mkLocalStorage {
  xgram_messages : option (gmap string (list Message));
  xgram_unread_counts : option (gmap string nat);
  xgram_group_messages : option (gmap string (list Message));
  setItem_ok : bool
}.

(** [storage.get(KEY) || {}] *)
Definition or_empty {V} (item : option (gmap string V)) : gmap string V :=
  default ∅ item.

Module conversationStorage.

(** [allMessages[conversationId] || []], and below
    [unreadCounts[conversationId] || 0]: the entry of the id, for an id
    that is not in [JS.Object_prototype]. *)
Definition getMessages (conversationId : string) (ls : LocalStorage)
    : list Message :=
  let allMessages := or_empty (xgram_messages ls) in
  default [] (allMessages !! conversationId).

Definition setMessages (conversationId : string) (messages : list Message)
    (ls : LocalStorage) : LocalStorage :=
  let allMessages := or_empty (xgram_messages ls) in
  let allMessages := <[conversationId := messages]> allMessages in
  if setItem_ok ls then
    mkLocalStorage (Some allMessages) (xgram_unread_counts ls)
      (xgram_group_messages ls) (setItem_ok ls)
  else ls.

Definition addMessage (conversationId : string) (message : Message)
    (ls : LocalStorage) : LocalStorage :=
  let messages := getMessages conversationId ls in
  let messages := messages ++ [message] in
  setMessages conversationId messages ls.

Definition getUnreadCount (conversationId : string) (ls : LocalStorage) : nat :=
  let unreadCounts := or_empty (xgram_unread_counts ls) in
  default 0 (unreadCounts !! conversationId).

Definition setUnreadCount (conversationId : string) (count : nat)
    (ls : LocalStorage) : LocalStorage :=
  let unreadCounts := or_empty (xgram_unread_counts ls) in
  let unreadCounts := <[conversationId := count]> unreadCounts in
  if setItem_ok ls then
    mkLocalStorage (xgram_messages ls) (Some unreadCounts)
      (xgram_group_messages ls) (setItem_ok ls)
  else ls.

Definition incrementUnreadCount (conversationId : string) (ls : LocalStorage)
    : LocalStorage :=
  let currentCount := getUnreadCount conversationId ls in
  setUnreadCount conversationId (currentCount + 1) ls.

Definition clearUnreadCount (conversationId : string) (ls : LocalStorage)
    : LocalStorage :=
  setUnreadCount conversationId 0 ls.

End conversationStorage.

Module groupStorage.

Definition getGroupMessages (groupId : string) (ls : LocalStorage)
    : list Message :=
  let allMessages := or_empty (xgram_group_messages ls) in
  default [] (allMessages !! groupId).

Definition setGroupMessages (groupId : string) (messages : list Message)
    (ls : LocalStorage) : LocalStorage :=
  let allMessages := or_empty (xgram_group_messages ls) in
  let allMessages := <[groupId := messages]> allMessages in
  if setItem_ok ls then
    mkLocalStorage (xgram_messages ls) (xgram_unread_counts ls)
      (Some allMessages) (setItem_ok ls)
  else ls.

Definition addGroupMessage (groupId : string) (message : Message)
    (ls : LocalStorage) : LocalStorage :=
  let messages := getGroupMessages groupId ls in
  let messages := messages ++ [message] in
  setGroupMessages groupId messages ls.

End groupStorage.

(** [messages.map(m => m.id === message.id ? message : m)] *)
Definition replace_by_id (message : Message) (messages : list Message)
    : list Message :=
  map (λ m, if decide (m_id m = m_id message) then message else m) messages.

(** *** Listeners of [SocketContext]; [user_id] is [user.id] *)

Module SocketContext.

Definition on_receive_message (user_id : string) (message : Message)
    (ls : LocalStorage) : LocalStorage :=
  if JS.truthy (m_groupId message) then
    groupStorage.addGroupMessage (JS.prop_key (m_groupId message)) message ls
  else
    let conversationId :=
      if decide (m_senderId message = user_id)
      then JS.prop_key (m_receiverId message)
      else m_senderId message in
    let ls := conversationStorage.addMessage conversationId message ls in
    if decide (m_senderId message ≠ user_id)
    then conversationStorage.incrementUnreadCount conversationId ls
    else ls.

Definition on_message_sent (message : Message) (ls : LocalStorage)
    : LocalStorage :=
  if JS.truthy (m_groupId message) then
    groupStorage.addGroupMessage (JS.prop_key (m_groupId message)) message ls
  else
    conversationStorage.addMessage (JS.prop_key (m_receiverId message)) message ls.

Definition on_message_updated (user_id : string) (message : Message)
    (ls : LocalStorage) : LocalStorage :=
  if JS.truthy (m_groupId message) then
    let groupId := JS.prop_key (m_groupId message) in
    let messages := groupStorage.getGroupMessages groupId ls in
    let updatedMessages := replace_by_id message messages in
    groupStorage.setGroupMessages groupId updatedMessages ls
  else
    let conversationId :=
      if decide (m_senderId message = user_id)
      then JS.prop_key (m_receiverId message)
      else m_senderId message in
    let messages := conversationStorage.getMessages conversationId ls in
    let updatedMessages := replace_by_id message messages in
    conversationStorage.setMessages conversationId updatedMessages ls.

End SocketContext.

(** *** The chat room page *)

(** State of a mounted [ChatRoom]: the route parameter and the [messages]
    and [loading] state variables. *)
Record ChatRoom := mkChatRoom {
  cr_userId : option string;
  cr_messages : list Message;
  cr_loading : bool
}.

Module ChatRoomPage.

(** Listeners registered by the effect on [socket, userId]. *)
Definition on_receive_message (message : Message) (cr : ChatRoom) : ChatRoom :=
  if decide (Some (m_senderId message) = cr_userId cr
             ∨ m_receiverId message = cr_userId cr)
  then mkChatRoom (cr_userId cr) (cr_messages cr ++ [message]) (cr_loading cr)
  else cr.

Definition on_message_sent (message : Message) (cr : ChatRoom) : ChatRoom :=
  mkChatRoom (cr_userId cr) (cr_messages cr ++ [message]) (cr_loading cr).

Definition on_message_updated (message : Message) (cr : ChatRoom) : ChatRoom :=
  mkChatRoom (cr_userId cr) (replace_by_id message (cr_messages cr))
    (cr_loading cr).

(** [loadCachedData], message part. *)
Definition loadCachedData (ls : LocalStorage) (cr : ChatRoom) : ChatRoom :=
  if JS.truthy (cr_userId cr) then
    let cachedMessages :=
      conversationStorage.getMessages (JS.prop_key (cr_userId cr)) ls in
    if decide (0 < length cachedMessages)
    then mkChatRoom (cr_userId cr) cachedMessages false
    else cr
  else cr.

End ChatRoomPage.

(** Listeners of the message events, by the component that registered
    them: the socket context, the chat room page, the conversation list
    page ([Chats]). *)
Inductive Listener :=
| ctx_receive_message | ctx_message_sent | ctx_message_updated
| room_receive_message | room_message_sent | room_message_updated
| chats_receive_message | chats_message_sent.

#[global] Instance Listener_eq_dec : EqDecision Listener.
Proof. solve_decision. Defined.

Definition event_name (l : Listener) : string :=
  match l with
  | ctx_receive_message | room_receive_message | chats_receive_message =>
      "receive_message"
  | ctx_message_sent | room_message_sent | chats_message_sent => "message_sent"
  | ctx_message_updated | room_message_updated => "message_updated"
  end.

Definition ctx_listeners : list Listener :=
  [ctx_receive_message; ctx_message_sent; ctx_message_updated].

Definition room_listeners : list Listener :=
  [room_receive_message; room_message_sent; room_message_updated].

Definition chats_listeners : list Listener :=
  [chats_receive_message; chats_message_sent].

(** The client: the signed-in user, the token, local storage, the socket's
    listeners in registration order ([None] while there is no open
    socket), the chat room when that page is shown, and whether the
    conversation list page is shown. *)
Record State := mkState {
  user_id : string;
  token : option string;
  storage : LocalStorage;
  listeners : option (list Listener);
  chatRoom : option ChatRoom;
  chats : bool
}.

(** [socket.on(...)] for each of [new]. *)
Definition socket_on (new : list Listener) (st : State) : State :=
  mkState (user_id st) (token st) (storage st)
    ((λ l, l ++ new) <$> listeners st) (chatRoom st) (chats st).

(** [socket.off(name)] with the event name alone removes every listener of
    that event, whoever registered it. *)
Definition socket_off (name : string) (st : State) : State :=
  mkState (user_id st) (token st) (storage st)
    (filter (λ l, event_name l ≠ name) <$> listeners st) (chatRoom st)
    (chats st).

(** Cleanup of the chat room's socket effect. *)
Definition room_cleanup (st : State) : State :=
  socket_off "message_updated"
    (socket_off "message_sent" (socket_off "receive_message" st)).

(** Cleanup of the conversation list's socket effect. *)
Definition chats_cleanup (st : State) : State :=
  socket_off "message_sent" (socket_off "receive_message" st).

(** [storage.clear()]: the items are removed. *)
Definition storage_clear (ls : LocalStorage) : LocalStorage :=
  mkLocalStorage None None None (setItem_ok ls).

(** One listener called with a pushed event.  The listeners of the
    conversation list start [fetchConversations], which changes none of
    the items above. *)
Definition call (l : Listener) (e : ServerEvent) (st : State) : State :=
  match l, e with
  | ctx_receive_message, receive_message m =>
      mkState (user_id st) (token st)
        (SocketContext.on_receive_message (user_id st) m (storage st))
        (listeners st) (chatRoom st) (chats st)
  | ctx_message_sent, message_sent m =>
      mkState (user_id st) (token st)
        (SocketContext.on_message_sent m (storage st))
        (listeners st) (chatRoom st) (chats st)
  | ctx_message_updated, message_updated m =>
      mkState (user_id st) (token st)
        (SocketContext.on_message_updated (user_id st) m (storage st))
        (listeners st) (chatRoom st) (chats st)
  | room_receive_message, receive_message m =>
      mkState (user_id st) (token st) (storage st) (listeners st)
        (ChatRoomPage.on_receive_message m <$> chatRoom st) (chats st)
  | room_message_sent, message_sent m =>
      mkState (user_id st) (token st) (storage st) (listeners st)
        (ChatRoomPage.on_message_sent m <$> chatRoom st) (chats st)
  | room_message_updated, message_updated m =>
      mkState (user_id st) (token st) (storage st) (listeners st)
        (ChatRoomPage.on_message_updated m <$> chatRoom st) (chats st)
  | _, _ => st
  end.

(** What happens to the client: the provider creates the socket; the chat
    room of a peer is shown (mounted, or its route parameter changes) or
    left; the request of [fetchMessages] issued for [userId] completes, with
    [None] for a failed one; the server pushes an event; the conversation
    list is shown or left; a conversation of the list is clicked
    ([userId] is [conversation.user?.id]); the user logs out. *)
Inductive Input :=
| socket_created
| chatRoom_shown (userId : option string)
| chatRoom_left
| messages_fetched (userId : option string) (data : option (list Message))
| pushed (e : ServerEvent)
| chats_shown
| chats_left
| conversation_clicked (userId : option string)
| logged_out.

Definition step (i : Input) (st : State) : State :=
  match i with
  | socket_created =>
      let st := mkState (user_id st) (token st) (storage st)
                  (Some ctx_listeners) (chatRoom st) (chats st) in
      let st := if chatRoom st is Some _ then socket_on room_listeners st else st in
      if chats st then socket_on chats_listeners st else st
  | chatRoom_shown userId =>
      let st := if chatRoom st is Some _ then room_cleanup st else st in
      let cr :=
        match chatRoom st with
        | Some cr => mkChatRoom userId (cr_messages cr) (cr_loading cr)
        | None => mkChatRoom userId [] true
        end in
      let st :=
        if JS.truthy userId && JS.truthy (token st) then
          mkState (user_id st) (token st)
            (conversationStorage.clearUnreadCount (JS.prop_key userId)
               (storage st))
            (listeners st)
            (Some (ChatRoomPage.loadCachedData (storage st) cr)) (chats st)
        else
          mkState (user_id st) (token st) (storage st) (listeners st) (Some cr)
            (chats st) in
      socket_on room_listeners st
  | chatRoom_left =>
      let st := room_cleanup st in
      mkState (user_id st) (token st) (storage st) (listeners st) None (chats st)
  | messages_fetched userId data =>
      match data with
      | Some data =>
          mkState (user_id st) (token st)
            (if JS.truthy userId
             then conversationStorage.setMessages (JS.prop_key userId) data
                    (storage st)
             else storage st)
            (listeners st)
            ((λ cr, mkChatRoom (cr_userId cr) data false) <$> chatRoom st)
            (chats st)
      | None =>
          mkState (user_id st) (token st) (storage st) (listeners st)
            ((λ cr, mkChatRoom (cr_userId cr) (cr_messages cr) false)
               <$> chatRoom st)
            (chats st)
      end
  | pushed e =>
      foldl (λ st l, call l e st) st (default [] (listeners st))
  | chats_shown =>
      let st := mkState (user_id st) (token st) (storage st) (listeners st)
                  (chatRoom st) true in
      socket_on chats_listeners st
  | chats_left =>
      let st := chats_cleanup st in
      mkState (user_id st) (token st) (storage st) (listeners st) (chatRoom st)
        false
  | conversation_clicked userId =>
      mkState (user_id st) (token st)
        (conversationStorage.clearUnreadCount (JS.or_else userId "") (storage st))
        (listeners st) (chatRoom st) (chats st)
  | logged_out =>
      mkState (user_id st) None (storage_clear (storage st)) None (chatRoom st)
        (chats st)
  end.

Definition steps (inputs : list Input) (st : State) : State :=
  foldl (λ st i, step i st) st inputs.

(** Name of the pushed event. *)
Definition pushed_name (e : ServerEvent) : string :=
  match e with
  | receive_message _ => "receive_message"
  | message_sent _ => "message_sent"
  | message_updated _ => "message_updated"
  | user_online _ => "user_online"
  | user_offline _ => "user_offline"
  | user_typing _ _ => "user_typing"
  | message_error _ => "message_error"
  | reaction_error _ => "reaction_error"
  end.

(** The id under which the context's listener of a pushed message event
    files the message. *)
Definition cache_key (user_id : string) (e : ServerEvent) : option string :=
  match e with
  | receive_message m | message_updated m =>
      Some (if JS.truthy (m_groupId m) then JS.prop_key (m_groupId m)
            else if decide (m_senderId m = user_id)
                 then JS.prop_key (m_receiverId m)
                 else m_senderId m)
  | message_sent m =>
      Some (if JS.truthy (m_groupId m) then JS.prop_key (m_groupId m)
            else JS.prop_key (m_receiverId m))
  | _ => None
  end.

(** The id is none of the names an object inherits. *)
Definition plain_key (user_id : string) (e : ServerEvent) : Prop :=
  ∀ key, cache_key user_id e = Some key → JS.inherited key = false.

End Client.

(** ** Vocabulary of the properties *)

(** The entries of a user in a reaction list, and their emojis. *)
Definition reactions_of (userId : string) (rs : list Reaction) : list Reaction :=
  filter (λ r, r_userId r = userId) rs.

Definition emojis_of (userId : string) (rs : list Reaction) : list string :=
  r_emoji <$> reactions_of userId rs.

(** At most one reaction per (message, user) pair. *)
Definition one_reaction_per_user (rs : list Reaction) : Prop :=
  NoDup (r_userId <$> rs).

Definition reactions_inv (d : Disk) : Prop :=
  Forall (λ m, one_reaction_per_user (m_reactions m)) (messages_json d).

(** What a collection holds for a handler that reads it. *)
Definition read_db (w : World) (c : coll) : coll_data c :=
  if readable w c then disk_get (disk w) c else no_records c.

(** The emits made between two states of the server. *)
Definition new_emissions (w w' : World) : list Emission :=
  drop (length (emitted w)) (emitted w').

(** Number of events a connection received among some emits. *)
Definition deliveries_at (sid : string) (es : list Emission) : nat :=
  length (filter (λ e, sid ∈ em_recipients e) es).

(** Number of emits addressed to the private room of a user. *)
Definition emits_to_room (room : string) (es : list Emission) : nat :=
  length (filter (λ e, em_target e = io_to [Some room]) es).

(** The stored online flag of a user: that of the first record with the id. *)
Definition isOnline (userId : string) (d : Disk) : option bool :=
  (λ p, u_isOnline p.2) <$> list_find (λ u, u_id u = userId) (users_json d).

(** The first stored message with the id. *)
Definition stored_message (messageId : string) (d : Disk) : option Message :=
  snd <$> list_find (λ m, Some (m_id m) = Some messageId) (messages_json d).

(** The state after [writeDatabase]: the file is replaced, or, when the
    write fails, the failure is logged and nothing else changes. *)
Definition write_db (w : World) (c : coll) (data : coll_data c) : World :=
  if writable w c then with_disk w (disk_set (disk w) c data)
  else with_console w (console w ++ [("Error writing to " ++ filename c ++ ":")%string]).

(** An emit made in state [w]. *)
Definition emission (w : World) (t : Target) (e : ServerEvent) : Emission :=
  mkEmission t e (recipients (sockets w) t).

(** The record [send_message] builds in state [w]. *)
Definition new_message (w : World) (data : SendData) : Message :=
  {| m_id := uuid_src w (uuid_n w);
     m_senderId := sd_senderId data;
     m_receiverId := sd_receiverId data;
     m_groupId := sd_groupId data;
     m_content := sd_content data;
     m_type := JS.or_else (sd_type data) "text";
     m_fileUrl := sd_fileUrl data;
     m_fileName := sd_fileName data;
     m_createdAt := clock_src w (clock_n w);
     m_updatedAt := clock_src w (S (clock_n w));
     m_reactions := [];
     m_replies := [];
     m_isEdited := false |}.

(** Members of the group as the handler reads them in state [w]: none when
    the id does not resolve. *)
Definition group_members (w : World) (groupId : option string) : list string :=
  match list_find (λ g, Some (g_id g) = groupId) (read_db w Groups) with
  | Some (_, group) => g_members group
  | None => []
  end.

(** Emits of [e] to the private rooms of [members], one per member. *)
Definition unicast (w : World) (e : ServerEvent) (members : list string)
    : list Emission :=
  (λ memberId, emission w (io_to [Some memberId]) e) <$> members.

(** The emits of a message event [e] about a message addressed to
    [groupId] or else to [direct]. *)
Definition fanout (w : World) (groupId : option string)
    (direct : list Emission) (e : ServerEvent) : list Emission :=
  if JS.truthy groupId then unicast w e (group_members w groupId) else direct.

(** The state after the reducer ran on [rs]: the clock was read only when a
    reaction was pushed. *)
Definition after_toggle (w : World) (rs : list Reaction) (userId : string)
    : World :=
  if find_reaction userId rs is Some _ then w else next_clock w.

(** The message [message_reaction] stores and sends for [message]. *)
Definition reacted (w : World) (data : ReactionData) (message : Message)
    : Message :=
  let w' := after_toggle w (m_reactions message) (rd_userId data) in
  set_updatedAt
    (set_reactions message
       (applyReaction (m_reactions message) (rd_userId data) (rd_emoji data)
          (clock_src w (clock_n w))))
    (clock_src w' (clock_n w')).

(** The state after the synchronous start of the [join] handler. *)
Definition joined (w : World) (socket userId : string) : World :=
  (exec (ConnectedSet userId socket)
     (exec (SocketJoin socket userId)
        (exec (SetUserId socket userId) w).2).2).2.

(** The user a connection joined as, when [socket.userId] is truthy. *)
Definition joined_as (w : World) (socket : string) : option string :=
  match sockets w !! socket ≫= sock_userId with
  | Some u => if JS.truthy (Some u) then Some u else None
  | None => None
  end.

(** ** Concrete states used by the examples *)

Module Ex.

Definition user (id : string) : User :=
  mkUser id id "" "" id "" "" "" [] 0 false 0.

(** A direct message from alice to bob, without reactions. *)
Definition M : Message :=
  mkMessage "M" "alice" (Some "bob") None "hi" "text" None None 10 10 [] [] false.

(** The same message after alice reacted with a heart. *)
Definition M_heart : Message :=
  set_reactions M [mkReaction "alice" "heart" 20].

Definition G : Group :=
  mkGroup "g1" "team" "" "" ["alice"; "bob"; "carol"] "alice" 0 0.

(** Identifiers [A], [B], ... and a clock that starts at 100. *)
Definition uuid (n : nat) : string := String (Ascii.ascii_of_nat (65 + n)) "".
Definition clock (n : nat) : Z := Z.of_nat (100 + n).

Definition all (_ : coll) : bool := true.
Definition all_but_messages (c : coll) : bool :=
  if decide (c = Messages) then false else true.

(** The server after start: three users, one group, one message. *)
Definition started : World :=
  {| disk := mkDisk [user "alice"; user "bob"; user "carol"] [M] [G];
     readable := all; writable := all;
     connectedUsers := ∅; sockets := ∅; emitted := []; console := [];
     uuid_src := uuid; uuid_n := 0; clock_src := clock; clock_n := 0 |}.

(** Alice is connected from two devices ([s1], [s3]), bob from one. *)
Definition online : World :=
  Server.deliver_all
    [Server.from_socket "s1" Server.connection;
     Server.from_socket "s1" (Server.join "alice");
     Server.from_socket "s2" Server.connection;
     Server.from_socket "s2" (Server.join "bob");
     Server.from_socket "s3" Server.connection;
     Server.from_socket "s3" (Server.join "alice")] started.

(** The same with [messages.json] not writable. *)
Definition read_only : World := with_faults online all all_but_messages.

Definition hi_bob : SendData :=
  mkSendData "alice" (Some "bob") None "hi" (Some "text") None None.
Definition hi_group : SendData :=
  mkSendData "alice" None (Some "g1") "hi" (Some "text") None None.
Definition hi_nobody : SendData :=
  mkSendData "alice" None None "hi" (Some "text") None None.
Definition hi_lost_group : SendData :=
  mkSendData "alice" None (Some "g9") "hi" (Some "text") None None.

Definition alice_likes : ReactionData := mkReactionData (Some "M") "alice" "thumbsup".
Definition bob_likes : ReactionData := mkReactionData (Some "M") "bob" "thumbsup".
Definition likes_unknown : ReactionData := mkReactionData (Some "Z") "bob" "thumbsup".

(** A client signed in as [me] with an empty local storage. *)
Definition signed_in : Client.State :=
  Client.mkState "me" (Some "token")
    (Client.mkLocalStorage None None None true) None None false.

Definition from_peer (id : string) (t : Z) : Message :=
  mkMessage id "peer" (Some "me") None "hello" "text" None None t t [] [] false.
Definition to_peer (id : string) (t : Z) : Message :=
  mkMessage id "me" (Some "peer") None "hello" "text" None None t t [] [] false.

(** The page of the chat with [peer] opened directly, then the socket. *)
Definition viewing_peer : Client.State :=
  Client.steps [Client.chatRoom_shown (Some "peer"); Client.socket_created]
    signed_in.

(** A message from [peer] then arrives and is shown. *)
Definition chatting : Client.State :=
  Client.step (Client.pushed (receive_message (from_peer "1" 5))) viewing_peer.

End Ex.

(** ** The claims as the specification words them *)

Module Claimed.

(** A rejected request: nothing is stored and the only emit is a typed
    error to the originating connection. *)
Definition rejected (socket : string) (ev : Server.ClientEvent) (w : World)
    : Prop :=
  let w' := Server.deliver (Server.from_socket socket ev) w in
  disk w' = disk w ∧
  ∃ e, is_error_event e = true ∧
       new_emissions w w' = [emission w (socket_emit socket) e].

(** The request names no target, or a group or message that is not there. *)
Definition unresolved (ev : Server.ClientEvent) (w : World) : Prop :=
  match ev with
  | Server.send_message (Some d) =>
      if JS.truthy (sd_groupId d)
      then list_find (λ g, Some (g_id g) = sd_groupId d) (read_db w Groups) = None
      else sd_receiverId d = None
  | Server.message_reaction (Some d) =>
      list_find (λ m, Some (m_id m) = rd_messageId d) (read_db w Messages) = None
  | _ => False
  end.

(** Both users have a reaction on the stored message. *)
Definition both_persist (messageId u1 u2 : string) (w : World) : Prop :=
  ∃ m, stored_message messageId (disk w) = Some m ∧
       reactions_of u1 (m_reactions m) ≠ [] ∧
       reactions_of u2 (m_reactions m) ≠ [].

(** Another open connection joined as the same user. *)
Definition has_other_connection (socket userId : string) (w : World) : Prop :=
  ∃ sid s, sid ≠ socket ∧ sockets w !! sid = Some s ∧
           sock_connected s = true ∧ sock_userId s = Some userId.

(** Closing the connection broadcasts nothing. *)
Definition silent_close (socket : string) (w : World) : Prop :=
  new_emissions w (Server.deliver (Server.from_socket socket Server.disconnect) w) = [].

(** Toggling twice restores the emojis of the user. *)
Definition double_toggle_restores (rs : list Reaction) (u e : string) : Prop :=
  ∀ t1 t2,
    emojis_of u (applyReaction (applyReaction rs u e t1) u e t2) = emojis_of u rs.




(** The messages shown by the chat room. *)
Definition view (st : Client.State) : list Message :=
  default [] (Client.cr_messages <$> Client.chatRoom st).

(** After the input the view holds every id it held before, each id once. *)
Definition merges_by_id (i : Client.Input) (st : Client.State) : Prop :=
  let st' := Client.step i st in
  (∀ m, m ∈ view st → m_id m ∈ m_id <$> view st') ∧
  (NoDup (m_id <$> view st) → NoDup (m_id <$> view st')).

End Claimed.

(** What one listener called with a pushed event does to the chat room. *)
Definition room_call (l : Client.Listener) (e : ServerEvent)
    (cr : Client.ChatRoom) : Client.ChatRoom :=
  match l, e with
  | Client.room_receive_message, receive_message m =>
      Client.ChatRoomPage.on_receive_message m cr
  | Client.room_message_sent, message_sent m =>
      Client.ChatRoomPage.on_message_sent m cr
  | Client.room_message_updated, message_updated m =>
      Client.ChatRoomPage.on_message_updated m cr
  | _, _ => cr
  end.

(** How many times a listener is registered. *)
Definition registered (l : Client.Listener) (ls : list Client.Listener) : nat :=
  length (filter (λ l', l' = l) ls).

(** ** Handlers that keep the reaction invariant *)

Definition messages_ok (ms : list Message) : Prop :=
  Forall (λ m, one_reaction_per_user (m_reactions m)) ms.

(** What an operation needs, and what it gives to the rest [K] of the
    handler: a read of [messages.json] gives a list that satisfies the
    invariant, a write to it needs one. *)
Definition op_keeps {X} (op : Op X) : (X → Prop) → Prop :=
  match op in Op X return (X → Prop) → Prop with
  | FsReadFile c =>
      match c return (option (coll_data c) → Prop) → Prop with
      | Messages => λ K, ∀ r, from_option messages_ok True r → K r
      | _ => λ K, ∀ r, K r
      end
  | FsWriteFile c data =>
      match c return coll_data c → (bool → Prop) → Prop with
      | Messages => λ data K, messages_ok data ∧ ∀ b, K b
      | _ => λ _ K, ∀ b, K b
      end data
  | _ => λ K, ∀ x, K x
  end.

(** [keeps p Q]: whenever the handler [p] runs in a store that satisfies
    the invariant, alone or interleaved with others that keep it, each of
    its writes does, and its result satisfies [Q]. *)
Fixpoint keeps {A} (p : Async A) (Q : A → Prop) : Prop :=
  match p with
  | Ret a => Q a
  | Throw _ => True
  | Vis op k => op_keeps op (λ x, keeps (k x) Q)
  end.

(** ** REST routes *)

Module RestApi.

(** A user record without its password
    ([const { password: _, ...userWithoutPassword } = user]). *)
Record PublicUser := mkPublicUser {
  pu_id : string;
  pu_username : string;
  pu_email : string;
  pu_name : string;
  pu_bio : string;
  pu_avatar : string;
  pu_banner : string;
  pu_links : list string;
  pu_createdAt : Z;
  pu_isOnline : bool;
  pu_lastSeen : Z
}.

Definition without_password (u : User) : PublicUser :=
  {| pu_id := u_id u; pu_username := u_username u; pu_email := u_email u;
     pu_name := u_name u; pu_bio := u_bio u; pu_avatar := u_avatar u;
     pu_banner := u_banner u; pu_links := u_links u;
     pu_createdAt := u_createdAt u; pu_isOnline := u_isOnline u;
     pu_lastSeen := u_lastSeen u |}.

(** What [jwt.sign] signs: [{ id: user.id, username: user.username }]. *)
Record Token := mkToken {
  tk_id : string;
  tk_username : string
}.

(** What a route answers: the status and the JSON body. *)
Inductive Body :=
| error (msg : string)
| message (msg : string)
| group (g : Group)
| groups (gs : list Group)
| messages (ms : list Message)
| session (token : Token) (user : PublicUser)
| profile (user : PublicUser).

Record Response := mkResponse {
  status : nat;
  body : Body
}.

(** Body of [POST /api/groups]: [members] is [None] when the field is
    missing or is not an array. *)
Record GroupBody := mkGroupBody {
  gb_name : option string;
  gb_members : option (list string)
}.

(** Body of [POST /api/register]. *)
Record RegisterBody := mkRegisterBody {
  rb_username : option string;
  rb_email : option string;
  rb_password : option string;
  rb_name : option string
}.

(** Body of [POST /api/login]. *)
Record LoginBody := mkLoginBody {
  lb_username : option string;
  lb_password : option string
}.

(** Body of [PUT /api/profile]: the fields of a user record it gives. *)
Record ProfileBody := mkProfileBody {
  pb_id : option string;
  pb_username : option string;
  pb_email : option string;
  pb_password : option string;
  pb_name : option string;
  pb_bio : option string;
  pb_avatar : option string;
  pb_banner : option string;
  pb_links : option (list string);
  pb_createdAt : option Z;
  pb_isOnline : option bool;
  pb_lastSeen : option Z
}.

(** [{ ...user, ...req.body }] *)
Definition spread_profile (user : User) (b : ProfileBody) : User :=
  {| u_id := default (u_id user) (pb_id b);
     u_username := default (u_username user) (pb_username b);
     u_email := default (u_email user) (pb_email b);
     u_password := default (u_password user) (pb_password b);
     u_name := default (u_name user) (pb_name b);
     u_bio := default (u_bio user) (pb_bio b);
     u_avatar := default (u_avatar user) (pb_avatar b);
     u_banner := default (u_banner user) (pb_banner b);
     u_links := default (u_links user) (pb_links b);
     u_createdAt := default (u_createdAt user) (pb_createdAt b);
     u_isOnline := default (u_isOnline user) (pb_isOnline b);
     u_lastSeen := default (u_lastSeen user) (pb_lastSeen b) |}.

(** [app.post('/api/register', ...)]; [hashedPassword] is what
    [bcrypt.hash(password, 12)] gives. *)
Definition post_register (req_body : RegisterBody) (hashedPassword : string)
    : Async Response :=
  try_catch
    (if JS.truthy (rb_username req_body) && JS.truthy (rb_email req_body)
        && JS.truthy (rb_password req_body) && JS.truthy (rb_name req_body)
     then
       let username := JS.prop_key (rb_username req_body) in
       let email := JS.prop_key (rb_email req_body) in
       users ← readDatabase Users;
       if list_find (λ u, u_username u = username ∨ u_email u = email) users
          is Some _
       then Ret (mkResponse 400 (error "User already exists"))
       else
         id ← perform Uuidv4;
         createdAt ← perform DateNow;
         lastSeen ← perform DateNow;
         let user :=
           {| u_id := id;
              u_username := username;
              u_email := email;
              u_password := hashedPassword;
              u_name := JS.prop_key (rb_name req_body);
              u_bio := "";
              u_avatar := "";
              u_banner := "";
              u_links := [];
              u_createdAt := createdAt;
              u_isOnline := false;
              u_lastSeen := lastSeen |} in
         let users := users ++ [user] in
         writeDatabase Users users ;;
         Ret (mkResponse 200
                (session (mkToken (u_id user) (u_username user))
                   (without_password user)))
     else Ret (mkResponse 400 (error "All fields are required")))
    (λ _, perform (ConsoleError "Registration error:") ;;
          Ret (mkResponse 500 (error "Server error"))).

(** [app.post('/api/login', ...)]; [bcrypt_compare password hash] is what
    [bcrypt.compare] gives. *)
Definition post_login (req_body : LoginBody)
    (bcrypt_compare : string → string → bool) : Async Response :=
  try_catch
    (if JS.truthy (lb_username req_body) && JS.truthy (lb_password req_body)
     then
       let username := JS.prop_key (lb_username req_body) in
       let password := JS.prop_key (lb_password req_body) in
       users ← readDatabase Users;
       match list_find (λ u, u_username u = username ∨ u_email u = username)
               users with
       | Some (userIndex, user) =>
           if bcrypt_compare password (u_password user) then
             lastSeen ← perform DateNow;
             let user := set_presence user true lastSeen in
             let users := <[userIndex := user]> users in
             writeDatabase Users users ;;
             Ret (mkResponse 200
                    (session (mkToken (u_id user) (u_username user))
                       (without_password user)))
           else Ret (mkResponse 400 (error "Invalid credentials"))
       | None => Ret (mkResponse 400 (error "Invalid credentials"))
       end
     else Ret (mkResponse 400 (error "Username and password are required")))
    (λ _, perform (ConsoleError "Login error:") ;;
          Ret (mkResponse 500 (error "Server error"))).

(** [app.put('/api/profile', authenticateToken, ...)] *)
Definition put_profile (me : string) (req_body : ProfileBody) : Async Response :=
  try_catch
    (users ← readDatabase Users;
     match list_find (λ u, u_id u = me) users with
     | None => Ret (mkResponse 404 (error "User not found"))
     | Some (userIndex, user) =>
         let user := spread_profile user req_body in
         let users := <[userIndex := user]> users in
         writeDatabase Users users ;;
         Ret (mkResponse 200 (profile (without_password user)))
     end)
    (λ _, Ret (mkResponse 500 (error "Server error"))).

(** [set.add(x)] on the elements of a [Set] in insertion order. *)
Definition set_add (elements : list string) (x : string) : list string :=
  if decide (x ∈ elements) then elements else elements ++ [x].

(** [[...new Set(l)]] *)
Definition set_spread (l : list string) : list string :=
  foldl set_add [] l.

(** [app.post('/api/groups', authenticateToken, ...)], [me] being
    [req.user.id]. *)
Definition post_groups (me : string) (req_body : GroupBody) : Async Response :=
  try_catch
    (match gb_members req_body with
     | Some members =>
         if JS.truthy (gb_name req_body) then
           groups ← readDatabase Groups;
           id ← perform Uuidv4;
           createdAt ← perform DateNow;
           lastActivity ← perform DateNow;
           let group :=
             {| g_id := id;
                g_name := JS.prop_key (gb_name req_body);
                g_description := "";
                g_avatar := "";
                g_members := set_spread (me :: members);
                g_createdBy := me;
                g_createdAt := createdAt;
                g_lastActivity := lastActivity |} in
           let groups := groups ++ [group] in
           writeDatabase Groups groups ;;
           Ret (mkResponse 200 (RestApi.group group))
         else
           Ret (mkResponse 400 (error "Group name and members are required"))
     | None =>
         Ret (mkResponse 400 (error "Group name and members are required"))
     end)
    (λ _, perform (ConsoleError "Group creation error:") ;;
          Ret (mkResponse 500 (error "Server error"))).

(** [app.delete('/api/groups/:id', authenticateToken, ...)] *)
Definition delete_groups_id (me id : string) : Async Response :=
  try_catch
    (groups ← readDatabase Groups;
     match list_find (λ g, g_id g = id) groups with
     | None => Ret (mkResponse 404 (error "Group not found"))
     | Some (groupIndex, g) =>
         if decide (g_createdBy g ≠ me) then
           Ret (mkResponse 403 (error "Only group creator can delete the group"))
         else
           let groups := delete groupIndex groups in
           writeDatabase Groups groups ;;
           Ret (mkResponse 200 (message "Group deleted successfully"))
     end)
    (λ _, Ret (mkResponse 500 (error "Server error"))).

(** [app.get('/api/groups', authenticateToken, ...)] *)
Definition get_groups (me : string) : Async Response :=
  try_catch
    (groups ← readDatabase Groups;
     let userGroups :=
       filter (λ g, me ∈ g_members g ∨ g_createdBy g = me) groups in
     Ret (mkResponse 200 (RestApi.groups userGroups)))
    (λ _, Ret (mkResponse 500 (error "Server error"))).

(** [app.get('/api/groups/:groupId/messages', authenticateToken, ...)] *)
Definition get_groups_messages (groupId : string) : Async Response :=
  try_catch
    (messages ← readDatabase Messages;
     let groupMessages :=
       Rest.sort_by_createdAt
         (filter (λ m, m_groupId m = Some groupId) messages) in
     Ret (mkResponse 200 (RestApi.messages groupMessages)))
    (λ _, Ret (mkResponse 500 (error "Server error"))).

(** [app.get('/api/messages/:userId', authenticateToken, ...)] *)
Definition get_messages (me userId : string) : Async Response :=
  try_catch
    (messages ← readDatabase Messages;
     Ret (mkResponse 200 (RestApi.messages (Rest.get_messages me userId messages))))
    (λ _, Ret (mkResponse 500 (error "Server error"))).

(** A request to one of these routes, [me] being the user of the token,
    with what [bcrypt] gives for it.  The routes that are left out
    ([GET /api/users], [/api/users/search], [/api/users/:id],
    [/api/conversations], [/api/health], [POST /api/upload]) write none of
    the three files. *)
Inductive Request :=
| POST_register (req_body : RegisterBody) (hashedPassword : string)
| POST_login (req_body : LoginBody) (bcrypt_compare : string → string → bool)
| PUT_profile (me : string) (req_body : ProfileBody)
| POST_groups (me : string) (req_body : GroupBody)
| DELETE_groups_id (me id : string)
| GET_groups (me : string)
| GET_groups_messages (groupId : string)
| GET_messages (me userId : string).

Definition route (r : Request) : Async Response :=
  match r with
  | POST_register req_body hashedPassword => post_register req_body hashedPassword
  | POST_login req_body bcrypt_compare => post_login req_body bcrypt_compare
  | PUT_profile me req_body => put_profile me req_body
  | POST_groups me req_body => post_groups me req_body
  | DELETE_groups_id me id => delete_groups_id me id
  | GET_groups me => get_groups me
  | GET_groups_messages groupId => get_groups_messages groupId
  | GET_messages me userId => get_messages me userId
  end.

(** The routes that write [users.json]. *)
Definition writes_users (r : Request) : bool :=
  match r with
  | POST_register _ _ | POST_login _ _ | PUT_profile _ _ => true
  | _ => false
  end.

(** What reaches the server process: a socket input or a request. *)
Inductive Incoming :=
| socket_input (i : Server.Input)
| request (r : Request).

Definition serve (i : Incoming) (w : World) : World :=
  match i with
  | socket_input i => Server.deliver i w
  | request r => (run (route r) w).2
  end.

Definition serve_all (inputs : list Incoming) (w : World) : World :=
  foldl (λ w i, serve i w) w inputs.

End RestApi.

(** ** Client: presence and typing indicators of the socket context *)

Module Indicators.

(** The [onlineUsers] and [typingUsers] state of [SocketProvider]. *)
Record State := mkState {
  onlineUsers : gset string;
  typingUsers : gmap string bool
}.

(** Listeners of [user_online], [user_offline] and [user_typing]. *)
Definition on_user_online (userId : string) (st : State) : State :=
  mkState ({[userId]} ∪ onlineUsers st) (typingUsers st).

Definition on_user_offline (userId : string) (st : State) : State :=
  mkState (onlineUsers st ∖ {[userId]}) (typingUsers st).

Definition on_user_typing (userId : string) (isTyping : bool) (st : State)
    : State :=
  mkState (onlineUsers st)
    (if isTyping then <[userId := true]> (typingUsers st)
     else delete userId (typingUsers st)).

Definition on_event (e : ServerEvent) (st : State) : State :=
  match e with
  | user_online userId => on_user_online userId st
  | user_offline userId => on_user_offline userId st
  | user_typing userId isTyping => on_user_typing userId isTyping st
  | _ => st
  end.

Definition on_events (es : list ServerEvent) (st : State) : State :=
  foldl (λ st e, on_event e st) st es.

(** What the chat room header shows for the peer [otherUser] ([None] while
    the peer is not loaded): [onlineUsers.has(otherUser.id)] and
    [typingUsers.has(otherUser.id)]. *)
Definition isOnline (otherUser : option string) (st : State) : bool :=
  match otherUser with
  | Some id => bool_decide (id ∈ onlineUsers st)
  | None => false
  end.

Definition isTyping (otherUser : option string) (st : State) : bool :=
  match otherUser with
  | Some id => bool_decide (is_Some (typingUsers st !! id))
  | None => false
  end.

(** The last presence event about [userId] in [es], if any: [true] for
    [user_online]. *)
Definition last_presence (userId : string) (es : list ServerEvent)
    : option bool :=
  last (omap (λ e, match e with
                   | user_online u =>
                       if decide (u = userId) then Some true else None
                   | user_offline u =>
                       if decide (u = userId) then Some false else None
                   | _ => None
                   end) es).

(** The last typing event about [userId] in [es], if any. *)
Definition last_typing (userId : string) (es : list ServerEvent)
    : option bool :=
  last (omap (λ e, match e with
                   | user_typing u b => if decide (u = userId) then Some b else None
                   | _ => None
                   end) es).

End Indicators.

(** ** Handlers between their read and their write of the messages file *)

(** Does the operation read or write [messages.json]? *)
Definition on_messages {X} (op : Op X) : bool :=
  match op with
  | FsReadFile Messages | FsWriteFile Messages _ => true
  | _ => false
  end.

(** What the operation writes to [messages.json], if it does. *)
Definition written {X} (op : Op X) : option (list Message) :=
  match op with
  | FsWriteFile c data =>
      match c return coll_data c → option (list Message) with
      | Messages => λ data, Some data
      | _ => λ _, None
      end data
  | _ => None
  end.

(** Is the handler waiting for a file operation? *)
Definition waits {A} (p : Async A) : bool :=
  match p with
  | Vis op _ => is_io op
  | _ => false
  end.

(** [idle p]: what is left of the handler neither reads nor writes
    [messages.json]. *)
Fixpoint idle {A} (p : Async A) : Prop :=
  match p with
  | Vis op k => on_messages op = false ∧ ∀ x, idle (k x)
  | _ => True
  end.

(** [writes_next Q p]: the handler has read and not yet written: it has not
    ended, what it does next to [messages.json] is to write a list that
    satisfies [Q], whatever the clock shows in between, and it is idle
    after that. *)
Fixpoint writes_next {A} (Q : list Message → Prop) (p : Async A) : Prop :=
  match p with
  | Vis op k =>
      match written op with
      | Some data => Q data ∧ ∀ x, idle (k x)
      | None => on_messages op = false ∧ ∀ x, writes_next Q (k x)
      end
  | _ => False
  end.

(** The lists a [message_reaction] of user [u] with emoji [e] writes when it
    read [messages] and found [m0] at [i]: [m0] is replaced by a message
    with the same id whose reactions are those of [m0] after the toggle of
    [u], nothing else being changed. *)
Definition toggled (messages : list Message) (i : nat) (m0 : Message)
    (u e : string) (data : list Message) : Prop :=
  ∃ m t, data = <[i := m]> messages ∧ m_id m = m_id m0 ∧
         m_reactions m = applyReaction (m_reactions m0) u e t.

(** ** Vocabulary of the further properties *)

(** What identifies a message and never changes once it is stored:
    everything but the reactions and the time of the last update. *)
Definition identity_of (m : Message) : Message :=
  set_updatedAt (set_reactions m []) 0.

(** A user record without its presence fields. *)
Definition account_of (u : User) : User := set_presence u false 0.

(** The ids of the stored messages were all drawn from the id source, each
    once. *)
Definition ids_fresh (w : World) : Prop :=
  NoDup (m_id <$> messages_json (disk w)) ∧
  ∀ id, id ∈ m_id <$> messages_json (disk w) →
        ∃ k, k < uuid_n w ∧ id = uuid_src w k.

(** Every stored group lists its creator and no member twice. *)
Definition groups_ok (d : Disk) : Prop :=
  Forall (λ g, NoDup (g_members g) ∧ g_createdBy g ∈ g_members g)
    (groups_json d).

(** The record [POST /api/groups] builds in state [w]. *)
Definition new_group (w : World) (me name : string) (members : list string)
    : Group :=
  {| g_id := uuid_src w (uuid_n w);
     g_name := name;
     g_description := "";
     g_avatar := "";
     g_members := RestApi.set_spread (me :: members);
     g_createdBy := me;
     g_createdAt := clock_src w (clock_n w);
     g_lastActivity := clock_src w (S (clock_n w)) |}.

(** The record [POST /api/register] builds in state [w]. *)
Definition new_user (w : World) (b : RestApi.RegisterBody)
    (hashedPassword : string) : User :=
  {| u_id := uuid_src w (uuid_n w);
     u_username := JS.prop_key (RestApi.rb_username b);
     u_email := JS.prop_key (RestApi.rb_email b);
     u_password := hashedPassword;
     u_name := JS.prop_key (RestApi.rb_name b);
     u_bio := "";
     u_avatar := "";
     u_banner := "";
     u_links := [];
     u_createdAt := clock_src w (clock_n w);
     u_isOnline := false;
     u_lastSeen := clock_src w (S (clock_n w)) |}.

(** The response to a request and the state it leaves. *)
Definition respond (r : RestApi.Request) (w : World)
    : option RestApi.Response * World :=
  let '(res, w') := run (RestApi.route r) w in
  (match res with inl response => Some response | inr _ => None end, w').

(** The open connections other than [socket]. *)
Definition others_open (w : World) (socket : string) (R : gset string) : Prop :=
  ∀ sid, sid ∈ R ↔
         sid ≠ socket ∧
         ∃ s, sockets w !! sid = Some s ∧ sock_connected s = true.

(** The open connections in the room [room]. *)
Definition open_in_room (w : World) (room : string) (R : gset string) : Prop :=
  ∀ sid, sid ∈ R ↔
         ∃ s, sockets w !! sid = Some s ∧ sock_connected s = true ∧
              room ∈ sock_rooms s.

(** * Properties *)

(** ** The reaction reducer *)

Section reducer.
Implicit Types (rs : list Reaction) (u e : string) (now : Z).

Lemma find_reaction_None u rs :
  find_reaction u rs = None ↔ ∀ r, r ∈ rs → r_userId r ≠ u.
Proof. unfold find_reaction. rewrite list_find_None, Forall_forall. done. Qed.

Lemma find_reaction_Some u rs i r :
  find_reaction u rs = Some (i, r) ↔
  rs !! i = Some r ∧ r_userId r = u ∧
  ∀ j r', rs !! j = Some r' → j < i → r_userId r' ≠ u.
Proof. unfold find_reaction. by rewrite list_find_Some. Qed.

Lemma reactions_of_nil_iff u rs :
  reactions_of u rs = [] ↔ ∀ r, r ∈ rs → r_userId r ≠ u.
Proof.
  unfold reactions_of. split.
  - intros H r Hr Hu. by apply (filter_nil_not_elem_of (λ r, r_userId r = u) rs r).
  - intros H. induction rs as [|r rs IH]; [done|].
    rewrite filter_cons_False.
    + apply IH. intros r' Hr'. apply H. by right.
    + apply H. by left.
Qed.

Lemma one_reaction_per_user_count rs :
  one_reaction_per_user rs ↔ ∀ u, (length (reactions_of u rs) ≤ 1)%nat.
Proof.
  unfold one_reaction_per_user. induction rs as [|r rs IH]; csimpl.
  - split; [intros _ u; cbn; lia | intros _; constructor].
  - rewrite NoDup_cons, IH. split.
    + intros [Hr Hrs] u. unfold reactions_of. rewrite filter_cons.
      case_decide as Hu; [|apply Hrs]. cbn.
      assert (reactions_of u rs = []) as Hnil; [|unfold reactions_of in Hnil; rewrite Hnil; cbn; lia].
      apply reactions_of_nil_iff. intros r' Hr' Hu'. apply Hr.
      apply list_elem_of_fmap. exists r'. split; [congruence|done].
    + intros H. split.
      * intros (r' & Hr' & Hin)%list_elem_of_fmap.
        specialize (H (r_userId r)). unfold reactions_of in H.
        rewrite filter_cons_True in H by done. cbn in H.
        assert (length (filter (λ r0, r_userId r0 = r_userId r) rs) = 0) as Hl by lia.
        apply length_zero_iff_nil in Hl.
        by apply (filter_nil_not_elem_of (λ r0, r_userId r0 = r_userId r) rs r').
      * intros u. specialize (H u). unfold reactions_of in *.
        rewrite filter_cons in H. case_decide; cbn in H; lia.
Qed.

Lemma applyReaction_push rs u e now :
  find_reaction u rs = None →
  applyReaction rs u e now = rs ++ [mkReaction u e now].
Proof. unfold applyReaction. by intros ->. Qed.

Lemma applyReaction_remove rs u e now i r :
  find_reaction u rs = Some (i, r) → r_emoji r = e →
  applyReaction rs u e now = filter (λ r', r_userId r' ≠ u) rs.
Proof. unfold applyReaction. intros -> He. by rewrite decide_True. Qed.

Lemma applyReaction_replace rs u e now i r :
  find_reaction u rs = Some (i, r) → r_emoji r ≠ e →
  applyReaction rs u e now = <[i := set_emoji r e]> rs.
Proof. unfold applyReaction. intros -> He. by rewrite decide_False. Qed.

Lemma userIds_replace rs i r e :
  rs !! i = Some r → r_userId <$> <[i := set_emoji r e]> rs = r_userId <$> rs.
Proof.
  intros H. rewrite list_fmap_insert. cbn. apply list_insert_id.
  by rewrite list_lookup_fmap, H.
Qed.

Lemma applyReaction_one_per_user rs u e now :
  one_reaction_per_user rs → one_reaction_per_user (applyReaction rs u e now).
Proof.
  unfold one_reaction_per_user, applyReaction. intros Hnd.
  destruct (find_reaction u rs) as [[i r]|] eqn:Hf.
  - apply find_reaction_Some in Hf as (Hi & Hu & _). case_decide.
    + eapply sublist_NoDup; [exact Hnd|]. apply fmap_sublist, sublist_filter.
    + by rewrite userIds_replace.
  - rewrite fmap_app. apply NoDup_app. split_and!; [done| |cbn; apply NoDup_singleton].
    intros x (r & -> & Hr)%list_elem_of_fmap. cbn. rewrite list_elem_of_singleton.
    rewrite find_reaction_None in Hf. by apply Hf.
Qed.

Lemma filter_others_id u rs :
  (∀ r, r ∈ rs → r_userId r ≠ u) → filter (λ r, r_userId r ≠ u) rs = rs.
Proof.
  intros H. induction rs as [|r rs IH]; [done|].
  rewrite filter_cons_True by (apply H; by left).
  f_equal. apply IH. intros r' Hr'. apply H. by right.
Qed.

Lemma find_reaction_removed u rs :
  find_reaction u (filter (λ r, r_userId r ≠ u) rs) = None.
Proof.
  apply find_reaction_None. by intros r [Hr _]%list_elem_of_filter.
Qed.

Lemma find_reaction_pushed u e now rs :
  find_reaction u rs = None →
  find_reaction u (rs ++ [mkReaction u e now])
  = Some (length rs, mkReaction u e now).
Proof.
  intros Hf. apply find_reaction_Some. split_and!.
  - by rewrite lookup_app_r, Nat.sub_diag.
  - done.
  - intros j r' Hj Hlt. rewrite lookup_app_l in Hj by done.
    rewrite find_reaction_None in Hf. apply Hf. by eapply list_elem_of_lookup_2.
Qed.

Lemma find_reaction_replaced u e rs i r :
  find_reaction u rs = Some (i, r) →
  find_reaction u (<[i := set_emoji r e]> rs) = Some (i, set_emoji r e).
Proof.
  intros (Hi & Hu & Hfirst)%find_reaction_Some. apply find_reaction_Some.
  assert (i < length rs) by by eapply lookup_lt_Some.
  split_and!.
  - by apply list_lookup_insert_eq.
  - done.
  - intros j r' Hj Hlt. rewrite list_lookup_insert_ne in Hj by lia. eauto.
Qed.

Lemma reactions_of_single u rs i r :
  one_reaction_per_user rs → find_reaction u rs = Some (i, r) →
  reactions_of u rs = [r].
Proof.
  intros Hone (Hi & Hu & _)%find_reaction_Some.
  rewrite one_reaction_per_user_count in Hone. specialize (Hone u).
  assert (r ∈ reactions_of u rs) as Hin.
  { apply list_elem_of_filter. split; [done|]. by eapply list_elem_of_lookup_2. }
  destruct (reactions_of u rs) as [|r1 [|r2 l]]; cbn in Hone.
  - by apply elem_of_nil in Hin.
  - apply list_elem_of_singleton in Hin. by subst.
  - lia.
Qed.

Lemma reactions_of_others u v rs :
  v ≠ u →
  reactions_of v (filter (λ r, r_userId r ≠ u) rs) = reactions_of v rs.
Proof.
  intros Hne. unfold reactions_of. rewrite list_filter_filter.
  apply list_filter_iff. intros r. split; [tauto|]. intros <-. done.
Qed.

(** Double toggle, user without a reaction: the list is back as it was. *)
Lemma double_toggle_absent rs u e t1 t2 :
  find_reaction u rs = None →
  applyReaction (applyReaction rs u e t1) u e t2 = rs.
Proof.
  intros Hf. rewrite (applyReaction_push _ _ _ _ Hf).
  rewrite (applyReaction_remove _ _ _ _ _ _ (find_reaction_pushed u e t1 rs Hf))
    by done.
  rewrite filter_app, filter_cons_False, filter_nil, app_nil_r by (cbn; tauto).
  apply filter_others_id. by apply find_reaction_None.
Qed.

(** Double toggle, user with the same emoji: removed, then pushed again at
    the end with a new time stamp. *)
Lemma double_toggle_same rs u e t1 t2 i r :
  find_reaction u rs = Some (i, r) → r_emoji r = e →
  applyReaction (applyReaction rs u e t1) u e t2
  = filter (λ r', r_userId r' ≠ u) rs ++ [mkReaction u e t2].
Proof.
  intros Hf He. rewrite (applyReaction_remove _ _ _ _ _ _ Hf He).
  by rewrite (applyReaction_push _ _ _ _ (find_reaction_removed u rs)).
Qed.

(** Double toggle, user with another emoji: replaced, then removed. *)
Lemma double_toggle_other rs u e t1 t2 i r :
  find_reaction u rs = Some (i, r) → r_emoji r ≠ e →
  applyReaction (applyReaction rs u e t1) u e t2
  = filter (λ r', r_userId r' ≠ u) (<[i := set_emoji r e]> rs).
Proof.
  intros Hf He. rewrite (applyReaction_replace _ _ _ _ _ _ Hf He).
  by rewrite (applyReaction_remove _ _ _ _ _ _ (find_reaction_replaced u e rs i r Hf)).
Qed.

Lemma reactions_of_removed u rs :
  reactions_of u (filter (λ r, r_userId r ≠ u) rs) = [].
Proof.
  apply reactions_of_nil_iff. by intros r [Hr _]%list_elem_of_filter.
Qed.
End reducer.

(** ** Running handlers *)

Section running.
Lemma run_bind {A B} (p : Async A) (f : A → Async B) w :
  run (p ≫= f) w =
  match run p w with
  | (inl a, w') => run (f a) w'
  | (inr e, w') => (inr e, w')
  end.
Proof.
  revert w. induction p as [a|e|X op k IH]; intros w; try done.
  cbn. destruct (exec op w) as [x w']. apply IH.
Qed.

Lemma run_try_catch {A} (p : Async A) h w :
  run (try_catch p h) w =
  match run p w with
  | (inl a, w') => (inl a, w')
  | (inr e, w') => run (h e) w'
  end.
Proof.
  revert w. induction p as [a|e|X op k IH]; intros w; try done.
  cbn. destruct (exec op w) as [x w']. apply IH.
Qed.

Lemma run_readDatabase c w : run (readDatabase c) w = (inl (read_db w c), w).
Proof. unfold readDatabase, read_db. cbn. by destruct (readable w c). Qed.

Lemma run_writeDatabase c data w :
  run (writeDatabase c data) w = (inl tt, write_db w c data).
Proof. unfold writeDatabase, write_db. cbn. by destruct (writable w c). Qed.

Lemma run_perform {X} (op : Op X) w : run (perform op) w = (inl (exec op w).1, (exec op w).2).
Proof. unfold perform. cbn. by destruct (exec op w). Qed.


(** One synchronous operation of a handler under [run]. *)
Ltac run_op := rewrite run_bind, run_perform; cbn [exec fst snd].

Lemma run_forEach_emit (members : list string) e w :
  run (forEach members (λ memberId, Server.emit (io_to [Some memberId]) e)) w
  = (inl tt, with_emitted w
       (emitted w ++ ((λ memberId, emission w (io_to [Some memberId]) e) <$> members))).
Proof.
  revert w. induction members as [|u l IH]; intros w.
  - cbn. rewrite app_nil_r. by destruct w.
  - cbn [forEach]. rewrite run_bind. unfold Server.emit at 1.
    rewrite run_perform. cbn [exec fst snd]. rewrite IH. cbn.
    by rewrite <- app_assoc.
Qed.

Lemma read_db_write_other w c c' data :
  c ≠ c' → read_db (write_db w c data) c' = read_db w c'.
Proof.
  intros Hne. unfold read_db, write_db.
  destruct (writable w c); cbn; [|done].
  destruct (readable w c'); [|done]. by destruct c, c'.
Qed.

(** The group branch shared by [send_message] and [message_reaction]. *)
Lemma run_group_fanout groupId e w :
  run (readDatabase Groups ≫= λ groups : list Group,
       match list_find (λ g, Some (g_id g) = groupId) groups with
       | Some (_, group) =>
           forEach (g_members group) (λ memberId,
             Server.emit (io_to [Some memberId]) e)
       | None => Ret tt
       end) w
  = (inl tt, with_emitted w
       (emitted w ++ ((λ memberId, emission w (io_to [Some memberId]) e)
                        <$> group_members w groupId))).
Proof.
  rewrite run_bind, (run_readDatabase Groups). unfold group_members.
  destruct (list_find _ _) as [[i g]|].
  - apply run_forEach_emit.
  - cbn. rewrite app_nil_r. by destruct w.
Qed.

Lemma run_on_send_message s d w :
  let m := new_message w d in
  let w1 := write_db (next_clock (next_clock (next_uuid w))) Messages
              (read_db w Messages ++ [m]) in
  run (Server.on_send_message s (Some d)) w
  = (inl tt, with_emitted w1
       (emitted w ++
        fanout w (sd_groupId d)
          [emission w (io_to [sd_receiverId d]) (receive_message m);
           emission w (socket_emit s) (message_sent m)]
          (receive_message m))).
Proof.
  intros m w1. unfold Server.on_send_message.
  rewrite run_try_catch, run_bind, (run_readDatabase Messages).
  run_op.
  rewrite run_bind. cbn [Server.payload run].
  run_op.
  run_op.
  rewrite run_bind, (run_writeDatabase Messages).
  fold (new_message w d). fold m. fold w1. unfold fanout, unicast.
  destruct (JS.truthy (sd_groupId d)).
  - rewrite run_group_fanout. unfold group_members.
    rewrite (read_db_write_other _ Messages Groups) by done.
    unfold w1, write_db, emission. by destruct (writable _ _).
  - rewrite run_bind. unfold Server.emit. rewrite !run_perform. cbn [exec fst snd].
    unfold emission, w1, write_db.
    destruct (writable _ _); cbn; by rewrite <- app_assoc.
Qed.

(** The handler's lines compute the reducer, at the time the clock shows. *)
Lemma run_toggle_reaction rs u e w :
  run (toggle_reaction rs u e) w
  = (inl (applyReaction rs u e (clock_src w (clock_n w))), after_toggle w rs u).
Proof.
  unfold toggle_reaction, applyReaction, after_toggle.
  destruct (find_reaction u rs) as [[i r]|]; [|done]. by case_decide.
Qed.

Lemma run_on_message_reaction s d w :
  run (Server.on_message_reaction s (Some d)) w
  = (inl tt,
     match list_find (λ m, Some (m_id m) = rd_messageId d) (read_db w Messages) with
     | Some (i, m0) =>
         let m := reacted w d m0 in
         let w1 := write_db (next_clock (after_toggle w (m_reactions m0) (rd_userId d)))
                     Messages (<[i := m]> (read_db w Messages)) in
         with_emitted w1
           (emitted w ++
            fanout w (m_groupId m)
              [emission w (io_to [Some (m_senderId m); m_receiverId m])
                 (message_updated m)]
              (message_updated m))
     | None => w
     end).
Proof.
  unfold Server.on_message_reaction.
  rewrite run_try_catch, run_bind, (run_readDatabase Messages).
  rewrite run_bind. cbn [Server.findIndex_by_id run].
  destruct (list_find _ _) as [[i m0]|]; [|done].
  rewrite run_bind. cbn [Server.payload run].
  rewrite run_bind, run_toggle_reaction.
  run_op.
  rewrite run_bind, (run_writeDatabase Messages).
  fold (reacted w d m0). cbn zeta. unfold fanout, unicast.
  set (m := reacted w d m0). set (w' := after_toggle _ _ _).
  assert (sockets w' = sockets w ∧ emitted w' = emitted w ∧
          read_db (next_clock w') Groups = read_db w Groups) as (Hs & He & Hg).
  { unfold w', after_toggle. by destruct (find_reaction _ _). }
  destruct (JS.truthy (m_groupId m)).
  - rewrite run_group_fanout. unfold group_members.
    rewrite (read_db_write_other _ Messages Groups) by done.
    unfold write_db, emission. destruct (writable _ _); cbn. all: by rewrite Hs, He, Hg.
  - unfold Server.emit. rewrite run_perform. cbn [exec fst snd].
    unfold emission, write_db.
    destruct (writable _ _); cbn; by rewrite Hs, He.
Qed.

(** Without a payload object both handlers end in their [catch]: the
    originating connection alone gets the error event and nothing is
    written.  [message_reaction] does not even throw when there is no
    message to test. *)
Lemma run_on_send_message_no_payload s w :
  run (Server.on_send_message s None) w
  = (inl tt,
     with_emitted (next_uuid w)
       (emitted w ++
        [emission w (socket_emit s) (message_error "Failed to send message")])).
Proof.
  unfold Server.on_send_message.
  rewrite run_try_catch, run_bind, (run_readDatabase Messages).
  run_op.
  rewrite run_bind. cbn [Server.payload run].
  unfold Server.emit. by rewrite run_perform.
Qed.

Lemma run_on_message_reaction_no_payload s w :
  run (Server.on_message_reaction s None) w
  = (inl tt,
     match read_db w Messages with
     | [] => w
     | _ :: _ =>
         with_emitted w
           (emitted w ++
            [emission w (socket_emit s) (reaction_error "Failed to add reaction")])
     end).
Proof.
  unfold Server.on_message_reaction.
  rewrite run_try_catch, run_bind, (run_readDatabase Messages).
  rewrite run_bind. cbn [Server.findIndex_by_id].
  destruct (read_db w Messages) as [|m ms]; [done|]. cbn [run].
  unfold Server.emit. by rewrite run_perform.
Qed.

Lemma run_on_join s u w :
  let w0 := joined w s u in
  run (Server.on_join s u) w
  = (inl tt,
     match list_find (λ x, u_id x = u) (read_db w Users) with
     | Some (i, user) =>
         let w1 := write_db (next_clock w0) Users
                     (<[i := set_presence user true (clock_src w (clock_n w))]>
                        (read_db w Users)) in
         with_emitted w1
           (emitted w ++ [emission w0 (socket_broadcast s) (user_online u)])
     | None => w0
     end).
Proof.
  intros w0. unfold Server.on_join.
  rewrite run_bind, run_perform, run_bind, run_perform, run_bind, run_perform.
  fold (joined w s u). fold w0.
  rewrite run_bind, (run_readDatabase Users).
  change (read_db w0 Users) with (read_db w Users).
  destruct (list_find _ _) as [[i user]|]; [|done].
  run_op.
  rewrite run_bind, (run_writeDatabase Users).
  unfold Server.emit. rewrite run_perform. cbn [exec fst snd].
  unfold write_db, emission. by destruct (writable _ _).
Qed.

Lemma run_on_disconnect s w :
  run (Server.on_disconnect s) w
  = (inl tt,
     match joined_as w s with
     | Some u =>
         let w0 := with_connectedUsers w (delete u (connectedUsers w)) in
         match list_find (λ x, u_id x = u) (read_db w Users) with
         | Some (i, user) =>
             let w1 := write_db (next_clock w0) Users
                         (<[i := set_presence user false (clock_src w (clock_n w))]>
                            (read_db w Users)) in
             with_emitted w1
               (emitted w ++ [emission w (socket_broadcast s) (user_offline u)])
         | None => w0
         end
     | None => w
     end).
Proof.
  unfold Server.on_disconnect, joined_as.
  run_op.
  destruct (sockets w !! s ≫= sock_userId) as [u|]; [|done].
  destruct (JS.truthy (Some u)); [|done]. cbn [JS.prop_key].
  run_op.
  rewrite run_bind, (run_readDatabase Users).
  set (w0 := with_connectedUsers _ _).
  change (read_db w0 Users) with (read_db w Users).
  destruct (list_find _ _) as [[i user]|]; [|done].
  run_op.
  rewrite run_bind, (run_writeDatabase Users).
  unfold Server.emit. rewrite run_perform. cbn [exec fst snd].
  unfold write_db, emission. by destruct (writable _ _).
Qed.

Lemma run_on_typing s d w :
  run (Server.on_typing s d) w
  = (inl tt,
     with_emitted w
       (emitted w ++
        [emission w
           (socket_to s (if JS.truthy (td_groupId d) then td_groupId d
                         else td_receiverId d))
           (user_typing (td_senderId d) (td_isTyping d))])).
Proof. unfold Server.on_typing. by destruct (JS.truthy _). Qed.

Lemma new_emissions_app w w' es :
  emitted w' = emitted w ++ es → new_emissions w w' = es.
Proof. unfold new_emissions. intros ->. by rewrite drop_app_length. Qed.

Lemma new_emissions_same w w' :
  emitted w' = emitted w → new_emissions w w' = [].
Proof. unfold new_emissions. intros ->. by rewrite drop_all. Qed.
End running.

(** ** Stored effect of the handlers *)

Section stored.

Lemma list_find_insert_found {A} (P : A → Prop) `{!∀ x, Decision (P x)}
    (l : list A) i x y :
  list_find P l = Some (i, x) → P y → list_find P (<[i := y]> l) = Some (i, y).
Proof.
  intros (Hi & HP & Hfirst)%list_find_Some Hy. apply list_find_Some.
  assert (i < length l) by by eapply lookup_lt_Some.
  split_and!; [by apply list_lookup_insert_eq|done|].
  intros j z Hj Hlt. rewrite list_lookup_insert_ne in Hj by lia. eauto.
Qed.

Lemma read_db_readable w c :
  readable w c = true → read_db w c = disk_get (disk w) c.
Proof. unfold read_db. by intros ->. Qed.

Lemma deliver_message_reaction socket d w :
  Server.deliver (Server.from_socket socket (Server.message_reaction (Some d))) w
  = (run (Server.on_message_reaction socket (Some d)) w).2.
Proof. done. Qed.

Lemma deliver_send_message socket d w :
  Server.deliver (Server.from_socket socket (Server.send_message (Some d))) w
  = (run (Server.on_send_message socket (Some d)) w).2.
Proof. done. Qed.

(** A resolved [message_reaction] with the file readable and writable
    replaces the message by [reacted]. *)
Lemma reaction_stored socket d w i m0 :
  readable w Messages = true → writable w Messages = true →
  list_find (λ m, Some (m_id m) = rd_messageId d) (messages_json (disk w))
    = Some (i, m0) →
  let w' := Server.deliver (Server.from_socket socket (Server.message_reaction (Some d))) w in
  messages_json (disk w') = <[i := reacted w d m0]> (messages_json (disk w)) ∧
  list_find (λ m, Some (m_id m) = rd_messageId d) (messages_json (disk w'))
    = Some (i, reacted w d m0).
Proof.
  intros Hr Hw Hf w'.
  assert (messages_json (disk w')
          = <[i := reacted w d m0]> (messages_json (disk w))) as Hd.
  { unfold w'. rewrite deliver_message_reaction, run_on_message_reaction.
    rewrite (read_db_readable _ Messages Hr). cbn [disk_get snd]. rewrite Hf.
    cbn zeta. unfold write_db.
    assert (writable (next_clock (after_toggle w (m_reactions m0) (rd_userId d)))
              Messages = true) as ->; [|done].
    unfold after_toggle. by destruct (find_reaction _ _). }
  split; [done|]. rewrite Hd.
  apply (list_find_insert_found _ _ _ _ _ Hf).
  apply list_find_Some in Hf as (_ & Hid & _). exact Hid.
Qed.
End stored.

(** ** C3: the three cases of the toggle *)

Section three_cases.

(** The first entry of a user, given by its place in the list. *)
Lemma find_reaction_first u (pre : list Reaction) r post :
  (∀ r', r' ∈ pre → r_userId r' ≠ u) → r_userId r = u →
  find_reaction u (pre ++ r :: post) = Some (length pre, r).
Proof.
  intros Hpre Hu. apply find_reaction_Some. split_and!.
  - by apply list_lookup_middle.
  - done.
  - intros j r' Hj Hlt. rewrite lookup_app_l in Hj by done.
    apply Hpre. by eapply list_elem_of_lookup_2.
Qed.

Lemma filter_others_all u (pre : list Reaction) :
  (∀ r', r' ∈ pre → r_userId r' ≠ u) →
  filter (λ r', r_userId r' ≠ u) pre = pre.
Proof.
  induction pre as [|x pre IH]; intros Hpre; [done|].
  rewrite filter_cons_True by (apply Hpre; by left).
  rewrite IH; [done|]. intros r' Hr'. apply Hpre. by right.
Qed.
End three_cases.

(** C3.  A [message_reaction] on a stored message (file readable and
    writable) stores the message with its reaction list changed by one of
    three cases.  The user has no entry in the list: a new reaction with
    the emoji is appended.  The first entry of the user in the list has the
    requested emoji: that entry is removed, with any later entry of the
    user, and the user has no reaction left.  The first entry of the user
    has another emoji: that entry alone gets the new emoji, in its place,
    and no entry is appended, the list keeping its length and its users.
    The user's first entry is given by its place in the list, not by the
    handler's lookup. *)
Theorem C3_reaction_three_case_toggle
    (w : World) (socket : string) (d : ReactionData) (i : nat) (m0 : Message) :
  readable w Messages = true → writable w Messages = true →
  list_find (λ m, Some (m_id m) = rd_messageId d) (messages_json (disk w))
    = Some (i, m0) →
  let u := rd_userId d in
  let e := rd_emoji d in
  let rs := m_reactions m0 in
  let w' := Server.deliver (Server.from_socket socket (Server.message_reaction (Some d))) w in
  ∃ m', messages_json (disk w') = <[i := m']> (messages_json (disk w)) ∧
        m_id m' = m_id m0 ∧
    ((∀ r, r ∈ rs → r_userId r ≠ u) →
       m_reactions m' = rs ++ [mkReaction u e (clock_src w (clock_n w))]) ∧
    (∀ pre r post,
       rs = pre ++ r :: post → (∀ r', r' ∈ pre → r_userId r' ≠ u) →
       r_userId r = u → r_emoji r = e →
       m_reactions m' = pre ++ filter (λ r', r_userId r' ≠ u) post ∧
       (∀ r', r' ∈ m_reactions m' → r_userId r' ≠ u)) ∧
    (∀ pre r post,
       rs = pre ++ r :: post → (∀ r', r' ∈ pre → r_userId r' ≠ u) →
       r_userId r = u → r_emoji r ≠ e →
       m_reactions m' = pre ++ mkReaction u e (r_createdAt r) :: post ∧
       length (m_reactions m') = length rs ∧
       r_userId <$> m_reactions m' = r_userId <$> rs).
Proof.
  intros Hr Hw Hf u e rs w'.
  destruct (reaction_stored socket d w i m0 Hr Hw Hf) as [Hd _].
  exists (reacted w d m0). split; [exact Hd|]. split; [done|].
  cbn [reacted set_updatedAt set_reactions m_reactions]. fold u e rs.
  split_and!.
  - intros Hnone. unfold applyReaction.
    assert (list_find (λ r, r_userId r = u) rs = None) as Hnf.
    { apply list_find_None, Forall_forall. exact Hnone. }
    unfold find_reaction. by rewrite Hnf.
  - intros pre r post Hrs Hpre Hu He.
    assert (applyReaction rs u e (clock_src w (clock_n w))
            = pre ++ filter (λ r', r_userId r' ≠ u) post) as ->.
    { rewrite Hrs. unfold applyReaction.
      rewrite (find_reaction_first u pre r post Hpre Hu), decide_True by done.
      rewrite filter_app, filter_cons_False by (intros Hne; by apply Hne).
      by rewrite (filter_others_all u pre Hpre). }
    split; [done|]. intros r' [Hin|Hin]%elem_of_app; [by apply Hpre|].
    by apply list_elem_of_filter in Hin as [? _].
  - intros pre r post Hrs Hpre Hu He.
    assert (applyReaction rs u e (clock_src w (clock_n w))
            = pre ++ mkReaction u e (r_createdAt r) :: post) as ->.
    { rewrite Hrs. unfold applyReaction.
      rewrite (find_reaction_first u pre r post Hpre Hu), decide_False by done.
      rewrite insert_app_r_alt, Nat.sub_diag by done. cbn.
      unfold set_emoji. by rewrite Hu. }
    rewrite Hrs. split_and!; [done|by rewrite !length_app|].
    by rewrite !fmap_app, !fmap_cons, Hu.
Qed.

Lemma C3_reaction_three_case_toggle_witness :
  let w := Ex.online in
  let react d w :=
    Server.deliver (Server.from_socket "s1" (Server.message_reaction (Some d))) w in
  let reactions w := m_reactions <$> messages_json (disk w) in
  let w1 := react Ex.alice_likes w in
  let heart := mkReactionData (Some "M") "alice" "heart" in
  reactions w = [[]] ∧
  reactions w1 = [[mkReaction "alice" "thumbsup" 103]] ∧
  reactions (react Ex.alice_likes w1) = [[]] ∧
  reactions (react heart w1) = [[mkReaction "alice" "heart" 103]].
Proof.
  intros w react reactions w1 heart.
  assert (messages_json (disk w) = [Ex.M]) as Hw by reflexivity.
  destruct (C3_reaction_three_case_toggle w "s1" Ex.alice_likes 0 Ex.M)
    as (m1 & Hd1 & _ & Hpush & _); [reflexivity..|].
  assert (m_reactions m1 = [mkReaction "alice" "thumbsup" 103]) as Hm1.
  { apply Hpush. intros r Hin. by apply elem_of_nil in Hin. }
  assert (messages_json (disk w1) = [m1]) as Hw1.
  { unfold w1, react. rewrite Hd1, Hw. reflexivity. }
  assert (m1 = set_updatedAt
                 (set_reactions Ex.M [mkReaction "alice" "thumbsup" 103]) 104)
    as Hm1eq.
  { assert (messages_json (disk w1)
            = [set_updatedAt
                 (set_reactions Ex.M [mkReaction "alice" "thumbsup" 103]) 104])
      as Hc by (by vm_compute).
    rewrite Hw1 in Hc. by injection Hc. }
  destruct (C3_reaction_three_case_toggle w1 "s1" Ex.alice_likes 0 m1)
    as (m2 & Hd2 & _ & _ & Hremove & _);
    [by vm_compute|by vm_compute|by rewrite Hw1, Hm1eq|].
  destruct (Hremove [] (mkReaction "alice" "thumbsup" 103) [])
    as [Hm2 _];
    [exact Hm1|by intros r' Hin; apply elem_of_nil in Hin|reflexivity..|].
  destruct (C3_reaction_three_case_toggle w1 "s1" heart 0 m1)
    as (m3 & Hd3 & _ & _ & _ & Hreplace);
    [by vm_compute|by vm_compute|by rewrite Hw1, Hm1eq|].
  destruct (Hreplace [] (mkReaction "alice" "thumbsup" 103) [])
    as [Hm3 _];
    [exact Hm1|by intros r' Hin; apply elem_of_nil in Hin|reflexivity
    |discriminate|].
  unfold reactions, react in *. split_and!.
  - by rewrite Hw.
  - by rewrite Hw1, <- Hm1.
  - rewrite Hd2, Hw1. cbn. by rewrite Hm2.
  - rewrite Hd3, Hw1. cbn. by rewrite Hm3.
Defined.

(** ** C9: one reaction per user and message *)

Section invariant.

Lemma op_keeps_mono {X} (op : Op X) (K K' : X → Prop) :
  (∀ x, K x → K' x) → op_keeps op K → op_keeps op K'.
Proof.
  intros HK. destruct op as [[]|[]| | | | | | | | | |]; cbn; try (intros H x; by apply HK).
  - intros H r Hr. by apply HK, H.
  - intros [Hd H]. split; [done|]. intros b. by apply HK.
Qed.

Lemma keeps_mono {A} (p : Async A) (Q Q' : A → Prop) :
  (∀ a, Q a → Q' a) → keeps p Q → keeps p Q'.
Proof.
  intros HQ. induction p as [a|e|X op k IH]; cbn; [by auto|done|].
  apply op_keeps_mono. intros x. apply IH.
Qed.

Lemma keeps_bind {A B} (p : Async A) (f : A → Async B) (Q : B → Prop) :
  keeps p (λ a, keeps (f a) Q) → keeps (p ≫= f) Q.
Proof.
  induction p as [a|e|X op k IH]; cbn; [done..|].
  apply op_keeps_mono. intros x. apply IH.
Qed.

Lemma keeps_try_catch {A} (p : Async A) h (Q : A → Prop) :
  keeps p Q → (∀ e, keeps (h e) Q) → keeps (try_catch p h) Q.
Proof.
  intros Hp Hh. induction p as [a|e|X op k IH]; cbn; [done|by apply Hh|].
  cbn in Hp. revert Hp. apply op_keeps_mono. intros x. apply IH.
Qed.

Lemma keeps_perform {X} (op : Op X) (Q : X → Prop) :
  op_keeps op Q → keeps (perform op) Q.
Proof. done. Qed.

(** One synchronous operation of a handler under [keeps]. *)
Tactic Notation "keeps_op" simple_intropattern(x) :=
  apply keeps_bind, keeps_perform; intros x.

Lemma keeps_readDatabase_Messages :
  keeps (readDatabase Messages) messages_ok.
Proof. cbn. intros [ms|] H; cbn; [done|]. constructor. Qed.

Lemma keeps_readDatabase c (Q : coll_data c → Prop) :
  (∀ data, Q data) → keeps (readDatabase c) Q.
Proof.
  intros HQ. destruct c; cbn.
  - by intros [data|]; cbn.
  - by intros [data|] _; cbn.
  - by intros [data|]; cbn.
Qed.

Lemma keeps_writeDatabase_Messages data :
  messages_ok data → keeps (writeDatabase Messages data) (λ _, True).
Proof. intros Hd. cbn. split; [done|]. by intros []. Qed.

Lemma keeps_writeDatabase_Users data :
  keeps (writeDatabase Users data) (λ _, True).
Proof. cbn. by intros []. Qed.

Lemma keeps_forEach_emit (l : list string) (f : string → Target) e :
  keeps (forEach l (λ x, Server.emit (f x) e)) (λ _, True).
Proof. induction l as [|x l IH]; cbn; [done|]. intros []. apply IH. Qed.

Lemma keeps_toggle_reaction rs u e :
  one_reaction_per_user rs →
  keeps (toggle_reaction rs u e) one_reaction_per_user.
Proof.
  intros Hrs. unfold toggle_reaction.
  destruct (find_reaction u rs) as [[i r]|] eqn:Hf.
  - pose proof (applyReaction_one_per_user rs u e 0%Z Hrs) as H.
    unfold applyReaction in H. rewrite Hf in H. by case_decide.
  - cbn. intros now. pose proof (applyReaction_one_per_user rs u e now Hrs) as H.
    unfold applyReaction in H. by rewrite Hf in H.
Qed.

Lemma keeps_group_fanout groupId (ev : ServerEvent) :
  keeps (readDatabase Groups ≫= λ groups : list Group,
         match list_find (λ g, Some (g_id g) = groupId) groups with
         | Some (_, group) =>
             forEach (g_members group) (λ memberId,
               Server.emit (io_to [Some memberId]) ev)
         | None => Ret tt
         end) (λ _, True).
Proof.
  apply keeps_bind, (keeps_readDatabase Groups). intros groups.
  destruct (list_find _ _) as [[i g]|]; [|done].
  apply (keeps_forEach_emit _ (λ x, io_to [Some x])).
Qed.

Lemma keeps_payload {A} (data : option A) (Q : A → Prop) :
  (∀ d, data = Some d → Q d) → keeps (Server.payload data) Q.
Proof. intros HQ. destruct data; cbn; auto. Qed.

Lemma keeps_on_send_message socket data :
  keeps (Server.on_send_message socket data) (λ _, True).
Proof.
  unfold Server.on_send_message. apply keeps_try_catch; [|done].
  apply keeps_bind.
  eapply keeps_mono; [|apply keeps_readDatabase_Messages].
  intros messages Hok. cbn beta.
  keeps_op id.
  apply keeps_bind, keeps_payload. intros d _.
  keeps_op createdAt.
  keeps_op updatedAt.
  apply keeps_bind.
  eapply keeps_mono; [|apply keeps_writeDatabase_Messages].
  - intros _ _. destruct (JS.truthy _); [apply keeps_group_fanout|done].
  - apply Forall_app. split; [done|]. repeat constructor.
Qed.

Lemma keeps_findIndex_by_id data messages :
  keeps (Server.findIndex_by_id data messages)
    (λ found, ∀ i m, found = Some (i, m) → messages !! i = Some m).
Proof.
  destruct data as [d|]; [|by destruct messages].
  cbn [Server.findIndex_by_id keeps]. intros i m Hf.
  by apply list_find_Some in Hf as (? & _).
Qed.

Lemma keeps_on_message_reaction socket data :
  keeps (Server.on_message_reaction socket data) (λ _, True).
Proof.
  unfold Server.on_message_reaction. apply keeps_try_catch; [|done].
  apply keeps_bind.
  eapply keeps_mono; [|apply keeps_readDatabase_Messages].
  intros messages Hok. cbn beta.
  apply keeps_bind. eapply keeps_mono; [|apply keeps_findIndex_by_id].
  intros [[i m0]|] Hfound; [|done]. specialize (Hfound i m0 eq_refl).
  apply keeps_bind, keeps_payload. intros d _.
  apply keeps_bind.
  eapply keeps_mono; [|apply keeps_toggle_reaction].
  - intros rs Hrs. cbn beta.
    keeps_op updatedAt.
    apply keeps_bind.
    eapply keeps_mono; [|apply keeps_writeDatabase_Messages].
    + intros _ _. destruct (JS.truthy _); [apply keeps_group_fanout|done].
    + by apply Forall_insert.
  - unfold messages_ok in Hok. rewrite Forall_lookup in Hok. by eapply Hok.
Qed.

Lemma keeps_on_join socket userId :
  keeps (Server.on_join socket userId) (λ _, True).
Proof.
  unfold Server.on_join.
  keeps_op _.
  keeps_op _.
  keeps_op _.
  apply keeps_bind, (keeps_readDatabase Users). intros users.
  destruct (list_find _ _) as [[i user]|]; [|done].
  keeps_op lastSeen.
  apply keeps_bind. eapply keeps_mono; [|apply keeps_writeDatabase_Users]. done.
Qed.

Lemma keeps_on_disconnect socket :
  keeps (Server.on_disconnect socket) (λ _, True).
Proof.
  unfold Server.on_disconnect.
  keeps_op userId.
  destruct (JS.truthy _); [|done].
  keeps_op _.
  apply keeps_bind, (keeps_readDatabase Users). intros users.
  destruct (list_find _ _) as [[i user]|]; [|done].
  keeps_op lastSeen.
  apply keeps_bind. eapply keeps_mono; [|apply keeps_writeDatabase_Users]. done.
Qed.

(** Every handler keeps the invariant. *)
Lemma keeps_handler socket ev :
  keeps (Server.handler socket ev) (λ _, True).
Proof.
  destruct ev; cbn [Server.handler].
  - done.
  - apply keeps_on_join.
  - apply keeps_on_send_message.
  - apply keeps_on_message_reaction.
  - unfold Server.on_typing. by destruct (JS.truthy _).
  - done.
  - done.
  - apply keeps_on_disconnect.
Qed.

Lemma exec_keeps {X} (op : Op X) (K : X → Prop) w :
  op_keeps op K → reactions_inv (disk w) →
  K (exec op w).1 ∧ reactions_inv (disk (exec op w).2).
Proof.
  intros Hop Hinv.
  destruct op as [[]|[]| | | | | | | | | |]; cbn in *;
    try (split; [by apply Hop|done]).
  - destruct (readable w Users); split; by try apply Hop.
  - destruct (readable w Messages); (split; [by apply Hop|done]).
  - destruct (readable w Groups); split; by try apply Hop.
  - destruct (writable w Users); split; by try apply Hop.
  - destruct Hop as [Hd HK]. destruct (writable w Messages); split; by try apply HK.
  - destruct (writable w Groups); split; by try apply Hop.
Qed.

Lemma run_keeps {A} (p : Async A) (Q : A → Prop) w :
  keeps p Q → reactions_inv (disk w) → reactions_inv (disk (run p w).2).
Proof.
  revert w. induction p as [a|e|X op k IH]; intros w Hp Hinv; [done..|].
  cbn in *. destruct (exec_keeps op _ w Hp Hinv) as [HK Hinv'].
  destruct (exec op w) as [x w']. by apply IH.
Qed.

Lemma resume_keeps {A} (p : Async A) (Q : A → Prop) w :
  keeps p Q → reactions_inv (disk w) →
  keeps (Server.resume p w).1 Q ∧ reactions_inv (disk (Server.resume p w).2).
Proof.
  revert w. induction p as [a|e|X op k IH]; intros w Hp Hinv; [done..|].
  cbn [Server.resume]. destruct (is_io op); [by split|].
  cbn in Hp. destruct (exec_keeps op _ w Hp Hinv) as [HK Hinv'].
  destruct (exec op w) as [x w']. by apply IH.
Qed.

Lemma step_task_keeps {A} (p : Async A) (Q : A → Prop) w :
  keeps p Q → reactions_inv (disk w) →
  keeps (Server.step_task p w).1 Q ∧
  reactions_inv (disk (Server.step_task p w).2).
Proof.
  intros Hp Hinv. destruct p as [a|e|X op k]; [done..|].
  unfold Server.step_task. destruct (is_io op) eqn:Hio.
  - cbn in Hp. destruct (exec_keeps op _ w Hp Hinv) as [HK Hinv'].
    by destruct (exec op w) as [x w'].
  - by apply resume_keeps.
Qed.

(** Handlers in flight together, in any order of their steps, keep the
    invariant of the store. *)
Lemma interleave_keeps schedule (tasks : list (Async unit)) w :
  Forall (λ p, keeps p (λ _, True)) tasks → reactions_inv (disk w) →
  Forall (λ p, keeps p (λ _, True)) (Server.interleave schedule tasks w).1 ∧
  reactions_inv (disk (Server.interleave schedule tasks w).2).
Proof.
  revert tasks w. induction schedule as [|i schedule IH]; intros tasks w Ht Hinv.
  - done.
  - cbn [Server.interleave]. destruct (tasks !! i) as [p|] eqn:Hi; [|by apply IH].
    assert (keeps p (λ _, True)) as Hp.
    { rewrite Forall_lookup in Ht. by apply (Ht i). }
    destruct (step_task_keeps p _ w Hp Hinv) as [Hp' Hinv'].
    destruct (Server.step_task p w) as [p' w']. apply IH; [|done].
    by apply Forall_insert.
Qed.

Lemma deliver_keeps i w :
  reactions_inv (disk w) → reactions_inv (disk (Server.deliver i w)).
Proof.
  intros Hinv. destruct i as [socket ev|rd wr]; [|done].
  cbn [Server.deliver]. eapply run_keeps; [apply keeps_handler|].
  by destruct ev.
Qed.
End invariant.

(** The store the server creates at start (three empty files) satisfies
    the invariant, and a new message has no reactions. *)
Lemma reactions_inv_initial : reactions_inv (mkDisk [] [] []).
Proof. constructor. Qed.

Lemma new_message_no_reactions w d : m_reactions (new_message w d) = [].
Proof. done. Qed.

(** C9.  Every message of the store has at most one reaction per user, and
    every input of the server keeps it so: [send_message] adds a message
    with an empty reaction list, [message_reaction] replaces the message
    by one whose list the reducer made, in which the user's entry was
    pushed only when there was none, removed, or changed in place; the
    other handlers do not write messages. *)
Theorem C9_one_reaction_per_user_preserved (inputs : list Server.Input) (w : World) :
  reactions_inv (disk w) → reactions_inv (disk (Server.deliver_all inputs w)).
Proof.
  revert w. induction inputs as [|i inputs IH]; intros w Hinv; [done|].
  cbn. apply IH. by apply deliver_keeps.
Qed.


Lemma C9_one_reaction_per_user_preserved_witness :
  let inputs :=
    [Server.from_socket "s1" (Server.message_reaction (Some Ex.alice_likes));
     Server.from_socket "s2" (Server.message_reaction (Some Ex.bob_likes));
     Server.from_socket "s1" (Server.send_message (Some Ex.hi_group));
     Server.from_socket "s3"
       (Server.message_reaction
          (Some (mkReactionData (Some "M") "alice" "heart")))] in
  reactions_inv (disk Ex.online) ∧
  reactions_inv (disk (Server.deliver_all inputs Ex.online)).
Proof.
  intros inputs.
  assert (reactions_inv (disk Ex.online)) as Hinv.
  { unfold reactions_inv. change (messages_json (disk Ex.online)) with [Ex.M].
    repeat constructor. }
  split; [exact Hinv|].
  exact (C9_one_reaction_per_user_preserved inputs Ex.online Hinv).
Defined.

(** ** C10: toggling twice *)

Section double_toggle.

Lemma emojis_of_single rs u e :
  one_reaction_per_user rs → emojis_of u rs = [e] →
  ∃ i r, find_reaction u rs = Some (i, r) ∧ r_emoji r = e.
Proof.
  intros Hone He. destruct (find_reaction u rs) as [[i r]|] eqn:Hf.
  - exists i, r. split; [done|]. unfold emojis_of in He.
    rewrite (reactions_of_single u rs i r Hone Hf) in He. by injection He.
  - rewrite find_reaction_None, <- reactions_of_nil_iff in Hf.
    unfold emojis_of in He. by rewrite Hf in He.
Qed.
End double_toggle.

(** C10 as stated fails: alice has a heart on the message and toggles
    thumbs-up twice; the first toggle replaces the heart, the second
    removes the thumbs-up, and alice is left without a reaction. *)
Lemma C10_double_toggle_counterexample :
  ¬ Claimed.double_toggle_restores (m_reactions Ex.M_heart) "alice" "thumbsup".
Proof. intros H. specialize (H 30%Z 40%Z). vm_compute in H. discriminate. Qed.

(** C10, amended.  With at most one reaction per user: when the user has
    no reaction, toggling twice gives back the very same list; when the
    user's reaction already has the emoji, toggling twice leaves the user
    with that emoji (the entry is removed and pushed again, at the end and
    with a new time stamp) and changes no entry of another user; when the
    user's reaction has another emoji, toggling twice leaves the user
    without a reaction. *)
Theorem C10_double_toggle_by_case
    (rs : list Reaction) (u e : string) (t1 t2 : Z) :
  one_reaction_per_user rs →
  let rs2 := applyReaction (applyReaction rs u e t1) u e t2 in
  (reactions_of u rs = [] → rs2 = rs) ∧
  (emojis_of u rs = [e] →
     emojis_of u rs2 = [e] ∧
     ∀ v, v ≠ u → reactions_of v rs2 = reactions_of v rs) ∧
  (∀ e', emojis_of u rs = [e'] → e' ≠ e → emojis_of u rs2 = []).
Proof.
  intros Hone rs2. split_and!.
  - intros Hnil. apply double_toggle_absent. apply find_reaction_None.
    by apply reactions_of_nil_iff.
  - intros (i & r & Hf & He)%emojis_of_single; [|done].
    unfold rs2. rewrite (double_toggle_same _ _ _ _ _ _ _ Hf He). split.
    + unfold emojis_of, reactions_of. rewrite filter_app.
      fold (reactions_of u (filter (λ r', r_userId r' ≠ u) rs)).
      rewrite reactions_of_removed. by rewrite filter_cons_True.
    + intros v Hv. unfold reactions_of. rewrite filter_app.
      rewrite (filter_cons_False _ (mkReaction u e t2)) by (cbn; congruence).
      rewrite filter_nil, app_nil_r. by apply reactions_of_others.
  - intros e' (i & r & Hf & He)%emojis_of_single Hne; [|done].
    unfold rs2. rewrite (double_toggle_other _ _ _ _ _ _ _ Hf) by congruence.
    unfold emojis_of. by rewrite reactions_of_removed.
Qed.

Lemma C10_double_toggle_by_case_witness :
  let rs := [mkReaction "bob" "heart" 5; mkReaction "alice" "thumbsup" 20] in
  one_reaction_per_user rs ∧
  emojis_of "alice"
    (applyReaction (applyReaction rs "alice" "thumbsup" 30) "alice" "thumbsup" 40)
  = ["thumbsup"].
Proof.
  intros rs.
  assert (one_reaction_per_user rs) as Hone.
  { exact (bool_decide_unpack (NoDup (r_userId <$> rs)) I). }
  split; [exact Hone|].
  destruct (C10_double_toggle_by_case rs "alice" "thumbsup" 30 40 Hone)
    as (_ & Hsame & _).
  by apply Hsame.
Defined.

(** ** Emits and who they reach *)

Section emits.

Lemma elem_of_recipients ss t sid :
  sid ∈ recipients ss t ↔ ∃ s, ss !! sid = Some s ∧ reaches t sid s = true.
Proof.
  unfold recipients. rewrite elem_of_dom. unfold is_Some.
  setoid_rewrite map_lookup_filter_Some. naive_solver.
Qed.

Lemma recipients_socket_emit ss sid : recipients ss (socket_emit sid) ⊆ {[sid]}.
Proof.
  intros x (s & _ & Hr)%elem_of_recipients. unfold reaches in Hr.
  apply andb_true_iff in Hr as [_ Hr]. apply bool_decide_eq_true in Hr.
  by apply elem_of_singleton.
Qed.

Lemma recipients_undefined_room ss : recipients ss (io_to [None]) = ∅.
Proof.
  apply set_eq. intros x. split; [|set_solver].
  intros (s & _ & Hr)%elem_of_recipients. unfold reaches in Hr. cbn in Hr.
  by rewrite andb_false_r in Hr.
Qed.

Lemma reaches_room s sid u :
  reaches (io_to [Some u]) sid s = true ↔
  sock_connected s = true ∧ u ∈ sock_rooms s.
Proof.
  unfold reaches. cbn. rewrite orb_false_r, andb_true_iff.
  by rewrite bool_decide_eq_true.
Qed.

Lemma filter_eq_NoDup (l : list string) u :
  NoDup l → filter (λ v, v = u) l = if decide (u ∈ l) then [u] else [].
Proof.
  induction 1 as [|x l Hx Hnd IH].
  - rewrite decide_False; [done|]. apply not_elem_of_nil.
  - rewrite filter_cons. destruct (decide (x = u)) as [->|Hne].
    + rewrite IH, (decide_False (P := u ∈ l)) by done.
      rewrite decide_True; [done|]. by left.
    + rewrite IH. destruct (decide (u ∈ l)).
      * rewrite decide_True; [done|]. by right.
      * rewrite decide_False; [done|]. rewrite elem_of_cons. by intros [->|].
Qed.

Lemma length_filter_fmap {A B} (f : A → B) (P : B → Prop)
    `{!∀ y, Decision (P y)} (l : list A) :
  length (filter P (f <$> l)) = length (filter (λ x, P (f x)) l).
Proof.
  induction l as [|x l IH]; [done|]. csimpl. rewrite !filter_cons.
  destruct (decide (P (f x))); cbn; by rewrite IH.
Qed.

Lemma length_filter_ext {A} (P Q : A → Prop) `{!∀ x, Decision (P x)}
    `{!∀ x, Decision (Q x)} (l : list A) :
  (∀ x, x ∈ l → P x ↔ Q x) → length (filter P l) = length (filter Q l).
Proof.
  intros Hiff. induction l as [|x l IH]; [done|]. rewrite !filter_cons.
  assert (P x ↔ Q x) as Hx by (apply Hiff; by left).
  assert (length (filter P l) = length (filter Q l)) as IH'.
  { apply IH. intros y Hy. apply Hiff. by right. }
  destruct (decide (P x)), (decide (Q x)); cbn; try tauto; by rewrite IH'.
Qed.

Lemma emits_to_room_unicast w e members u :
  NoDup members →
  emits_to_room u (unicast w e members) = if decide (u ∈ members) then 1 else 0.
Proof.
  intros Hnd. unfold emits_to_room, unicast. rewrite length_filter_fmap. cbn.
  rewrite (length_filter_ext _ (λ v, v = u)).
  - rewrite (filter_eq_NoDup _ _ Hnd). by destruct (decide (u ∈ members)).
  - intros v _. split; [by intros [=]|by intros ->].
Qed.

Lemma deliveries_at_unicast w e members sid s :
  sockets w !! sid = Some s → sock_connected s = true →
  deliveries_at sid (unicast w e members)
  = length (filter (λ u, u ∈ sock_rooms s) members).
Proof.
  intros Hs Hc. unfold deliveries_at, unicast. rewrite length_filter_fmap. cbn.
  apply length_filter_ext. intros u _. rewrite elem_of_recipients. split.
  - intros (s' & Hs' & Hr). rewrite Hs in Hs'. injection Hs' as <-.
    by apply reaches_room in Hr as [_ ?].
  - intros Hu. exists s. split; [done|]. by apply reaches_room.
Qed.
End emits.

(** ** What [send_message] stores and emits *)

Section send.

Lemma send_emissions socket d w :
  let w' := Server.deliver (Server.from_socket socket (Server.send_message (Some d))) w in
  let m := new_message w d in
  new_emissions w w'
  = fanout w (sd_groupId d)
      [emission w (io_to [sd_receiverId d]) (receive_message m);
       emission w (socket_emit socket) (message_sent m)]
      (receive_message m).
Proof.
  intros w' m. apply new_emissions_app. unfold w'.
  by rewrite deliver_send_message, run_on_send_message.
Qed.

Lemma send_disk socket d w :
  let w' := Server.deliver (Server.from_socket socket (Server.send_message (Some d))) w in
  disk w'
  = if writable w Messages
    then disk_set (disk w) Messages (read_db w Messages ++ [new_message w d])
    else disk w.
Proof.
  intros w'. unfold w'. rewrite deliver_send_message, run_on_send_message.
  cbn [snd]. unfold write_db. cbn. by destruct (writable w Messages).
Qed.

Lemma reaction_emissions socket d w i m0 :
  list_find (λ m, Some (m_id m) = rd_messageId d) (read_db w Messages)
    = Some (i, m0) →
  let w' := Server.deliver (Server.from_socket socket (Server.message_reaction (Some d))) w in
  let m := reacted w d m0 in
  new_emissions w w'
  = fanout w (m_groupId m)
      [emission w (io_to [Some (m_senderId m); m_receiverId m])
         (message_updated m)]
      (message_updated m).
Proof.
  intros Hf w' m. apply new_emissions_app. unfold w'.
  by rewrite deliver_message_reaction, run_on_message_reaction, Hf.
Qed.

Lemma reaction_unresolved socket d w :
  list_find (λ m, Some (m_id m) = rd_messageId d) (read_db w Messages) = None →
  Server.deliver (Server.from_socket socket (Server.message_reaction (Some d))) w = w.
Proof.
  intros Hf. by rewrite deliver_message_reaction, run_on_message_reaction, Hf.
Qed.

(** A failed write of [messages.json] changes nothing in what
    [send_message] emits: the emits are those of a successful write and
    none of them is an error event. *)
Lemma send_failed_write socket d w :
  writable w Messages = false →
  let w' := Server.deliver (Server.from_socket socket (Server.send_message (Some d))) w in
  disk w' = disk w ∧
  Forall (λ e, is_error_event (em_event e) = false) (new_emissions w w').
Proof.
  intros Hw w'. split.
  - unfold w'. by rewrite send_disk, Hw.
  - unfold w'. rewrite send_emissions. unfold fanout, unicast.
    destruct (JS.truthy _); [|by repeat constructor].
    apply Forall_fmap, Forall_forall. by intros.
Qed.
End send.

(** C1, evaluated where the code departs from it.  [messages.json] cannot
    be written; alice sends "hi" to bob from [s1].  Nothing is stored and
    the failure is logged on the server, yet bob's connection [s2] gets
    [receive_message], [s1] gets [message_sent], and no [message_error] is
    emitted. *)
Theorem C1_failed_write_is_fanned_out :
  let w := Ex.read_only in
  let w' := Server.deliver (Server.from_socket "s1" (Server.send_message (Some Ex.hi_bob))) w in
  let m := new_message w Ex.hi_bob in
  writable w Messages = false ∧
  disk w' = disk w ∧
  console w' = console w ++ ["Error writing to messages.json:"] ∧
  new_emissions w w'
  = [mkEmission (io_to [Some "bob"]) (receive_message m) {["s2"]};
     mkEmission (socket_emit "s1") (message_sent m) {["s1"]}].
Proof. vm_compute. done. Qed.

(** The same for a reaction: the change that was not stored is sent to
    both ends of the conversation and no [reaction_error] is emitted. *)
Lemma failed_reaction_write_is_fanned_out :
  let w := Ex.read_only in
  let w' := Server.deliver
              (Server.from_socket "s2" (Server.message_reaction (Some Ex.bob_likes))) w in
  let m := reacted w Ex.bob_likes Ex.M in
  m_reactions m = [mkReaction "bob" "thumbsup" 103] ∧
  disk w' = disk w ∧
  new_emissions w w'
  = [mkEmission (io_to [Some "alice"; Some "bob"]) (message_updated m)
       {["s1"; "s2"; "s3"]}].
Proof. vm_compute. done. Qed.

(** ** C4: group fan-out *)

(** C4.  A [send_message] to a group that resolves, with the members read
    after the write, makes exactly one emit per member, to the member's
    own room, carrying [receive_message] with the new message, and nothing
    else: each member is addressed once (the sender, if a member, like the
    others), no room of a non-member is addressed, and an open connection
    receives one event for each member whose room it joined, so exactly one
    when it joined the room of one member only.  Whether other members have
    connections plays no part. *)
Theorem C4_group_fanout_once_per_member
    (w : World) (socket : string) (d : SendData) (i : nat) (g : Group) :
  JS.truthy (sd_groupId d) = true →
  list_find (λ g, Some (g_id g) = sd_groupId d) (read_db w Groups) = Some (i, g) →
  NoDup (g_members g) →
  let w' := Server.deliver (Server.from_socket socket (Server.send_message (Some d))) w in
  let es := new_emissions w w' in
  length es = length (g_members g) ∧
  Forall (λ e, em_event e = receive_message (new_message w d) ∧
               ∃ u, u ∈ g_members g ∧ em_target e = io_to [Some u]) es ∧
  (∀ u, u ∈ g_members g → emits_to_room u es = 1) ∧
  (∀ sid s, sockets w !! sid = Some s → sock_connected s = true →
     deliveries_at sid es
     = length (filter (λ u, u ∈ sock_rooms s) (g_members g))) ∧
  (∀ sid s u, sockets w !! sid = Some s → sock_connected s = true →
     u ∈ g_members g →
     (∀ v, v ∈ g_members g → v ∈ sock_rooms s ↔ v = u) →
     deliveries_at sid es = 1).
Proof.
  intros Ht Hf Hnd w' es.
  assert (es = unicast w (receive_message (new_message w d)) (g_members g)) as ->.
  { unfold es, w'. rewrite send_emissions. unfold fanout, group_members.
    by rewrite Ht, Hf. }
  split_and!.
  - unfold unicast. by rewrite length_fmap.
  - unfold unicast. apply Forall_fmap, Forall_forall. intros u Hu. cbn. eauto.
  - intros u Hu. rewrite emits_to_room_unicast by done. by rewrite decide_True.
  - intros sid s Hs Hc. by apply deliveries_at_unicast.
  - intros sid s u Hs Hc Hu Hone.
    rewrite (deliveries_at_unicast _ _ _ _ _ Hs Hc).
    rewrite (length_filter_ext _ (λ v, v = u)) by done.
    rewrite (filter_eq_NoDup _ _ Hnd). by rewrite decide_True.
Qed.

Lemma C4_group_fanout_once_per_member_witness :
  let w := Ex.online in
  let d := Ex.hi_group in
  let es := new_emissions w
              (Server.deliver (Server.from_socket "s1" (Server.send_message (Some d))) w) in
  JS.truthy (sd_groupId d) = true ∧
  list_find (λ g, Some (g_id g) = sd_groupId d) (read_db w Groups) = Some (0, Ex.G) ∧
  NoDup (g_members Ex.G) ∧
  length es = 3 ∧
  emits_to_room "alice" es = 1 ∧ emits_to_room "bob" es = 1 ∧
  emits_to_room "carol" es = 1.
Proof.
  intros w d es.
  assert (NoDup (g_members Ex.G)) as Hnd.
  { exact (bool_decide_unpack (NoDup (g_members Ex.G)) I). }
  destruct (C4_group_fanout_once_per_member w "s1" d 0 Ex.G)
    as (Hlen & _ & Hone & _); [reflexivity|reflexivity|exact Hnd|].
  split_and!; [reflexivity|reflexivity|exact Hnd|exact Hlen|..];
    apply Hone; cbn; rewrite !elem_of_cons; auto.
Defined.

(** ** C6: requests without a target *)

(** The one request the handlers do reject: without a payload object
    [send_message] throws on [data.senderId], its [catch] answers the
    originating connection with [message_error], and nothing is stored. *)
Lemma send_without_payload_rejected socket w :
  Claimed.rejected socket (Server.send_message None) w.
Proof.
  unfold Claimed.rejected. cbn [Server.deliver Server.handler Server.before].
  rewrite run_on_send_message_no_payload. cbn [snd]. split; [done|].
  exists (message_error "Failed to send message"). split; [done|].
  by apply new_emissions_app.
Qed.

Lemma reaction_without_payload_rejected socket w m ms :
  read_db w Messages = m :: ms →
  Claimed.rejected socket (Server.message_reaction None) w.
Proof.
  intros Hm. unfold Claimed.rejected.
  cbn [Server.deliver Server.handler Server.before].
  rewrite run_on_message_reaction_no_payload, Hm. cbn [snd]. split; [done|].
  exists (reaction_error "Failed to add reaction"). split; [done|].
  by apply new_emissions_app.
Qed.

(** C6 as stated fails.  Alice sends a message that names neither a
    receiver nor a group, and one to a group that does not exist; bob
    reacts to a message that does not exist.  None of the three is
    rejected with an error: the two messages are stored, and no error
    event is emitted for any of them. *)
Lemma C6_unresolved_counterexample :
  Claimed.unresolved (Server.send_message (Some Ex.hi_nobody)) Ex.online ∧
  ¬ Claimed.rejected "s1" (Server.send_message (Some Ex.hi_nobody)) Ex.online ∧
  Claimed.unresolved (Server.send_message (Some Ex.hi_lost_group)) Ex.online ∧
  ¬ Claimed.rejected "s1" (Server.send_message (Some Ex.hi_lost_group)) Ex.online ∧
  Claimed.unresolved (Server.message_reaction (Some Ex.likes_unknown)) Ex.online ∧
  ¬ Claimed.rejected "s2" (Server.message_reaction (Some Ex.likes_unknown)) Ex.online.
Proof.
  split_and!.
  - reflexivity.
  - intros [Hd _]. vm_compute in Hd. discriminate.
  - reflexivity.
  - intros [Hd _]. vm_compute in Hd. discriminate.
  - reflexivity.
  - intros [_ (e & _ & He)]. vm_compute in He. discriminate.
Qed.

(** C6, amended.  For a request that names no target, or a group or a
    message that is not there, no error event is emitted and no connection
    other than the originating one receives anything.  A [message_reaction]
    of this kind leaves the server as it was.  A [send_message] of this
    kind is stored like any other (when the file can be written); with a
    group that is not there nothing is emitted, with no target at all
    [receive_message] is addressed to no room and the originating
    connection gets [message_sent]. *)
Theorem C6_unresolved_requests_pass_silently
    (w : World) (socket : string) (ev : Server.ClientEvent) :
  Claimed.unresolved ev w →
  let w' := Server.deliver (Server.from_socket socket ev) w in
  let es := new_emissions w w' in
  Forall (λ e, is_error_event (em_event e) = false ∧
               em_recipients e ⊆ {[socket]}) es ∧
  match ev with
  | Server.message_reaction (Some d) => w' = w
  | Server.send_message (Some d) =>
      let m := new_message w d in
      disk w'
      = (if writable w Messages
         then disk_set (disk w) Messages (read_db w Messages ++ [m])
         else disk w) ∧
      es = (if JS.truthy (sd_groupId d) then []
            else [mkEmission (io_to [None]) (receive_message m) ∅;
                  emission w (socket_emit socket) (message_sent m)])
  | _ => True
  end.
Proof.
  intros Hu w' es. destruct ev as [|?|[d|]|[d|]| | | |]; try done.
  - (* send_message *)
    assert (es = (if JS.truthy (sd_groupId d) then []
                  else [mkEmission (io_to [None]) (receive_message (new_message w d)) ∅;
                        emission w (socket_emit socket)
                          (message_sent (new_message w d))])) as Hes.
    { unfold es, w'. rewrite send_emissions. unfold fanout, group_members.
      cbn in Hu. destruct (JS.truthy (sd_groupId d)).
      - by rewrite Hu.
      - rewrite Hu. unfold emission at 1. by rewrite recipients_undefined_room. }
    split; [|split; [apply send_disk|exact Hes]].
    rewrite Hes. destruct (JS.truthy _); [constructor|].
    repeat constructor; cbn; [set_solver|apply recipients_socket_emit].
  - (* message_reaction *)
    cbn in Hu. unfold es, w'. rewrite (reaction_unresolved _ _ _ Hu).
    split; [|done]. rewrite new_emissions_same by done. constructor.
Qed.

Lemma C6_unresolved_requests_pass_silently_witness :
  let w := Ex.online in
  let ev := Server.send_message (Some Ex.hi_lost_group) in
  let w' := Server.deliver (Server.from_socket "s1" ev) w in
  Claimed.unresolved ev w ∧
  new_emissions w w' = [] ∧
  messages_json (disk w') = [Ex.M; new_message w Ex.hi_lost_group].
Proof.
  intros w ev w'.
  destruct (C6_unresolved_requests_pass_silently w "s1" ev) as (_ & Hd & Hes);
    [reflexivity|].
  split_and!; [reflexivity|exact Hes|]. fold w' in Hd. by rewrite Hd.
Defined.

(** ** C5: presence *)

Section presence.

Lemma list_find_insert_other {A} (P : A → Prop) `{!∀ x, Decision (P x)}
    (l : list A) j x y :
  l !! j = Some y → ¬ P y → ¬ P x → list_find P (<[j := x]> l) = list_find P l.
Proof.
  revert j. induction l as [|z l IH]; intros j Hj Hy Hx; [done|].
  destruct j as [|j].
  - injection Hj as ->. cbn. by rewrite !decide_False.
  - change (<[S j := x]> (z :: l)) with (z :: <[j := x]> l).
    cbn [list_find]. by rewrite (IH j Hj Hy Hx).
Qed.

Lemma users_write_db_Messages w data :
  users_json (disk (write_db w Messages data)) = users_json (disk w).
Proof. unfold write_db. by destruct (writable w Messages). Qed.

Lemma users_after_toggle w rs u :
  users_json (disk (next_clock (after_toggle w rs u))) = users_json (disk w).
Proof. unfold after_toggle. by destruct (find_reaction u rs). Qed.

(** The users file after an input: unchanged, or with the presence of one
    stored user set, to [true] only by a [join] of that user. *)
Lemma deliver_users i w :
  users_json (disk (Server.deliver i w)) = users_json (disk w)
  ∨ ∃ j x b t,
      list_find (λ v, u_id v = u_id x) (users_json (disk w)) = Some (j, x) ∧
      users_json (disk (Server.deliver i w))
      = <[j := set_presence x b t]> (users_json (disk w)) ∧
      (b = true → ∃ sid, i = Server.from_socket sid (Server.join (u_id x))).
Proof.
  destruct i as [socket ev|rd wr]; [|by left].
  destruct ev as [|u|d|d|d|g|g|]; cbn [Server.deliver Server.handler Server.before].
  - by left.
  - rewrite run_on_join. cbn [snd]. unfold read_db.
    destruct (readable w Users) eqn:Hr; [|by left]. cbn [disk_get].
    destruct (list_find _ _) as [[j x]|] eqn:Hf; [|by left].
    cbn zeta. unfold write_db.
    change (writable (next_clock (joined w socket u)) Users) with (writable w Users).
    destruct (writable w Users); [|by left]. right.
    assert (u_id x = u) as Hx by by apply list_find_Some in Hf as (_ & ? & _).
    exists j, x, true, (clock_src w (clock_n w)). rewrite Hx.
    split_and!; [done|done|]. intros _. by exists socket.
  - left. destruct d as [d|]; [|by rewrite run_on_send_message_no_payload].
    rewrite run_on_send_message. cbn [snd]. cbn [with_emitted disk].
    by rewrite users_write_db_Messages.
  - left. destruct d as [d|].
    + rewrite run_on_message_reaction. cbn [snd].
      destruct (list_find _ _) as [[j m0]|]; [|done]. cbn zeta.
      cbn [with_emitted disk].
      by rewrite users_write_db_Messages, users_after_toggle.
    + rewrite run_on_message_reaction_no_payload. cbn [snd].
      by destruct (read_db w Messages).
  - left. by rewrite run_on_typing.
  - by left.
  - by left.
  - rewrite run_on_disconnect. cbn [snd].
    set (w0 := with_sockets _ _).
    destruct (joined_as w0 socket) as [u|]; [|by left]. cbn zeta. unfold read_db.
    change (readable w0 Users) with (readable w Users).
    destruct (readable w Users) eqn:Hr; [|by left]. cbn [disk_get].
    change (users_json (disk w0)) with (users_json (disk w)).
    destruct (list_find _ _) as [[j x]|] eqn:Hf; [|by left].
    unfold write_db. cbn [next_clock writable with_connectedUsers].
    change (writable w0 Users) with (writable w Users).
    destruct (writable w Users); [|by left]. right.
    assert (u_id x = u) as Hx by by apply list_find_Some in Hf as (_ & ? & _).
    exists j, x, false, (clock_src w (clock_n w)). rewrite Hx.
    split_and!; [done|done|]. done.
Qed.

(** A stored flag that is [false] stays so under every input that is not a
    [join] of the user. *)
Lemma isOnline_false_stable i w u :
  (∀ sid, i ≠ Server.from_socket sid (Server.join u)) →
  isOnline u (disk w) = Some false →
  isOnline u (disk (Server.deliver i w)) = Some false.
Proof.
  intros Hi Hoff. unfold isOnline in *.
  destruct (deliver_users i w) as [->|(j & x & b & t & Hf & -> & Hb)]; [done|].
  destruct (decide (u_id x = u)) as [<-|Hne].
  - rewrite (list_find_insert_found _ _ _ _ (set_presence x b t) Hf) by done.
    cbn. destruct b; [|done]. destruct Hb as [sid ->]; [done|].
    by destruct (Hi sid).
  - rewrite (list_find_insert_other _ _ j _ x); [done| |done|done].
    by apply list_find_Some in Hf as (? & _).
Qed.

Lemma isOnline_false_stable_all inputs w u :
  (∀ sid, Server.from_socket sid (Server.join u) ∉ inputs) →
  isOnline u (disk w) = Some false →
  isOnline u (disk (Server.deliver_all inputs w)) = Some false.
Proof.
  revert w. induction inputs as [|i inputs IH]; intros w Hno Hoff; [done|].
  cbn. apply IH.
  - intros sid Hin. apply (Hno sid). by right.
  - apply isOnline_false_stable; [|done]. intros sid ->. apply (Hno sid). by left.
Qed.

Lemma recipients_broadcast ss socket sid :
  sid ∈ recipients ss (socket_broadcast socket) ↔
  sid ≠ socket ∧ ∃ s, ss !! sid = Some s ∧ sock_connected s = true.
Proof.
  rewrite elem_of_recipients. unfold reaches. split.
  - intros (s & Hs & [Hc Hne]%andb_true_iff).
    apply negb_true_iff, bool_decide_eq_false in Hne. eauto.
  - intros (Hne & s & Hs & Hc). exists s. split; [done|].
    rewrite Hc. cbn. by apply negb_true_iff, bool_decide_eq_false.
Qed.
End presence.

(** ** The REST routes run *)

Section routes.
Import RestApi.

Lemma run_post_groups me b w :
  run (post_groups me b) w
  = match gb_members b with
    | Some members =>
        if JS.truthy (gb_name b) then
          let g := new_group w me (JS.prop_key (gb_name b)) members in
          (inl (mkResponse 200 (group g)),
           write_db (next_clock (next_clock (next_uuid w))) Groups
             (read_db w Groups ++ [g]))
        else
          (inl (mkResponse 400 (error "Group name and members are required")), w)
    | None =>
        (inl (mkResponse 400 (error "Group name and members are required")), w)
    end.
Proof.
  unfold post_groups. rewrite run_try_catch.
  destruct (gb_members b) as [members|]; [|done].
  destruct (JS.truthy (gb_name b)); [|done].
  rewrite run_bind, (run_readDatabase Groups).
  do 3 (rewrite run_bind, run_perform; cbn [exec fst snd]).
  rewrite run_bind, (run_writeDatabase Groups). done.
Qed.

Lemma run_delete_groups_id me id w :
  run (delete_groups_id me id) w
  = match list_find (λ g, g_id g = id) (read_db w Groups) with
    | None => (inl (mkResponse 404 (error "Group not found")), w)
    | Some (groupIndex, g) =>
        if decide (g_createdBy g ≠ me) then
          (inl (mkResponse 403 (error "Only group creator can delete the group")), w)
        else
          (inl (mkResponse 200 (message "Group deleted successfully")),
           write_db w Groups (delete groupIndex (read_db w Groups)))
    end.
Proof.
  unfold delete_groups_id. rewrite run_try_catch.
  rewrite run_bind, (run_readDatabase Groups).
  destruct (list_find _ _) as [[i g]|]; [|done].
  case_decide; [done|].
  rewrite run_bind, (run_writeDatabase Groups). done.
Qed.

Lemma run_get_groups me w :
  run (get_groups me) w
  = (inl (mkResponse 200
            (groups (filter (λ g, me ∈ g_members g ∨ g_createdBy g = me)
                       (read_db w Groups)))), w).
Proof.
  unfold get_groups. by rewrite run_try_catch, run_bind, (run_readDatabase Groups).
Qed.

Lemma run_get_groups_messages groupId w :
  run (get_groups_messages groupId) w
  = (inl (mkResponse 200
            (messages (Rest.sort_by_createdAt
                         (filter (λ m, m_groupId m = Some groupId)
                            (read_db w Messages))))), w).
Proof.
  unfold get_groups_messages.
  by rewrite run_try_catch, run_bind, (run_readDatabase Messages).
Qed.

Lemma run_get_messages me userId w :
  run (get_messages me userId) w
  = (inl (mkResponse 200
            (messages (Rest.get_messages me userId (read_db w Messages)))), w).
Proof.
  unfold get_messages.
  by rewrite run_try_catch, run_bind, (run_readDatabase Messages).
Qed.

(** *** [[...new Set(l)]] *)

Lemma foldl_set_add acc l :
  NoDup acc →
  NoDup (foldl set_add acc l) ∧
  (∀ x, x ∈ foldl set_add acc l ↔ x ∈ acc ∨ x ∈ l) ∧
  acc `prefix_of` foldl set_add acc l.
Proof.
  revert acc. induction l as [|y l IH]; intros acc Hnd; cbn.
  - split_and!; [done| |done]. intros x. rewrite elem_of_nil. tauto.
  - assert (NoDup (set_add acc y)) as Hnd'.
    { unfold set_add. case_decide as Hy; [done|].
      apply NoDup_app. split_and!; [done| |apply NoDup_singleton].
      intros x Hx ->%list_elem_of_singleton. done. }
    destruct (IH _ Hnd') as (H1 & H2 & H3). split_and!; [done| |].
    + intros x. rewrite H2, elem_of_cons. unfold set_add.
      case_decide as Hy.
      * split; [tauto|]. intros [?|[->|?]]; tauto.
      * rewrite elem_of_app, list_elem_of_singleton. tauto.
    + etrans; [|exact H3]. unfold set_add. case_decide; [done|].
      by apply prefix_app_r.
Qed.

Lemma set_spread_cons me members :
  NoDup (set_spread (me :: members)) ∧
  (∀ x, x ∈ set_spread (me :: members) ↔ x = me ∨ x ∈ members) ∧
  head (set_spread (me :: members)) = Some me.
Proof.
  unfold set_spread. cbn [foldl]. change (set_add [] me) with [me].
  destruct (foldl_set_add [me] members) as (H1 & H2 & [k H3]).
  { apply NoDup_singleton. }
  split_and!; [done| |by rewrite H3].
  intros x. by rewrite H2, list_elem_of_singleton.
Qed.
Lemma run_post_register b hashedPassword w :
  run (post_register b hashedPassword) w
  = if JS.truthy (rb_username b) && JS.truthy (rb_email b)
       && JS.truthy (rb_password b) && JS.truthy (rb_name b)
    then
      if list_find (λ u, u_username u = JS.prop_key (rb_username b)
                         ∨ u_email u = JS.prop_key (rb_email b))
           (read_db w Users) is Some _
      then (inl (mkResponse 400 (error "User already exists")), w)
      else
        let user := new_user w b hashedPassword in
        (inl (mkResponse 200
                (session (mkToken (u_id user) (u_username user))
                   (without_password user))),
         write_db (next_clock (next_clock (next_uuid w))) Users
           (read_db w Users ++ [user]))
    else (inl (mkResponse 400 (error "All fields are required")), w).
Proof.
  unfold post_register. rewrite run_try_catch.
  destruct (_ && _ && _ && _); [|done].
  rewrite run_bind, (run_readDatabase Users).
  destruct (list_find _ _) as [[i u]|]; [done|].
  do 3 (rewrite run_bind, run_perform; cbn [exec fst snd]).
  rewrite run_bind, (run_writeDatabase Users). done.
Qed.

Lemma run_post_login b bcrypt_compare w :
  run (post_login b bcrypt_compare) w
  = if JS.truthy (lb_username b) && JS.truthy (lb_password b) then
      match list_find (λ u, u_username u = JS.prop_key (lb_username b)
                            ∨ u_email u = JS.prop_key (lb_username b))
              (read_db w Users) with
      | Some (userIndex, user) =>
          if bcrypt_compare (JS.prop_key (lb_password b)) (u_password user) then
            let user := set_presence user true (clock_src w (clock_n w)) in
            (inl (mkResponse 200
                    (session (mkToken (u_id user) (u_username user))
                       (without_password user))),
             write_db (next_clock w) Users (<[userIndex := user]> (read_db w Users)))
          else (inl (mkResponse 400 (error "Invalid credentials")), w)
      | None => (inl (mkResponse 400 (error "Invalid credentials")), w)
      end
    else (inl (mkResponse 400 (error "Username and password are required")), w).
Proof.
  unfold post_login. rewrite run_try_catch.
  destruct (_ && _); [|done].
  rewrite run_bind, (run_readDatabase Users).
  destruct (list_find _ _) as [[i u]|]; [|done].
  destruct (bcrypt_compare _ _); [|done].
  rewrite run_bind, run_perform; cbn [exec fst snd].
  rewrite run_bind, (run_writeDatabase Users). done.
Qed.

Lemma run_put_profile me b w :
  run (put_profile me b) w
  = match list_find (λ u, u_id u = me) (read_db w Users) with
    | None => (inl (mkResponse 404 (error "User not found")), w)
    | Some (userIndex, user) =>
        (inl (mkResponse 200 (profile (without_password (spread_profile user b)))),
         write_db w Users (<[userIndex := spread_profile user b]> (read_db w Users)))
    end.
Proof.
  unfold put_profile. rewrite run_try_catch.
  rewrite run_bind, (run_readDatabase Users).
  destruct (list_find _ _) as [[i u]|]; [|done].
  rewrite run_bind, (run_writeDatabase Users). done.
Qed.

(** The routes other than register, login and profile leave [users.json]
    as it is. *)
Lemma route_users r w :
  writes_users r = false →
  users_json (disk (run (route r) w).2) = users_json (disk w).
Proof.
  destruct r as [b h|b c|me b|me b|me id|me|g|me u]; try done; intros _;
    cbn [route].
  - rewrite run_post_groups. destruct (gb_members b); [|done].
    destruct (JS.truthy _); [|done]. cbn [snd]. unfold write_db.
    by destruct (writable _ _).
  - rewrite run_delete_groups_id. destruct (list_find _ _) as [[i g]|]; [|done].
    case_decide; [done|]. cbn [snd]. unfold write_db. by destruct (writable _ _).
  - by rewrite run_get_groups.
  - by rewrite run_get_groups_messages.
  - by rewrite run_get_messages.
Qed.
End routes.

Section served.

(** A stored flag that is [false] stays so under every socket event that
    is not a [join] of the user and every request that does not write
    [users.json]. *)
Lemma isOnline_false_served inputs w u :
  (∀ sid, RestApi.socket_input (Server.from_socket sid (Server.join u)) ∉ inputs) →
  (∀ r, RestApi.request r ∈ inputs → RestApi.writes_users r = false) →
  isOnline u (disk w) = Some false →
  isOnline u (disk (RestApi.serve_all inputs w)) = Some false.
Proof.
  revert w. induction inputs as [|i inputs IH]; intros w Hno Hreq Hoff; [done|].
  cbn. apply IH.
  - intros sid Hin. apply (Hno sid). by right.
  - intros r Hin. apply Hreq. by right.
  - destruct i as [i|r]; cbn [RestApi.serve].
    + apply isOnline_false_stable; [|done]. intros sid ->. apply (Hno sid). by left.
    + unfold isOnline. rewrite route_users; [done|]. apply Hreq. by left.
Qed.
End served.

(** C5 as stated fails.  Alice is connected from [s1] and [s3]; [s1]
    closes.  [s3] is still open, yet [user_offline] is broadcast (to [s2]
    and to alice's own [s3]) and alice's stored flag becomes [false]. *)
Lemma C5_non_last_close_counterexample :
  let w' := Server.deliver (Server.from_socket "s1" Server.disconnect) Ex.online in
  Claimed.has_other_connection "s1" "alice" Ex.online ∧
  ¬ Claimed.silent_close "s1" Ex.online ∧
  new_emissions Ex.online w'
  = [mkEmission (socket_broadcast "s1") (user_offline "alice") {["s2"; "s3"]}] ∧
  isOnline "alice" (disk w') = Some false.
Proof.
  intros w'. split_and!.
  - exists "s3", (mkSocket (Some "alice") {["s3"; "alice"]} true).
    split_and!; [done|by vm_compute|done|done].
  - intros H. vm_compute in H. discriminate.
  - by vm_compute.
  - by vm_compute.
Qed.

(** C5, amended.  Closing any connection that joined as a stored user
    (users file readable and writable), whether or not the user has other
    open connections, makes exactly one emit: a [user_offline] broadcast
    for the user that reaches every other open connection; the user's
    stored flag is [false] afterwards, the user is no longer in
    [connectedUsers], and the flag stays [false] under the socket events
    and requests that follow, handled one after the other, as long as
    there is no [join] of the user among them and no request that writes
    the users file ([POST /api/register], [POST /api/login] and
    [PUT /api/profile]). *)
Theorem C5_every_close_broadcasts_offline
    (w : World) (socket u : string) (j : nat) (x : User) :
  joined_as w socket = Some u →
  readable w Users = true → writable w Users = true →
  list_find (λ v, u_id v = u) (users_json (disk w)) = Some (j, x) →
  let w' := Server.deliver (Server.from_socket socket Server.disconnect) w in
  (∃ R, new_emissions w w'
        = [mkEmission (socket_broadcast socket) (user_offline u) R] ∧
        ∀ sid, sid ∈ R ↔
               sid ≠ socket ∧
               ∃ s, sockets w !! sid = Some s ∧ sock_connected s = true) ∧
  isOnline u (disk w') = Some false ∧
  connectedUsers w' !! u = None ∧
  ∀ inputs,
    (∀ sid, RestApi.socket_input (Server.from_socket sid (Server.join u))
              ∉ inputs) →
    (∀ r, RestApi.request r ∈ inputs → RestApi.writes_users r = false) →
    isOnline u (disk (RestApi.serve_all inputs w')) = Some false.
Proof.
  intros Hu Hr Hw Hf w'.
  set (w0 := Server.before socket Server.disconnect w).
  assert (joined_as w0 socket = Some u) as Hu0.
  { unfold joined_as in *. unfold w0. cbn [Server.before with_sockets sockets].
    rewrite lookup_alter_eq. by destruct (sockets w !! socket). }
  assert (w' = with_emitted
                 (with_disk (next_clock (with_connectedUsers w0 (delete u (connectedUsers w0))))
                    (disk_set (disk w) Users
                       (<[j := set_presence x false (clock_src w (clock_n w))]>
                          (users_json (disk w)))))
                 (emitted w ++ [emission w0 (socket_broadcast socket) (user_offline u)]))
    as Hw'.
  { unfold w'. cbn [Server.deliver Server.handler]. fold w0.
    rewrite run_on_disconnect, Hu0. cbn [snd]. unfold read_db.
    change (readable w0 Users) with (readable w Users). rewrite Hr.
    cbn [disk_get]. change (users_json (disk w0)) with (users_json (disk w)).
    rewrite Hf. cbn zeta. unfold write_db.
    cbn [next_clock writable with_connectedUsers].
    change (writable w0 Users) with (writable w Users). by rewrite Hw. }
  assert (isOnline u (disk w') = Some false) as Hoff.
  { rewrite Hw'. unfold isOnline. cbn [with_emitted with_disk disk disk_set users_json].
    rewrite (list_find_insert_found _ _ _ _ (set_presence x false (clock_src w (clock_n w))) Hf); [done|].
    cbn. by apply list_find_Some in Hf as (_ & ? & _). }
  split_and!.
  - eexists. split.
    + apply new_emissions_app. rewrite Hw'. reflexivity.
    + intros sid. rewrite recipients_broadcast. unfold w0.
      cbn [Server.before with_sockets sockets]. split.
      * intros (Hne & s & Hs & Hc). split; [done|].
        rewrite lookup_alter_ne in Hs by done. eauto.
      * intros (Hne & s & Hs & Hc). split; [done|]. exists s.
        by rewrite lookup_alter_ne.
  - exact Hoff.
  - rewrite Hw'. cbn. apply lookup_delete_eq.
  - intros inputs Hno Hreq. by apply isOnline_false_served.
Qed.

Lemma C5_every_close_broadcasts_offline_witness :
  let w := Ex.online in
  let w' := Server.deliver (Server.from_socket "s2" Server.disconnect) w in
  joined_as w "s2" = Some "bob" ∧
  readable w Users = true ∧ writable w Users = true ∧
  list_find (λ v, u_id v = "bob") (users_json (disk w))
  = Some (1, set_presence (Ex.user "bob") true 101) ∧
  isOnline "bob" (disk w') = Some false ∧
  isOnline "bob"
    (disk (RestApi.serve_all
             [RestApi.socket_input
                (Server.from_socket "s1" (Server.send_message (Some Ex.hi_bob)));
              RestApi.request
                (RestApi.POST_groups "alice"
                   (RestApi.mkGroupBody (Some "crew") (Some ["bob"])));
              RestApi.socket_input (Server.from_socket "s1" Server.disconnect)]
             w')) = Some false.
Proof.
  intros w w'.
  destruct (C5_every_close_broadcasts_offline w "s2" "bob" 1
              (set_presence (Ex.user "bob") true 101))
    as (_ & Hoff & _ & Hstay); [by vm_compute..|].
  split_and!; [by vm_compute..|exact Hoff|].
  apply Hstay.
  - intros sid Hin. rewrite !elem_of_cons in Hin.
    destruct Hin as [Hin|[Hin|[Hin|Hin]]]; [discriminate..|].
    by apply elem_of_nil in Hin.
  - intros r Hin. rewrite !elem_of_cons in Hin.
    destruct Hin as [Hin|[Hin|[Hin|Hin]]];
      [discriminate|by injection Hin as ->|discriminate|].
    by apply elem_of_nil in Hin.
Defined.

(** ** C2: two toggles on one message *)

Section two_toggles.

Lemma head_fmap {A B} (f : A → B) (l : list A) : head (f <$> l) = f <$> head l.
Proof. by destruct l. Qed.

Lemma head_reactions_of u rs :
  head (reactions_of u rs) = snd <$> find_reaction u rs.
Proof.
  unfold reactions_of, find_reaction. induction rs as [|r rs IH]; [done|].
  rewrite filter_cons. cbn [list_find]. destruct (decide (r_userId r = u)); [done|].
  rewrite IH. by destruct (list_find _ rs) as [[??]|].
Qed.

Lemma filter_insert_irrelevant {A} (P : A → Prop) `{!∀ x, Decision (P x)}
    (l : list A) i x y :
  l !! i = Some y → ¬ P y → ¬ P x → filter P (<[i := x]> l) = filter P l.
Proof.
  revert i. induction l as [|z l IH]; intros i Hi Hy Hx; [done|].
  destruct i as [|i].
  - injection Hi as ->. change (<[0 := x]> (y :: l)) with (x :: l).
    by rewrite !filter_cons_False.
  - change (<[S i := x]> (z :: l)) with (z :: <[i := x]> l).
    by rewrite !filter_cons, (IH i Hi Hy Hx).
Qed.

(** After a toggle that is not a toggle-off the user has the emoji. *)
Lemma applyReaction_sets rs u e t :
  head (emojis_of u rs) ≠ Some e →
  head (emojis_of u (applyReaction rs u e t)) = Some e.
Proof.
  unfold emojis_of. rewrite !head_fmap, !head_reactions_of. intros Hne.
  destruct (find_reaction u rs) as [[i r]|] eqn:Hf.
  - assert (r_emoji r ≠ e) as He by (intros <-; by apply Hne).
    rewrite (applyReaction_replace _ _ _ _ _ _ Hf He).
    by rewrite (find_reaction_replaced u e rs i r Hf).
  - rewrite (applyReaction_push _ _ _ _ Hf).
    by rewrite (find_reaction_pushed u e t rs Hf).
Qed.

(** A toggle leaves the entries of the other users as they are. *)
Lemma applyReaction_others rs u v e t :
  v ≠ u → reactions_of v (applyReaction rs u e t) = reactions_of v rs.
Proof.
  intros Hne. unfold applyReaction.
  destruct (find_reaction u rs) as [[i r]|] eqn:Hf.
  - apply find_reaction_Some in Hf as (Hi & Hu & _). case_decide.
    + by apply reactions_of_others.
    + unfold reactions_of.
      apply (filter_insert_irrelevant _ _ _ _ r); [done|..]; cbn; congruence.
  - unfold reactions_of. rewrite filter_app, filter_cons_False by (cbn; congruence).
    by rewrite filter_nil, app_nil_r.
Qed.

Lemma reaction_keeps_faults socket d w :
  let w' := Server.deliver (Server.from_socket socket (Server.message_reaction (Some d))) w in
  readable w' = readable w ∧ writable w' = writable w.
Proof.
  intros w'. unfold w'. rewrite deliver_message_reaction, run_on_message_reaction.
  cbn [snd]. destruct (list_find _ _) as [[i m0]|]; [|done]. cbn zeta.
  unfold write_db, after_toggle.
  by destruct (find_reaction _ _), (writable _ _).
Qed.
End two_toggles.

(** ** Handlers in flight between their read and their write *)

Section in_flight.

Lemma idle_bind {A B} (p : Async A) (f : A → Async B) :
  idle p → (∀ a, idle (f a)) → idle (p ≫= f).
Proof.
  intros Hp Hf. induction p as [a|e|X op k IH]; [apply Hf|done|].
  destruct Hp as [Hop Hk]. split; [done|]. intros x. by apply IH.
Qed.

Lemma idle_try_catch {A} (p : Async A) h :
  idle p → (∀ e, idle (h e)) → idle (try_catch p h).
Proof.
  intros Hp Hh. induction p as [a|e|X op k IH]; [done|apply Hh|].
  destruct Hp as [Hop Hk]. split; [done|]. intros x. by apply IH.
Qed.

Lemma writes_next_bind {A B} Q (p : Async A) (f : A → Async B) :
  writes_next Q p → (∀ a, idle (f a)) → writes_next Q (p ≫= f).
Proof.
  intros Hp Hf. induction p as [a|e|X op k IH]; [done|done|].
  change (Vis op k ≫= f) with (Vis op (λ x, k x ≫= f)).
  cbn [writes_next] in *. destruct (written op) as [data|].
  - destruct Hp as [HQ Hk]. split; [done|]. intros x. by apply idle_bind.
  - destruct Hp as [Hop Hk]. split; [done|]. intros x. by apply IH.
Qed.

Lemma writes_next_try_catch {A} Q (p : Async A) h :
  writes_next Q p → (∀ e, idle (h e)) → writes_next Q (try_catch p h).
Proof.
  intros Hp Hh. induction p as [a|e|X op k IH]; [done|done|].
  cbn [writes_next try_catch] in *. destruct (written op) as [data|].
  - destruct Hp as [HQ Hk]. split; [done|]. intros x. by apply idle_try_catch.
  - destruct Hp as [Hop Hk]. split; [done|]. intros x. by apply IH.
Qed.

Lemma writes_next_mono {A} (Q Q' : list Message → Prop) (p : Async A) :
  (∀ data, Q data → Q' data) → writes_next Q p → writes_next Q' p.
Proof.
  intros HQ. induction p as [a|e|X op k IH]; [done|done|].
  cbn [writes_next]. destruct (written op) as [data|].
  - intros [? ?]. split; [by apply HQ|done].
  - intros [? Hk]. split; [done|]. intros x. by apply IH.
Qed.

Lemma idle_forEach_emit (l : list string) (f : string → Target) e :
  idle (forEach l (λ x, Server.emit (f x) e)).
Proof. induction l as [|x l IH]; [done|]. cbn. split; [done|]. by intros []. Qed.

Lemma idle_group_fanout groupId (e : ServerEvent) :
  idle (readDatabase Groups ≫= λ groups : list Group,
        match list_find (λ g, Some (g_id g) = groupId) groups with
        | Some (_, group) =>
            forEach (g_members group) (λ memberId,
              Server.emit (io_to [Some memberId]) e)
        | None => Ret tt
        end).
Proof.
  split; [done|]. intros [groups|]; cbn; [|done].
  destruct (list_find (λ g, Some (g_id g) = groupId) groups) as [[? g]|];
    [apply idle_forEach_emit|done].
Qed.

(** What is left of [message_reaction] once it has read the messages. *)
Lemma reaction_after_read socket d w i m0 :
  readable w Messages = true →
  list_find (λ m, Some (m_id m) = rd_messageId d) (messages_json (disk w))
    = Some (i, m0) →
  ∃ p, Server.step_task (Server.on_message_reaction socket (Some d)) w = (p, w) ∧
       waits p = false ∧
       writes_next (toggled (messages_json (disk w)) i m0 (rd_userId d) (rd_emoji d)) p.
Proof.
  intros Hr Hf. eexists. split; [|split].
  - unfold Server.on_message_reaction, readDatabase, fs_readFile.
    cbn [try_catch mbind Async_bind bind Server.step_task is_io exec].
    rewrite Hr. reflexivity.
  - cbn [try_catch bind].
    change (disk_get (disk w) Messages) with (messages_json (disk w)).
    cbn [Server.findIndex_by_id]. rewrite Hf.
    cbn [mbind Async_bind bind Server.payload mret try_catch].
    unfold toggle_reaction.
    destruct (find_reaction (rd_userId d) (m_reactions m0)) as [[j r]|];
      [by case_decide|done].
  - cbn [try_catch bind].
    change (disk_get (disk w) Messages) with (messages_json (disk w)).
    apply writes_next_try_catch; [|by intros; split].
    cbn [Server.findIndex_by_id]. rewrite Hf.
    cbn [mbind Async_bind bind Server.payload mret].
    assert (∀ rs,
              (∃ t, rs = applyReaction (m_reactions m0) (rd_userId d) (rd_emoji d) t) →
              ∀ updatedAt,
                toggled (messages_json (disk w)) i m0 (rd_userId d) (rd_emoji d)
                  (<[i := set_updatedAt (set_reactions m0 rs) updatedAt]>
                     (messages_json (disk w)))) as HQ.
    { intros rs [t ->] updatedAt. by eexists _, t. }
    assert (∀ m : Message,
              idle (if JS.truthy (m_groupId m) then
                      readDatabase Groups ≫= λ groups : list Group,
                        match list_find (λ g, Some (g_id g) = m_groupId m) groups with
                        | Some (_, group) =>
                            forEach (g_members group) (λ memberId,
                              Server.emit (io_to [Some memberId]) (message_updated m))
                        | None => Ret tt
                        end
                    else
                      Server.emit (io_to [Some (m_senderId m); m_receiverId m])
                        (message_updated m))) as Hidle.
    { intros m. destruct (JS.truthy _); [apply idle_group_fanout|by split]. }
    unfold toggle_reaction, applyReaction in *.
    destruct (find_reaction (rd_userId d) (m_reactions m0)) as [[j r]|].
    + case_decide.
      * cbn. split; [done|]. intros t. split; [apply HQ; by exists 0%Z|].
        intros [].
        -- apply (Hidle (set_updatedAt (set_reactions m0 _) t)).
        -- split; [done|]. intros [].
           apply (Hidle (set_updatedAt (set_reactions m0 _) t)).
      * cbn. split; [done|]. intros t. split; [apply HQ; by exists 0%Z|].
        intros [].
        -- apply (Hidle (set_updatedAt (set_reactions m0 _) t)).
        -- split; [done|]. intros [].
           apply (Hidle (set_updatedAt (set_reactions m0 _) t)).
    + cbn. split; [done|]. intros t0. split; [done|]. intros t.
      split; [apply HQ; by exists t0|].
      intros [].
      * apply (Hidle (set_updatedAt (set_reactions m0 _) t)).
      * split; [done|]. intros [].
        apply (Hidle (set_updatedAt (set_reactions m0 _) t)).
Qed.

Lemma exec_faults {X} (op : Op X) w :
  readable (exec op w).2 = readable w ∧ writable (exec op w).2 = writable w.
Proof.
  destruct op; try done; cbn.
  - by destruct (readable w c).
  - by destruct (writable w c).
Qed.

Lemma exec_other_messages {X} (op : Op X) w :
  on_messages op = false →
  messages_json (disk (exec op w).2) = messages_json (disk w).
Proof.
  destruct op; try done; cbn.
  - by destruct (readable w c).
  - destruct c; [|done|]; intros _; by destruct (writable w _).
Qed.

Lemma written_on_messages {X} (op : Op X) data :
  written op = Some data → on_messages op = true ∧ is_io op = true.
Proof. destruct op; try done. by destruct c. Qed.

Lemma exec_written {X} (op : Op X) data w :
  written op = Some data → writable w Messages = true →
  messages_json (disk (exec op w).2) = data.
Proof.
  destruct op; try done. destruct c; try done. cbn. intros [= ->] ->. done.
Qed.

Lemma resume_idle {A} (p : Async A) w :
  idle p →
  idle (Server.resume p w).1 ∧
  messages_json (disk (Server.resume p w).2) = messages_json (disk w) ∧
  writable (Server.resume p w).2 = writable w.
Proof.
  revert w. induction p as [a|e|X op k IH]; intros w Hp; [done|done|].
  cbn [Server.resume]. destruct (is_io op); [done|].
  destruct Hp as [Hop Hk].
  pose proof (exec_other_messages op w Hop) as Hm.
  destruct (exec_faults op w) as [_ Hw].
  destruct (exec op w) as [x w']. cbn [fst snd] in *.
  destruct (IH x w' (Hk x)) as (H1 & H2 & H3). split_and!; [done|congruence..].
Qed.

Lemma resume_writes_next {A} Q (p : Async A) w :
  writes_next Q p →
  writes_next Q (Server.resume p w).1 ∧
  messages_json (disk (Server.resume p w).2) = messages_json (disk w) ∧
  writable (Server.resume p w).2 = writable w ∧
  readable (Server.resume p w).2 = readable w.
Proof.
  revert w. induction p as [a|e|X op k IH]; intros w Hp; [done|done|].
  cbn [Server.resume]. destruct (is_io op) eqn:Hio; [done|].
  cbn [writes_next] in Hp. destruct (written op) as [data|] eqn:Hwr.
  { apply written_on_messages in Hwr as [_ ?]. congruence. }
  destruct Hp as [Hop Hk].
  pose proof (exec_other_messages op w Hop) as Hm.
  destruct (exec_faults op w) as [Hrd Hw].
  destruct (exec op w) as [x w']. cbn [fst snd] in *.
  destruct (IH x w' (Hk x)) as (H1 & H2 & H3 & H4).
  split_and!; [done|congruence..].
Qed.

(** A handler that is not waiting for a file runs up to its next file
    operation. *)
Lemma step_task_resume {A} (p : Async A) w :
  waits p = false → Server.step_task p w = Server.resume p w.
Proof.
  destruct p as [a|e|X op k]; [done|done|]. cbn. by intros ->.
Qed.

Lemma step_task_idle {A} (p : Async A) w :
  idle p →
  idle (Server.step_task p w).1 ∧
  messages_json (disk (Server.step_task p w).2) = messages_json (disk w) ∧
  writable (Server.step_task p w).2 = writable w.
Proof.
  intros Hp. destruct p as [a|e|X op k]; [done|done|].
  cbn [Server.step_task]. destruct (is_io op) eqn:Hio.
  - destruct Hp as [Hop Hk].
    pose proof (exec_other_messages op w Hop) as Hm.
    destruct (exec_faults op w) as [_ Hw].
    destruct (exec op w) as [x w']. cbn [fst snd] in *. by split_and!.
  - by apply resume_idle.
Qed.

Lemma step_task_writes_next {A} Q (p : Async A) w :
  writable w Messages = true → writes_next Q p →
  writable (Server.step_task p w).2 = writable w ∧
  ((writes_next Q (Server.step_task p w).1 ∧
    messages_json (disk (Server.step_task p w).2) = messages_json (disk w))
   ∨ (idle (Server.step_task p w).1 ∧
      Q (messages_json (disk (Server.step_task p w).2)))).
Proof.
  intros Hw Hp. destruct p as [a|e|X op k]; [done|done|].
  cbn [Server.step_task]. destruct (is_io op) eqn:Hio.
  - cbn [writes_next] in Hp. destruct (exec_faults op w) as [_ Hw'].
    destruct (written op) as [data|] eqn:Hwr.
    + destruct Hp as [HQ Hk]. pose proof (exec_written op data w Hwr Hw) as Hm.
      destruct (exec op w) as [x w']. cbn [fst snd] in *.
      split; [done|]. right. split; [done|]. by rewrite Hm.
    + destruct Hp as [Hop Hk]. pose proof (exec_other_messages op w Hop) as Hm.
      destruct (exec op w) as [x w']. cbn [fst snd] in *.
      split; [done|]. left. by split.
  - destruct (resume_writes_next Q (Vis op k) w Hp) as (H1 & H2 & H3 & _).
    split; [done|]. left. by split.
Qed.

Lemma writes_next_not_finished {A} Q (p : Async A) :
  writes_next Q p → Server.finished p = false.
Proof. by destruct p. Qed.

(** Handlers that have read and not written, stepped in any order: once
    one of them has written, the file holds what one of them wrote. *)
Lemma interleave_last_write Q schedule (tasks : list (Async unit)) w :
  writable w Messages = true →
  Forall (λ p, idle p ∨ writes_next Q p) tasks →
  Q (messages_json (disk w)) ∨ Forall (writes_next Q) tasks →
  let r := Server.interleave schedule tasks w in
  Q (messages_json (disk r.2)) ∨ Forall (writes_next Q) r.1.
Proof.
  revert tasks w. induction schedule as [|i schedule IH]; intros tasks w Hw Hall Hor;
    [done|].
  cbn [Server.interleave]. destruct (tasks !! i) as [p|] eqn:Hi; [|by apply IH].
  destruct (Server.step_task p w) as [p' w'] eqn:Hstep.
  assert (idle p ∨ writes_next Q p) as Hp.
  { eapply Forall_forall in Hall; [exact Hall|]. by eapply list_elem_of_lookup_2. }
  assert (writes_next Q p →
          writable w' Messages = true ∧
          ((writes_next Q p' ∧ messages_json (disk w') = messages_json (disk w))
           ∨ (idle p' ∧ Q (messages_json (disk w'))))) as Hpending.
  { intros Hwn. destruct (step_task_writes_next Q p w Hw Hwn) as [H1 H2].
    rewrite Hstep in H1, H2. cbn [fst snd] in *. split; [by rewrite H1|done]. }
  assert (idle p →
          writable w' Messages = true ∧ idle p' ∧
          messages_json (disk w') = messages_json (disk w)) as Hidle.
  { intros Hid. destruct (step_task_idle p w Hid) as (H1 & H2 & H3).
    rewrite Hstep in H1, H2, H3. cbn [fst snd] in *. by rewrite H3. }
  destruct Hor as [HQ|Hpend].
  - destruct Hp as [Hid|Hwn].
    + destruct (Hidle Hid) as (Hw' & Hid' & Hm). apply IH; [done| |].
      * apply Forall_insert; [done|by left].
      * left. by rewrite Hm.
    + destruct (Hpending Hwn) as (Hw' & [[Hwn' Hm]|[Hid' HQ']]).
      * apply IH; [done| |left; by rewrite Hm]. apply Forall_insert; [done|by right].
      * apply IH; [done| |by left]. apply Forall_insert; [done|by left].
  - assert (writes_next Q p) as Hwn.
    { eapply Forall_forall in Hpend; [exact Hpend|]. by eapply list_elem_of_lookup_2. }
    destruct (Hpending Hwn) as (Hw' & [[Hwn' Hm]|[Hid' HQ']]).
    + apply IH; [done| |right; by apply Forall_insert].
      apply Forall_insert; [done|by right].
    + apply IH; [done| |by left]. apply Forall_insert; [done|by left].
Qed.
Lemma interleave_length schedule (tasks : list (Async unit)) w :
  length (Server.interleave schedule tasks w).1 = length tasks.
Proof.
  revert tasks w. induction schedule as [|i schedule IH]; intros tasks w; [done|].
  cbn [Server.interleave]. destruct (tasks !! i) as [p|]; [|apply IH].
  destruct (Server.step_task p w) as [p' w']. by rewrite IH, length_insert.
Qed.
End in_flight.

(** C2 as stated fails: nothing serialises the handlers.  Alice and bob
    react to the same message; both handlers read [messages.json] before
    either writes it.  Both finish, bob's write replaces alice's, and the
    stored message has bob's reaction only. *)
Lemma C2_interleaved_toggles_counterexample :
  let tasks := [Server.on_message_reaction "s1" (Some Ex.alice_likes);
                Server.on_message_reaction "s2" (Some Ex.bob_likes)] in
  let r := Server.interleave [0; 1; 0; 1; 0; 1; 0; 1] tasks Ex.online in
  forallb Server.finished r.1 = true ∧
  m_reactions <$> stored_message "M" (disk r.2)
  = Some [mkReaction "bob" "thumbsup" 105] ∧
  ¬ Claimed.both_persist "M" "alice" "bob" r.2.
Proof.
  intros tasks r.
  assert (m_reactions <$> stored_message "M" (disk r.2)
          = Some [mkReaction "bob" "thumbsup" 105]) as Hm by by vm_compute.
  split_and!; [by vm_compute|exact Hm|].
  intros (m & Hs & Ha & _). rewrite Hs in Hm. injection Hm as Hm.
  by rewrite Hm in Ha.
Qed.

(** C2, amended.  The handlers are not serialised.  Two toggles by
    different users on the same stored message (the file readable and
    writable, neither toggle removing its user's reaction):
    - run one after the other, the stored message has both users'
      reactions, each with the emoji asked for;
    - when both handlers have read the file before either writes it (the
      steps up to the second read are: the read of one handler, possibly
      its next step, which stops at its write, and the read of the
      other), however their further steps are then interleaved, once both
      have ended the stored message is the one that was read with the
      toggle of one of the two users only: the reactions of the other
      user are what they were before, so the two requested emojis are
      never both stored. *)
Theorem C2_toggles_persist_serial_lost_interleaved
    (w : World) (s1 s2 : string) (d1 d2 : ReactionData)
    (mid : string) (i : nat) (m0 : Message) :
  rd_messageId d1 = Some mid → rd_messageId d2 = Some mid →
  rd_userId d1 ≠ rd_userId d2 →
  readable w Messages = true → writable w Messages = true →
  list_find (λ m, Some (m_id m) = Some mid) (messages_json (disk w))
    = Some (i, m0) →
  head (emojis_of (rd_userId d1) (m_reactions m0)) ≠ Some (rd_emoji d1) →
  head (emojis_of (rd_userId d2) (m_reactions m0)) ≠ Some (rd_emoji d2) →
  (let w' := Server.deliver_all
               [Server.from_socket s1 (Server.message_reaction (Some d1));
                Server.from_socket s2 (Server.message_reaction (Some d2))] w in
   Claimed.both_persist mid (rd_userId d1) (rd_userId d2) w' ∧
   ∃ m, stored_message mid (disk w') = Some m ∧
        head (emojis_of (rd_userId d1) (m_reactions m)) = Some (rd_emoji d1) ∧
        head (emojis_of (rd_userId d2) (m_reactions m)) = Some (rd_emoji d2)) ∧
  (∀ reads schedule,
     reads ∈ [[0; 1]; [1; 0]; [0; 0; 1]; [1; 1; 0]] →
     let r := Server.interleave (reads ++ schedule)
                [Server.on_message_reaction s1 (Some d1);
                 Server.on_message_reaction s2 (Some d2)] w in
     forallb Server.finished r.1 = true →
     ∃ m, stored_message mid (disk r.2) = Some m ∧
          ((∃ t, m_reactions m
                 = applyReaction (m_reactions m0) (rd_userId d1) (rd_emoji d1) t) ∧
           reactions_of (rd_userId d2) (m_reactions m)
           = reactions_of (rd_userId d2) (m_reactions m0)
           ∨
           (∃ t, m_reactions m
                 = applyReaction (m_reactions m0) (rd_userId d2) (rd_emoji d2) t) ∧
           reactions_of (rd_userId d1) (m_reactions m)
           = reactions_of (rd_userId d1) (m_reactions m0)) ∧
          ¬ (head (emojis_of (rd_userId d1) (m_reactions m)) = Some (rd_emoji d1) ∧
             head (emojis_of (rd_userId d2) (m_reactions m)) = Some (rd_emoji d2))).
Proof.
  intros Hid1 Hid2 Hne Hr Hw Hf Hon1 Hon2. split.
  - intros w'.
    set (w1 := Server.deliver (Server.from_socket s1 (Server.message_reaction (Some d1))) w).
    rewrite <- Hid1 in Hf.
    destruct (reaction_stored s1 d1 w i m0 Hr Hw Hf) as [_ Hf1]. fold w1 in Hf1.
    destruct (reaction_keeps_faults s1 d1 w) as [Hr1 Hw1]. fold w1 in Hr1, Hw1.
    rewrite Hid1, <- Hid2 in Hf1.
    assert (readable w1 Messages = true) as Hr1' by by rewrite Hr1.
    assert (writable w1 Messages = true) as Hw1' by by rewrite Hw1.
    destruct (reaction_stored s2 d2 w1 i _ Hr1' Hw1' Hf1) as [_ Hf2].
    change (Server.deliver _ w1) with w' in Hf2. rewrite Hid2 in Hf2.
    set (m1 := reacted w d1 m0) in *. set (m2 := reacted w1 d2 m1) in *.
    assert (head (emojis_of (rd_userId d1) (m_reactions m2)) = Some (rd_emoji d1)
            ∧ head (emojis_of (rd_userId d2) (m_reactions m2)) = Some (rd_emoji d2))
      as [H1 H2].
    { unfold m2, m1. cbn [reacted set_updatedAt set_reactions m_reactions]. split.
      - unfold emojis_of at 1. rewrite applyReaction_others by done.
        by apply applyReaction_sets.
      - apply applyReaction_sets. unfold emojis_of at 1.
        by rewrite applyReaction_others. }
    assert (stored_message mid (disk w') = Some m2) as Hs.
    { unfold stored_message. by rewrite Hf2. }
    split; [|by exists m2].
    exists m2. split; [done|].
    unfold emojis_of in H1, H2. split; intros Hnil; by rewrite Hnil in *.
  - intros reads schedule Hreads r Hfin.
    set (Q := λ data,
           toggled (messages_json (disk w)) i m0 (rd_userId d1) (rd_emoji d1) data
           ∨ toggled (messages_json (disk w)) i m0 (rd_userId d2) (rd_emoji d2) data).
    assert (∀ w0, messages_json (disk w0) = messages_json (disk w) →
                  readable w0 = readable w →
              (∃ p, Server.step_task (Server.on_message_reaction s1 (Some d1)) w0
                    = (p, w0) ∧ waits p = false ∧ writes_next Q p) ∧
              (∃ p, Server.step_task (Server.on_message_reaction s2 (Some d2)) w0
                    = (p, w0) ∧ waits p = false ∧ writes_next Q p)) as Hread.
    { intros w0 Hm0 Hr0. split.
      - destruct (reaction_after_read s1 d1 w0 i m0) as (p & Hs & Hwt & Hp);
          [by rewrite Hr0|by rewrite Hm0, Hid1|].
        exists p. split_and!; [done..|]. rewrite Hm0 in Hp.
        eapply writes_next_mono; [|exact Hp]. intros data ?. by left.
      - destruct (reaction_after_read s2 d2 w0 i m0) as (p & Hs & Hwt & Hp);
          [by rewrite Hr0|by rewrite Hm0, Hid2|].
        exists p. split_and!; [done..|]. rewrite Hm0 in Hp.
        eapply writes_next_mono; [|exact Hp]. intros data ?. by right. }
    assert (∀ (p : Async unit) w0,
              waits p = false → writes_next Q p →
              ∃ p' w0', Server.step_task p w0 = (p', w0') ∧ writes_next Q p' ∧
                        messages_json (disk w0') = messages_json (disk w0) ∧
                        writable w0' = writable w0 ∧ readable w0' = readable w0)
      as Hnext.
    { intros p w0 Hwt Hp. rewrite (step_task_resume p w0 Hwt).
      destruct (resume_writes_next Q p w0 Hp) as (H1 & H2 & H3 & H4).
      destruct (Server.resume p w0) as [p' w0']. by exists p', w0'. }
    assert (∃ p1 p2 w0,
              r = Server.interleave schedule [p1; p2] w0 ∧
              writes_next Q p1 ∧ writes_next Q p2 ∧
              writable w0 Messages = true) as (p1 & p2 & w0 & Hr' & Hp1 & Hp2 & Hw0).
    { destruct (Hread w eq_refl eq_refl)
        as [(p1 & Hs1 & Hwt1 & Hp1) (p2 & Hs2 & Hwt2 & Hp2)].
      rewrite !elem_of_cons in Hreads.
      destruct Hreads as [-> |[-> |[-> |[-> |Hnil]]]];
        [| | | |by apply elem_of_nil in Hnil]; unfold r;
        cbn [app Server.interleave lookup list_lookup].
      - rewrite Hs1. cbn [lookup list_lookup insert list_insert]. rewrite Hs2.
        by exists p1, p2, w.
      - rewrite Hs2. cbn [lookup list_lookup insert list_insert]. rewrite Hs1.
        by exists p1, p2, w.
      - rewrite Hs1. cbn [lookup list_lookup insert list_insert].
        destruct (Hnext p1 w Hwt1 Hp1) as (p1' & w1 & -> & Hp1' & Hm1 & Hw1 & Hr1).
        cbn [lookup list_lookup insert list_insert].
        destruct (Hread w1 Hm1 Hr1) as [_ (p2' & -> & _ & Hp2')].
        exists p1', p2', w1. split_and!; [done..|]. by rewrite Hw1.
      - rewrite Hs2. cbn [lookup list_lookup insert list_insert].
        destruct (Hnext p2 w Hwt2 Hp2) as (p2' & w1 & -> & Hp2' & Hm1 & Hw1 & Hr1).
        cbn [lookup list_lookup insert list_insert].
        destruct (Hread w1 Hm1 Hr1) as [(p1' & -> & _ & Hp1') _].
        exists p1', p2', w1. split_and!; [done..|]. by rewrite Hw1. }
    assert (Forall (writes_next Q) [p1; p2]) as Hpend by by repeat constructor.
    destruct (interleave_last_write Q schedule [p1; p2] w0 Hw0) as [HQ|Hstill].
    { eapply Forall_impl; [exact Hpend|]. intros p ?. by right. }
    { by right. }
    2:{ rewrite <- Hr' in Hstill.
        assert (length r.1 = 2) as Hlen by (rewrite Hr'; apply interleave_length).
        destruct r.1 as [|p ps]; [done|]. apply Forall_cons in Hstill as [Hp _].
        apply writes_next_not_finished in Hp. cbn in Hfin. by rewrite Hp in Hfin. }
    rewrite <- Hr' in HQ.
    assert (∀ u e,
              toggled (messages_json (disk w)) i m0 u e (messages_json (disk r.2)) →
              ∃ m, stored_message mid (disk r.2) = Some m ∧
                   ∃ t, m_reactions m = applyReaction (m_reactions m0) u e t) as Hst.
    { intros u e (m & t & Hd & Hmid & Hre). exists m. split; [|by exists t].
      unfold stored_message. rewrite Hd.
      rewrite (list_find_insert_found _ _ _ _ m Hf); [done|].
      apply list_find_Some in Hf as (_ & Hp & _). by rewrite Hmid. }
    destruct HQ as [HQ|HQ]; destruct (Hst _ _ HQ) as (m & Hm & t & Ht); exists m;
      (split; [done|]).
    + assert (reactions_of (rd_userId d2) (m_reactions m)
              = reactions_of (rd_userId d2) (m_reactions m0)) as Hsame.
      { rewrite Ht. by apply applyReaction_others. }
      split; [left; split; [by exists t|done]|].
      intros [_ H2]. unfold emojis_of in H2, Hon2. by rewrite Hsame in H2.
    + assert (reactions_of (rd_userId d1) (m_reactions m)
              = reactions_of (rd_userId d1) (m_reactions m0)) as Hsame.
      { rewrite Ht. apply applyReaction_others. congruence. }
      split; [right; split; [by exists t|done]|].
      intros [H1 _]. unfold emojis_of in H1, Hon1. by rewrite Hsame in H1.
Qed.

Lemma C2_toggles_persist_serial_lost_interleaved_witness :
  let w := Ex.online in
  let alice := Server.from_socket "s1" (Server.message_reaction (Some Ex.alice_likes)) in
  let bob := Server.from_socket "s2" (Server.message_reaction (Some Ex.bob_likes)) in
  let r := Server.interleave ([0; 1] ++ [0; 1; 0; 1; 0; 1])
             [Server.on_message_reaction "s1" (Some Ex.alice_likes);
              Server.on_message_reaction "s2" (Some Ex.bob_likes)] w in
  readable w Messages = true ∧ writable w Messages = true ∧
  list_find (λ m, Some (m_id m) = Some "M") (messages_json (disk w))
  = Some (0, Ex.M) ∧
  Claimed.both_persist "M" "alice" "bob" (Server.deliver_all [alice; bob] w) ∧
  forallb Server.finished r.1 = true ∧
  ∃ m, stored_message "M" (disk r.2) = Some m ∧
       ¬ (head (emojis_of "alice" (m_reactions m)) = Some "thumbsup" ∧
          head (emojis_of "bob" (m_reactions m)) = Some "thumbsup").
Proof.
  intros w alice bob r.
  destruct (C2_toggles_persist_serial_lost_interleaved w "s1" "s2"
              Ex.alice_likes Ex.bob_likes "M" 0 Ex.M) as [Hserial Hlost];
    [reflexivity|reflexivity|discriminate|reflexivity|reflexivity|reflexivity
    |discriminate|discriminate|].
  assert (forallb Server.finished r.1 = true) as Hfin by (by vm_compute).
  split_and!; [reflexivity..|exact (proj1 Hserial)|exact Hfin|].
  destruct (Hlost [0; 1] [0; 1; 0; 1; 0; 1]) as (m & Hm & _ & Hnot);
    [by left|exact Hfin|].
  by exists m.
Defined.

(** ** The interleaved semantics contains the sequential one *)

Section adequacy.
Implicit Types (tasks : list (Async unit)) (p q : Async unit).

Lemma interleave_app s1 s2 tasks w :
  Server.interleave (s1 ++ s2) tasks w
  = Server.interleave s2 (Server.interleave s1 tasks w).1
      (Server.interleave s1 tasks w).2.
Proof.
  revert tasks w. induction s1 as [|i s1 IH]; intros tasks w; [done|].
  cbn [app Server.interleave]. destruct (tasks !! i) as [p|]; [|apply IH].
  destruct (Server.step_task p w) as [p' w']. apply IH.
Qed.

Lemma interleave_finished tasks i p m w :
  tasks !! i = Some p → Server.finished p = true →
  Server.interleave (replicate m i) tasks w = (tasks, w).
Proof.
  intros Hi Hp. induction m as [|m IH]; [done|].
  cbn [replicate Server.interleave]. rewrite Hi.
  destruct p as [a|e|X op k]; [| |done]; cbn [Server.step_task];
    by rewrite list_insert_id.
Qed.

Lemma interleave_step tasks i p m w :
  tasks !! i = Some p →
  Server.interleave (replicate (S m) i) tasks w
  = Server.interleave (replicate m i)
      (<[i := (Server.step_task p w).1]> tasks) (Server.step_task p w).2.
Proof.
  intros Hi. cbn [replicate Server.interleave]. rewrite Hi.
  by destruct (Server.step_task p w).
Qed.

(** A handler stepped alone often enough ends, in the state [run] gives,
    whatever other handlers wait beside it. *)
Lemma run_is_a_schedule p w :
  ∃ n, ∀ tasks i m, tasks !! i = Some p → (n ≤ m)%nat →
    ∃ p', Server.finished p' = true ∧
          Server.interleave (replicate m i) tasks w
          = (<[i := p']> tasks, (run p w).2).
Proof.
  revert w. induction p as [a|e|X op k IH]; intros w.
  - exists 0. intros tasks i m Hi _. exists (Ret a). split; [done|].
    by rewrite (interleave_finished _ _ _ _ _ Hi), list_insert_id.
  - exists 0. intros tasks i m Hi _. exists (Throw e). split; [done|].
    by rewrite (interleave_finished _ _ _ _ _ Hi), list_insert_id.
  - assert (∀ x w', ∃ n, ∀ tasks i m,
              tasks !! i = Some (Server.resume (k x) w').1 → (n ≤ m)%nat →
              ∃ p', Server.finished p' = true ∧
                    Server.interleave (replicate m i) tasks (Server.resume (k x) w').2
                    = (<[i := p']> tasks, (run (k x) w').2)) as Hres.
    { intros x w'. destruct (IH x w') as [n Hn].
      destruct (k x) as [a|e|Y op' k'] eqn:Hk; [by exists n..|].
      destruct (is_io op') eqn:Hio.
      { exists n. intros tasks i m Hi Hm. cbn [Server.resume] in *.
        rewrite Hio in *. by apply Hn. }
      exists n. intros tasks i m Hi Hm.
      assert (i < length tasks) as Hlt by by eapply lookup_lt_Some.
      destruct (Hn (<[i := Vis op' k']> tasks) i (S m)) as (p' & Hp' & Hrun);
        [by apply list_lookup_insert_eq|lia|].
      exists p'. split; [done|].
      rewrite (interleave_step _ _ (Vis op' k')) in Hrun
        by by apply list_lookup_insert_eq.
      unfold Server.step_task in Hrun. rewrite Hio in Hrun.
      rewrite !list_insert_insert_eq in Hrun.
      by rewrite (list_insert_id tasks i) in Hrun. }
    destruct (is_io op) eqn:Hio.
    + destruct (IH (exec op w).1 (exec op w).2) as [n Hn].
      exists (S n). intros tasks i [|m] Hi Hm; [lia|].
      assert (i < length tasks) as Hlt by by eapply lookup_lt_Some.
      rewrite (interleave_step _ _ _ _ _ Hi). unfold Server.step_task.
      rewrite Hio. cbn [run]. destruct (exec op w) as [x w']. cbn [fst snd] in *.
      destruct (Hn (<[i := k x]> tasks) i m) as (p' & Hp' & Hrun);
        [by apply list_lookup_insert_eq|lia|].
      exists p'. split; [done|]. by rewrite Hrun, list_insert_insert_eq.
    + destruct (Hres (exec op w).1 (exec op w).2) as [n Hn].
      exists (S n). intros tasks i [|m] Hi Hm; [lia|].
      assert (i < length tasks) as Hlt by by eapply lookup_lt_Some.
      rewrite (interleave_step _ _ _ _ _ Hi). unfold Server.step_task.
      rewrite Hio. cbn [run Server.resume]. rewrite Hio.
      destruct (exec op w) as [x w']. cbn [fst snd] in *.
      destruct (Hn (<[i := (Server.resume (k x) w').1]> tasks) i m)
        as (p' & Hp' & Hrun); [by apply list_lookup_insert_eq|lia|].
      exists p'. split; [done|]. by rewrite Hrun, list_insert_insert_eq.
Qed.

(** Two handlers, the second stepped only after the first has ended: the
    state is that of running one after the other. *)
Lemma serial_schedule p q w :
  ∃ n1 n2, ∀ m1 m2, (n1 ≤ m1)%nat → (n2 ≤ m2)%nat →
    let r := Server.interleave (replicate m1 0 ++ replicate m2 1) [p; q] w in
    r.2 = (run q (run p w).2).2 ∧ forallb Server.finished r.1 = true.
Proof.
  destruct (run_is_a_schedule p w) as [n1 H1].
  destruct (run_is_a_schedule q (run p w).2) as [n2 H2].
  exists n1, n2. intros m1 m2 Hm1 Hm2. cbn zeta. rewrite interleave_app.
  destruct (H1 [p; q] 0 m1) as (p' & Hp' & ->); [done|done|]. cbn [fst snd].
  change (<[0 := p']> [p; q]) with [p'; q].
  destruct (H2 [p'; q] 1 m2) as (q' & Hq' & ->); [done|done|].
  cbn. by rewrite Hp', Hq'.
Qed.
End adequacy.

(** ** C7: the unread counter *)

Section unread.
Import Client.



Lemma getUnreadCount_setUnreadCount c c' n ls :
  conversationStorage.getUnreadCount c (conversationStorage.setUnreadCount c' n ls)
  = if setItem_ok ls && bool_decide (c' = c) then n
    else conversationStorage.getUnreadCount c ls.
Proof.
  unfold conversationStorage.setUnreadCount, conversationStorage.getUnreadCount.
  destruct (setItem_ok ls); [|done]. cbn.
  case_bool_decide as Hc.
  - subst. by rewrite lookup_insert_eq.
  - by rewrite lookup_insert_ne.
Qed.





Lemma setItem_ok_setUnreadCount c n ls :
  setItem_ok (conversationStorage.setUnreadCount c n ls) = setItem_ok ls.
Proof. unfold conversationStorage.setUnreadCount. by destruct (setItem_ok ls) eqn:H. Qed.



End unread.

Section unread_inputs.
Import Client.

Lemma storage_socket_off name st : storage (socket_off name st) = storage st.
Proof. done. Qed.





End unread_inputs.




(** ** C8: snapshots and pushes in the chat room *)

Section merge.
Import Client.

Lemma insert_by_createdAt_Forall (P : Message → Prop) m l :
  P m → Forall P l → Forall P (Rest.insert_by_createdAt m l).
Proof.
  intros Hm. induction 1 as [|x l Hx Hl IH]; cbn; [by repeat constructor|].
  case_decide; by repeat constructor.
Qed.

Lemma insert_by_createdAt_sorted m l :
  StronglySorted (λ a b, (m_createdAt a ≤ m_createdAt b)%Z) l →
  StronglySorted (λ a b, (m_createdAt a ≤ m_createdAt b)%Z)
    (Rest.insert_by_createdAt m l).
Proof.
  induction 1 as [|x l Hl IH Hx]; cbn; [by repeat constructor|].
  case_decide as Hle.
  - constructor; [by constructor|]. constructor; [lia|].
    eapply Forall_impl; [exact Hx|]. cbn. intros; lia.
  - constructor; [done|]. apply insert_by_createdAt_Forall; [lia|done].
Qed.

Lemma insert_by_createdAt_perm m l : Rest.insert_by_createdAt m l ≡ₚ m :: l.
Proof.
  induction l as [|x l IH]; cbn; [done|]. case_decide; [done|].
  by rewrite IH, Permutation_swap.
Qed.

(** The served snapshot is in order of creation and holds the messages of
    the conversation, each as often as it is stored. *)
Lemma get_messages_sorted me userId messages :
  StronglySorted (λ a b, (m_createdAt a ≤ m_createdAt b)%Z)
    (Rest.get_messages me userId messages).
Proof.
  unfold Rest.get_messages, Rest.sort_by_createdAt.
  induction (filter _ messages) as [|m l IH]; cbn; [constructor|].
  by apply insert_by_createdAt_sorted.
Qed.

Lemma get_messages_perm me userId messages :
  Rest.get_messages me userId messages
  ≡ₚ filter (λ m, (m_senderId m = me ∧ m_receiverId m = Some userId) ∨
                  (m_senderId m = userId ∧ m_receiverId m = Some me)) messages.
Proof.
  unfold Rest.get_messages, Rest.sort_by_createdAt.
  induction (filter _ messages) as [|m l IH]; cbn; [done|].
  by rewrite insert_by_createdAt_perm, IH.
Qed.

Lemma replace_by_id_length m l : length (replace_by_id m l) = length l.
Proof. unfold replace_by_id. apply length_map. Qed.

Lemma replace_by_id_ids m l : m_id <$> replace_by_id m l = m_id <$> l.
Proof.
  unfold replace_by_id. induction l as [|x l IH]; [done|]. cbn.
  rewrite IH. by case_decide as H; [rewrite H|].
Qed.

Lemma replace_by_id_lookup m l i x :
  l !! i = Some x →
  replace_by_id m l !! i = Some (if decide (m_id x = m_id m) then m else x).
Proof.
  intros Hi. unfold replace_by_id.
  change (map ?f l) with (f <$> l). by rewrite list_lookup_fmap, Hi.
Qed.

Lemma replace_by_id_absent m l : m_id m ∉ m_id <$> l → replace_by_id m l = l.
Proof.
  intros Hn. unfold replace_by_id. induction l as [|x l IH]; [done|]. cbn in *.
  rewrite not_elem_of_cons in Hn. destruct Hn as [Hx Hl].
  rewrite decide_False by done. by rewrite IH.
Qed.

Lemma getMessages_setMessages c data ls :
  setItem_ok ls = true →
  conversationStorage.getMessages c (conversationStorage.setMessages c data ls)
  = data.
Proof.
  intros Hok. unfold conversationStorage.setMessages,
    conversationStorage.getMessages. rewrite Hok. cbn.
  by rewrite lookup_insert_eq.
Qed.

(** The cache under the context's [message_updated] listener: the entry
    of the conversation is replaced by id, like the view. *)
Lemma ctx_message_updated_cache uid m ls :
  setItem_ok ls = true → JS.truthy (m_groupId m) = false →
  let c := if decide (m_senderId m = uid) then JS.prop_key (m_receiverId m)
           else m_senderId m in
  conversationStorage.getMessages c (SocketContext.on_message_updated uid m ls)
  = replace_by_id m (conversationStorage.getMessages c ls).
Proof.
  intros Hok Hg c. unfold SocketContext.on_message_updated. rewrite Hg.
  by apply getMessages_setMessages.
Qed.
End merge.

(** C8 as stated fails.  The chat room shows message [1], pushed by the
    server.  A snapshot that was read before [1] was stored arrives: the
    view is the snapshot, and [1] is gone.  And when [receive_message]
    with the id [1] is pushed again, the view holds [1] twice. *)
Lemma C8_snapshot_and_push_counterexample :
  let snapshot := Client.messages_fetched (Some "peer") (Some [Ex.to_peer "2" 1]) in
  let again := Client.pushed (receive_message (Ex.from_peer "1" 5)) in
  Claimed.view Ex.chatting = [Ex.from_peer "1" 5] ∧
  Claimed.view (Client.step snapshot Ex.chatting) = [Ex.to_peer "2" 1] ∧
  ¬ Claimed.merges_by_id snapshot Ex.chatting ∧
  Claimed.view (Client.step again Ex.chatting)
  = [Ex.from_peer "1" 5; Ex.from_peer "1" 5] ∧
  ¬ Claimed.merges_by_id again Ex.chatting.
Proof.
  intros snapshot again.
  assert (Claimed.view Ex.chatting = [Ex.from_peer "1" 5]) as Hv by by vm_compute.
  assert (Claimed.view (Client.step snapshot Ex.chatting) = [Ex.to_peer "2" 1])
    as Hs by by vm_compute.
  assert (Claimed.view (Client.step again Ex.chatting)
          = [Ex.from_peer "1" 5; Ex.from_peer "1" 5]) as Ha by by vm_compute.
  split_and!; [done|done| |done|].
  - intros [H _]. specialize (H (Ex.from_peer "1" 5)).
    fold snapshot in H. rewrite Hv, Hs in H.
    assert ("1" ∈ ["2"]) as Hin by (apply H; by left).
    apply list_elem_of_singleton in Hin. discriminate.
  - intros [_ H]. fold again in H. rewrite Hv, Ha in H.
    assert (NoDup ["1"; "1"]) as Hnd.
    { apply H. repeat constructor. by intros ?%elem_of_nil. }
    apply NoDup_cons in Hnd as [Hnin _]. apply Hnin. by left.
Qed.

Section pushes.
Import Client.

Lemma chatRoom_call l e st : chatRoom (call l e st) = room_call l e <$> chatRoom st.
Proof. destruct l, e; cbn; try done; by destruct (chatRoom st). Qed.

Lemma chatRoom_pushed e st :
  chatRoom (step (pushed e) st)
  = (λ cr, foldl (λ cr l, room_call l e cr) cr (default [] (listeners st)))
      <$> chatRoom st.
Proof.
  cbn [step]. generalize (default [] (listeners st)) as ls.
  intros ls. revert st. induction ls as [|l ls IH]; intros st.
  - cbn. by destruct (chatRoom st).
  - cbn [foldl]. rewrite IH, chatRoom_call. by destruct (chatRoom st).
Qed.

Lemma replace_by_id_idemp m l :
  replace_by_id m (replace_by_id m l) = replace_by_id m l.
Proof.
  unfold replace_by_id. induction l as [|x l IH]; [done|]. cbn. rewrite IH.
  f_equal. destruct (decide (m_id x = m_id m)) as [Hx|Hx];
    [by rewrite decide_True|by rewrite decide_False].
Qed.

Lemma room_pushed_updated m ls cr :
  let cr' := foldl (λ cr l, room_call l (message_updated m) cr) cr ls in
  cr_userId cr' = cr_userId cr ∧
  cr_messages cr'
  = if decide (room_message_updated ∈ ls)
    then replace_by_id m (cr_messages cr) else cr_messages cr.
Proof.
  revert cr. induction ls as [|l ls IH]; intros cr; cbn [foldl].
  - split; [done|]. rewrite decide_False; [done|]. by intros ?%elem_of_nil.
  - destruct (IH (room_call l (message_updated m) cr)) as [Hu Hm].
    cbn zeta. rewrite Hu, Hm. destruct l; cbn [room_call];
      try (split; [done|];
           destruct (decide (room_message_updated ∈ ls)) as [Hin|Hnin];
           [rewrite decide_True; [done|by right]
           |rewrite decide_False; [done|];
            rewrite elem_of_cons; by intros [?|?]]).
    split; [done|]. rewrite (decide_True (P := _ ∈ _ :: _)) by by left.
    cbn. case_decide; [apply replace_by_id_idemp|done].
Qed.

Lemma room_pushed_sent m ls cr :
  let cr' := foldl (λ cr l, room_call l (message_sent m) cr) cr ls in
  cr_userId cr' = cr_userId cr ∧
  cr_messages cr'
  = cr_messages cr ++ replicate (registered room_message_sent ls) m.
Proof.
  revert cr. induction ls as [|l ls IH]; intros cr; cbn [foldl].
  - split; [done|]. cbn. by rewrite app_nil_r.
  - destruct (IH (room_call l (message_sent m) cr)) as [Hu Hm].
    cbn zeta. rewrite Hu, Hm. unfold registered. rewrite filter_cons.
    destruct l; cbn [room_call]; try (by rewrite decide_False).
    rewrite decide_True by done. cbn. by rewrite <- app_assoc.
Qed.

Lemma room_pushed_received m ls cr :
  let cr' := foldl (λ cr l, room_call l (receive_message m) cr) cr ls in
  cr_userId cr' = cr_userId cr ∧
  cr_messages cr'
  = if decide (Some (m_senderId m) = cr_userId cr ∨ m_receiverId m = cr_userId cr)
    then cr_messages cr ++ replicate (registered room_receive_message ls) m
    else cr_messages cr.
Proof.
  revert cr. induction ls as [|l ls IH]; intros cr; cbn [foldl].
  - split; [done|]. cbn. rewrite app_nil_r. by case_decide.
  - destruct (IH (room_call l (receive_message m) cr)) as [Hu Hm].
    cbn zeta. rewrite Hu, Hm. unfold registered. rewrite filter_cons.
    destruct l; cbn [room_call];
      try (by rewrite (decide_False (P := _ = room_receive_message))).
    rewrite (decide_True (P := room_receive_message = room_receive_message))
      by done.
    unfold ChatRoomPage.on_receive_message.
    destruct (decide (Some (m_senderId m) = cr_userId cr
                      ∨ m_receiverId m = cr_userId cr)) as [Hp|Hp]; cbn.
    + rewrite decide_True by done. by rewrite <- app_assoc.
    + by rewrite decide_False.
Qed.
End pushes.

(** C8, amended.  With the chat room shown: a snapshot that arrives
    becomes the view as it is, and the cache entry of the conversation
    (route parameter present and no name of [Object.prototype], storage
    writable), replacing what was there; the server serves it in order of
    creation time.  For a pushed event whose conversation id names no
    property of [Object.prototype], the socket's listeners being called in
    their order of registration: a pushed [message_updated], with the chat
    room's listener registered, replaces in place every entry of the view
    that has its id, so that the view keeps its length and its ids and is
    unchanged when the id is not in it; a pushed [message_sent], and a
    pushed [receive_message] whose sender or receiver is the peer on
    screen, is appended at the end of the view without regard to its id,
    once for each time the chat room's listener of the event is
    registered, so not at all when it is not. *)
Theorem C8_snapshot_replaces_push_appends (st : Client.State) (cr : Client.ChatRoom) :
  Client.chatRoom st = Some cr →
  (∀ userId data,
     let st' := Client.step (Client.messages_fetched userId (Some data)) st in
     Claimed.view st' = data ∧
     (Client.setItem_ok (Client.storage st) = true → JS.truthy userId = true →
      JS.inherited (JS.prop_key userId) = false →
      Client.conversationStorage.getMessages (JS.prop_key userId) (Client.storage st')
      = data)) ∧
  (∀ me userId messages,
     StronglySorted (λ a b, (m_createdAt a ≤ m_createdAt b)%Z)
       (Rest.get_messages me userId messages)) ∧
  (∀ m ls,
     Client.listeners st = Some ls →
     Client.plain_key (Client.user_id st) (message_updated m) →
     Client.room_message_updated ∈ ls →
     let st' := Client.step (Client.pushed (message_updated m)) st in
     Claimed.view st' = Client.replace_by_id m (Claimed.view st) ∧
     length (Claimed.view st') = length (Claimed.view st) ∧
     m_id <$> Claimed.view st' = m_id <$> Claimed.view st ∧
     (∀ i x, Claimed.view st !! i = Some x →
        Claimed.view st' !! i = Some (if decide (m_id x = m_id m) then m else x)) ∧
     (m_id m ∉ m_id <$> Claimed.view st → Claimed.view st' = Claimed.view st)) ∧
  (∀ m ls,
     Client.listeners st = Some ls →
     Client.plain_key (Client.user_id st) (message_sent m) →
     Claimed.view (Client.step (Client.pushed (message_sent m)) st)
     = Claimed.view st ++ replicate (registered Client.room_message_sent ls) m) ∧
  (∀ m ls,
     Client.listeners st = Some ls →
     Client.plain_key (Client.user_id st) (receive_message m) →
     Claimed.view (Client.step (Client.pushed (receive_message m)) st)
     = if decide (Some (m_senderId m) = Client.cr_userId cr
                  ∨ m_receiverId m = Client.cr_userId cr)
       then Claimed.view st
            ++ replicate (registered Client.room_receive_message ls) m
       else Claimed.view st).
Proof.
  intros Hcr. unfold Claimed.view. split_and!.
  - intros userId data. cbn [Client.step Client.chatRoom Client.storage].
    rewrite Hcr. split; [done|]. intros Hok Hu _. rewrite Hu.
    by apply getMessages_setMessages.
  - apply get_messages_sorted.
  - intros m ls Hls _ Hin. cbn zeta. rewrite chatRoom_pushed, Hcr, Hls.
    cbn -[foldl room_call Client.replace_by_id registered decide].
    destruct (room_pushed_updated m ls cr) as [_ ->].
    rewrite decide_True by done.
    split_and!; [done|apply replace_by_id_length|apply replace_by_id_ids
                |apply replace_by_id_lookup|apply replace_by_id_absent].
  - intros m ls Hls _. rewrite chatRoom_pushed, Hcr, Hls.
    cbn -[foldl room_call Client.replace_by_id registered decide].
    by destruct (room_pushed_sent m ls cr) as [_ ->].
  - intros m ls Hls _. rewrite chatRoom_pushed, Hcr, Hls.
    cbn -[foldl room_call Client.replace_by_id registered decide].
    by destruct (room_pushed_received m ls cr) as [_ ->].
Qed.

Lemma C8_snapshot_replaces_push_appends_witness :
  let st := Ex.chatting in
  let data := [Ex.to_peer "2" 1; Ex.from_peer "3" 7] in
  let m := Ex.to_peer "4" 9 in
  Client.chatRoom st = Some (Client.mkChatRoom (Some "peer") [Ex.from_peer "1" 5] true) ∧
  Client.listeners st = Some (Client.ctx_listeners ++ Client.room_listeners) ∧
  Claimed.view (Client.step (Client.messages_fetched (Some "peer") (Some data)) st)
  = data ∧
  Claimed.view (Client.step (Client.pushed (message_sent m)) st)
  = [Ex.from_peer "1" 5; m].
Proof.
  intros st data m.
  destruct (C8_snapshot_replaces_push_appends st
              (Client.mkChatRoom (Some "peer") [Ex.from_peer "1" 5] true))
    as (Hsnap & _ & _ & Hsent & _); [reflexivity|].
  split_and!; [reflexivity|reflexivity|exact (proj1 (Hsnap (Some "peer") data))|].
  rewrite (Hsent m (Client.ctx_listeners ++ Client.room_listeners));
    [reflexivity|reflexivity|].
  intros key [= <-]. reflexivity.
Defined.


(** * Further properties of the server's socket handlers *)

(** ** Who an emit reaches *)

Section reach.

Lemma recipients_open_in_room w room :
  open_in_room w room (recipients (sockets w) (io_to [Some room])).
Proof.
  intros sid. rewrite elem_of_recipients. split.
  - intros (s & Hs & [Hc Hr]%reaches_room). eauto.
  - intros (s & Hs & Hc & Hr). exists s. split; [done|]. by apply reaches_room.
Qed.

Lemma recipients_socket_emit_iff ss socket sid :
  sid ∈ recipients ss (socket_emit socket) ↔
  sid = socket ∧ ∃ s, ss !! sid = Some s ∧ sock_connected s = true.
Proof.
  rewrite elem_of_recipients. unfold reaches. split.
  - intros (s & Hs & [Hc He]%andb_true_iff). apply bool_decide_eq_true in He. eauto.
  - intros (-> & s & Hs & Hc). exists s. split; [done|].
    rewrite Hc. cbn. by apply bool_decide_eq_true.
Qed.

Lemma recipients_socket_to ss socket room sid :
  sid ∈ recipients ss (socket_to socket room) ↔
  sid ≠ socket ∧
  ∃ s r, room = Some r ∧ ss !! sid = Some s ∧ sock_connected s = true ∧
         r ∈ sock_rooms s.
Proof.
  rewrite elem_of_recipients. unfold reaches, in_room. split.
  - intros (s & Hs & [Hc [Hne Hr]%andb_true_iff]%andb_true_iff).
    apply negb_true_iff, bool_decide_eq_false in Hne.
    destruct room as [r|]; [|done]. apply bool_decide_eq_true in Hr.
    split; [done|]. by exists s, r.
  - intros (Hne & s & r & -> & Hs & Hc & Hr). exists s. split; [done|].
    rewrite Hc. cbn. apply andb_true_iff. split.
    + by apply negb_true_iff, bool_decide_eq_false.
    + by apply bool_decide_eq_true.
Qed.

Lemma recipients_two_rooms ss a b sid :
  sid ∈ recipients ss (io_to [Some a; b]) ↔
  ∃ s, ss !! sid = Some s ∧ sock_connected s = true ∧
       (a ∈ sock_rooms s ∨ ∃ r, b = Some r ∧ r ∈ sock_rooms s).
Proof.
  rewrite elem_of_recipients. unfold reaches. cbn [existsb in_room]. split.
  - intros (s & Hs & [Hc Hr]%andb_true_iff). exists s. split_and!; [done..|].
    apply orb_true_iff in Hr as [Hr|Hr].
    + left. by apply bool_decide_eq_true in Hr.
    + right. rewrite orb_false_r in Hr. destruct b as [r|]; [|done].
      exists r. split; [done|]. by apply bool_decide_eq_true in Hr.
  - intros (s & Hs & Hc & Hr). exists s. split; [done|]. rewrite Hc. cbn.
    apply orb_true_iff. destruct Hr as [Hr|(r & -> & Hr)].
    + left. by apply bool_decide_eq_true.
    + right. rewrite orb_false_r. by apply bool_decide_eq_true.
Qed.
End reach.

(** ** Direct messages *)

(** X1.  A [send_message] with a receiver and no group, the messages file
    readable and writable: the new message is appended to the stored
    messages; exactly two emits are made, [receive_message] to the
    receiver's room, which reaches every open connection in that room and
    no other (none when the receiver is not connected: the message is
    stored all the same), and [message_sent] to the sending connection;
    both carry the stored message. *)
Theorem direct_send_stored_and_delivered
    (w : World) (socket : string) (d : SendData) (r : string) :
  sd_receiverId d = Some r → JS.truthy (sd_groupId d) = false →
  readable w Messages = true → writable w Messages = true →
  let w' := Server.deliver (Server.from_socket socket (Server.send_message (Some d))) w in
  let m := new_message w d in
  messages_json (disk w') = messages_json (disk w) ++ [m] ∧
  ∃ R1 R2,
    new_emissions w w'
    = [mkEmission (io_to [Some r]) (receive_message m) R1;
       mkEmission (socket_emit socket) (message_sent m) R2] ∧
    open_in_room w r R1 ∧
    (∀ sid, sid ∈ R2 ↔
            sid = socket ∧
            ∃ s, sockets w !! sid = Some s ∧ sock_connected s = true).
Proof.
  intros Hr Hg Hrd Hwr w' m. split.
  - unfold w'. rewrite send_disk, Hwr. cbn.
    by rewrite (read_db_readable _ Messages Hrd).
  - eexists _, _. split_and!.
    + unfold w'. rewrite send_emissions. unfold fanout. rewrite Hg, Hr.
      reflexivity.
    + apply recipients_open_in_room.
    + intros sid. apply recipients_socket_emit_iff.
Qed.

Lemma direct_send_stored_and_delivered_witness :
  let w := Ex.online in
  let w' := Server.deliver
              (Server.from_socket "s1" (Server.send_message (Some Ex.hi_bob))) w in
  sd_receiverId Ex.hi_bob = Some "bob" ∧
  JS.truthy (sd_groupId Ex.hi_bob) = false ∧
  readable w Messages = true ∧ writable w Messages = true ∧
  messages_json (disk w') = [Ex.M; new_message w Ex.hi_bob].
Proof.
  intros w w'. split_and!; [reflexivity..|].
  destruct (direct_send_stored_and_delivered w "s1" Ex.hi_bob "bob")
    as [Hd _]; [reflexivity..|]. exact Hd.
Defined.

(** ** A failed read *)

(** X2.  [readDatabase] answers a failed read with the empty list, and
    [send_message] writes what it read plus the new message: when
    [messages.json] cannot be read but can be written, the file afterwards
    holds the new message alone, and every message stored before is lost.
    The other handlers write nothing after a failed read: a reaction leaves
    the server as it was, and [join] and [disconnect] leave the files as
    they were. *)
Theorem failed_read_then_write (w : World) (socket : string) :
  (∀ d, readable w Messages = false → writable w Messages = true →
     messages_json
       (disk (Server.deliver
                (Server.from_socket socket (Server.send_message (Some d))) w))
     = [new_message w d]) ∧
  (∀ d, readable w Messages = false →
     Server.deliver (Server.from_socket socket (Server.message_reaction d)) w
     = w) ∧
  (∀ u, readable w Users = false →
     disk (Server.deliver (Server.from_socket socket (Server.join u)) w)
     = disk w) ∧
  (readable w Users = false →
     disk (Server.deliver (Server.from_socket socket Server.disconnect) w)
     = disk w).
Proof.
  split_and!.
  - intros d Hr Hw. rewrite send_disk, Hw. unfold read_db. by rewrite Hr.
  - intros [d|] Hr.
    + apply reaction_unresolved. unfold read_db. by rewrite Hr.
    + cbn [Server.deliver Server.handler Server.before].
      rewrite run_on_message_reaction_no_payload. unfold read_db. by rewrite Hr.
  - intros u Hr. cbn [Server.deliver Server.handler Server.before].
    rewrite run_on_join. unfold read_db. by rewrite Hr.
  - intros Hr. cbn [Server.deliver Server.handler Server.before].
    rewrite run_on_disconnect. cbn [snd]. destruct (joined_as _ _); [|done].
    unfold read_db. cbn. by rewrite Hr.
Qed.

Lemma failed_read_then_write_witness :
  let w := with_faults Ex.online Ex.all_but_messages Ex.all in
  readable w Messages = false ∧ writable w Messages = true ∧
  Ex.M ∈ messages_json (disk w) ∧
  messages_json
    (disk (Server.deliver
             (Server.from_socket "s1" (Server.send_message (Some Ex.hi_bob))) w))
  = [new_message w Ex.hi_bob].
Proof.
  intros w. split_and!; [reflexivity|reflexivity|by left|].
  apply (proj1 (failed_read_then_write w "s1")); reflexivity.
Defined.

(** ** Stored messages keep their identity *)

Section identity.

Lemma identity_of_reacted w d m0 : identity_of (reacted w d m0) = identity_of m0.
Proof. done. Qed.

Lemma fmap_insert_same {A B} (f : A → B) (l : list A) i x y :
  l !! i = Some x → f y = f x → f <$> <[i := y]> l = f <$> l.
Proof.
  intros Hi Hf. rewrite list_fmap_insert, Hf. apply list_insert_id.
  by rewrite list_lookup_fmap, Hi.
Qed.

Lemma list_find_read_db_Messages (P : Message → Prop) `{!∀ x, Decision (P x)}
    w i m0 :
  list_find P (read_db w Messages) = Some (i, m0) →
  read_db w Messages = messages_json (disk w) ∧ messages_json (disk w) !! i = Some m0.
Proof.
  unfold read_db. destruct (readable w Messages); [|done]. cbn.
  by intros (? & _)%list_find_Some.
Qed.

(** The messages file after an input. *)
Lemma deliver_messages i w :
  let ms := messages_json (disk w) in
  let ms' := messages_json (disk (Server.deliver i w)) in
  ms' = ms
  ∨ (∃ socket d, i = Server.from_socket socket (Server.send_message (Some d)) ∧
       writable w Messages = true ∧
       ms' = read_db w Messages ++ [new_message w d])
  ∨ (∃ socket d j m0,
       i = Server.from_socket socket (Server.message_reaction (Some d)) ∧
       ms !! j = Some m0 ∧ ms' = <[j := reacted w d m0]> ms).
Proof.
  intros ms ms'. unfold ms, ms'.
  destruct i as [socket ev|rd wr]; [|by left].
  destruct ev as [|u|[d|]|[d|]|d|g|g|]; cbn [Server.deliver Server.handler Server.before].
  - by left.
  - left. rewrite run_on_join. cbn [snd]. destruct (list_find _ _) as [[j x]|]; [|done].
    cbn zeta. unfold write_db. by destruct (writable _ _).
  - rewrite <- (deliver_send_message socket d w), send_disk. destruct (writable w Messages) eqn:Hw; [|by left].
    right; left. by exists socket, d.
  - left. by rewrite run_on_send_message_no_payload.
  - rewrite run_on_message_reaction. cbn [snd].
    destruct (list_find _ _) as [[j m0]|] eqn:Hf; [|by left].
    apply list_find_read_db_Messages in Hf as [Hrd Hj]. rewrite Hrd.
    cbn zeta. unfold write_db.
    destruct (writable _ _).
    + right; right. exists socket, d, j, m0. split_and!; [done| |].
      * done.
      * done.
    + left. cbn. unfold after_toggle.
      by destruct (find_reaction (rd_userId d) (m_reactions m0)).
  - left. rewrite run_on_message_reaction_no_payload. cbn [snd].
    by destruct (read_db w Messages).
  - left. by rewrite run_on_typing.
  - by left.
  - by left.
  - left. rewrite run_on_disconnect. cbn [snd].
    destruct (joined_as _ _); [|done]. cbn zeta.
    destruct (list_find _ _) as [[j x]|]; [|done].
    cbn zeta. unfold write_db. by destruct (writable _ _).
Qed.
End identity.


(** ** Reactions on direct messages *)

(** X4.  A [message_reaction] on a stored direct message makes exactly one
    emit, [message_updated] with the message as it is after the toggle,
    addressed to the rooms of the message's sender and receiver: it
    reaches every open connection in one of the two rooms and no other, so
    a reacting connection outside both rooms is not told.  When the file
    is writable the emitted message is the stored one. *)
Theorem direct_reaction_updates_both_parties
    (w : World) (socket : string) (d : ReactionData) (i : nat) (m0 : Message) :
  list_find (λ m, Some (m_id m) = rd_messageId d) (read_db w Messages)
    = Some (i, m0) →
  JS.truthy (m_groupId m0) = false →
  let w' := Server.deliver
              (Server.from_socket socket (Server.message_reaction (Some d))) w in
  let m := reacted w d m0 in
  (∃ R,
     new_emissions w w'
     = [mkEmission (io_to [Some (m_senderId m0); m_receiverId m0])
          (message_updated m) R] ∧
     ∀ sid, sid ∈ R ↔
       ∃ s, sockets w !! sid = Some s ∧ sock_connected s = true ∧
            (m_senderId m0 ∈ sock_rooms s
             ∨ ∃ r, m_receiverId m0 = Some r ∧ r ∈ sock_rooms s)) ∧
  (writable w Messages = true → messages_json (disk w') !! i = Some m).
Proof.
  intros Hf Hg w' m. split.
  - eexists. split.
    + unfold w'. rewrite (reaction_emissions _ _ _ _ _ Hf). unfold fanout.
      change (m_groupId (reacted w d m0)) with (m_groupId m0). rewrite Hg.
      reflexivity.
    + intros sid. apply recipients_two_rooms.
  - intros Hw.
    destruct (list_find_read_db_Messages _ _ _ _ Hf) as [Hrd Hi].
    assert (readable w Messages = true) as Hr.
    { unfold read_db in Hf. by destruct (readable w Messages). }
    rewrite Hrd in Hf.
    destruct (reaction_stored socket d w i m0 Hr Hw Hf) as [Hd _].
    unfold w', m. rewrite Hd. apply list_lookup_insert_eq. by eapply lookup_lt_Some.
Qed.

Lemma direct_reaction_updates_both_parties_witness :
  let w := Ex.online in
  let w' := Server.deliver
              (Server.from_socket "s2" (Server.message_reaction (Some Ex.bob_likes))) w in
  list_find (λ m, Some (m_id m) = rd_messageId Ex.bob_likes) (read_db w Messages)
    = Some (0, Ex.M) ∧
  JS.truthy (m_groupId Ex.M) = false ∧
  writable w Messages = true ∧
  messages_json (disk w') !! 0 = Some (reacted w Ex.bob_likes Ex.M).
Proof.
  intros w w'. split_and!; [reflexivity..|].
  apply (direct_reaction_updates_both_parties w "s2" Ex.bob_likes 0 Ex.M);
    reflexivity.
Defined.


(** ** Each handler touches its own part of the state *)

Section frame.

Lemma disk_joined w socket u : disk (joined w socket u) = disk w.
Proof. done. Qed.

Lemma deliver_groups i w :
  groups_json (disk (Server.deliver i w)) = groups_json (disk w).
Proof.
  destruct i as [socket ev|rd wr]; [|done].
  destruct ev as [|u|[d|]|[d|]|d|g|g|]; cbn [Server.deliver Server.handler Server.before].
  - done.
  - rewrite run_on_join. cbn [snd]. destruct (list_find _ _) as [[j x]|]; [|done].
    cbn zeta. unfold write_db. by destruct (writable _ _).
  - rewrite <- (deliver_send_message socket d w), send_disk.
    by destruct (writable w Messages).
  - by rewrite run_on_send_message_no_payload.
  - rewrite run_on_message_reaction. cbn [snd].
    destruct (list_find _ _) as [[j m0]|]; [|done].
    cbn zeta. unfold write_db, after_toggle.
    by destruct (find_reaction (rd_userId d) (m_reactions m0)), (writable _ _).
  - rewrite run_on_message_reaction_no_payload. cbn [snd].
    by destruct (read_db w Messages).
  - by rewrite run_on_typing.
  - done.
  - done.
  - rewrite run_on_disconnect. cbn [snd].
    destruct (joined_as _ _); [|done]. cbn zeta.
    destruct (list_find _ _) as [[j x]|]; [|done].
    cbn zeta. unfold write_db. by destruct (writable _ _).
Qed.

(** The id source after an input: one id is drawn by [send_message], none
    by the other events. *)
Lemma deliver_uuid i w :
  uuid_src (Server.deliver i w) = uuid_src w ∧
  uuid_n (Server.deliver i w)
  = match i with
    | Server.from_socket _ (Server.send_message _) => S (uuid_n w)
    | _ => uuid_n w
    end.
Proof.
  destruct i as [socket ev|rd wr]; [|done].
  destruct ev as [|u|[d|]|[d|]|d|g|g|]; cbn [Server.deliver Server.handler Server.before].
  - done.
  - rewrite run_on_join. cbn [snd]. destruct (list_find _ _) as [[j x]|]; [|done].
    cbn zeta. unfold write_db. by destruct (writable _ _).
  - rewrite run_on_send_message. cbn [snd]. unfold write_db.
    by destruct (writable _ _).
  - by rewrite run_on_send_message_no_payload.
  - rewrite run_on_message_reaction. cbn [snd].
    destruct (list_find _ _) as [[j m0]|]; [|done].
    cbn zeta. unfold write_db, after_toggle.
    by destruct (find_reaction (rd_userId d) (m_reactions m0)), (writable _ _).
  - rewrite run_on_message_reaction_no_payload. cbn [snd].
    by destruct (read_db w Messages).
  - by rewrite run_on_typing.
  - done.
  - done.
  - rewrite run_on_disconnect. cbn [snd].
    destruct (joined_as _ _); [|done]. cbn zeta.
    destruct (list_find _ _) as [[j x]|]; [|done].
    cbn zeta. unfold write_db. by destruct (writable _ _).
Qed.
End frame.

(** X5.  No socket event writes [groups.json].  [send_message],
    [message_reaction] and [typing] leave the users file, the connections
    with their rooms and the registry of connected users as they are; all
    other events leave the messages file as it is. *)
Theorem socket_events_touch_only_their_part (i : Server.Input) (w : World) :
  let w' := Server.deliver i w in
  groups_json (disk w') = groups_json (disk w) ∧
  match i with
  | Server.from_socket _ (Server.send_message _)
  | Server.from_socket _ (Server.message_reaction _)
  | Server.from_socket _ (Server.typing _) =>
      users_json (disk w') = users_json (disk w) ∧
      sockets w' = sockets w ∧ connectedUsers w' = connectedUsers w
  | _ => messages_json (disk w') = messages_json (disk w)
  end.
Proof.
  intros w'. split; [apply deliver_groups|]. unfold w'.
  destruct i as [socket ev|rd wr]; [|done].
  destruct ev as [|u|[d|]|[d|]|d|g|g|]; cbn [Server.deliver Server.handler Server.before].
  - done.
  - rewrite run_on_join. cbn [snd]. destruct (list_find _ _) as [[j x]|]; [|done].
    cbn zeta. unfold write_db. by destruct (writable _ _).
  - rewrite run_on_send_message. cbn [snd]. unfold write_db.
    by destruct (writable _ _).
  - by rewrite run_on_send_message_no_payload.
  - rewrite run_on_message_reaction. cbn [snd].
    destruct (list_find _ _) as [[j m0]|]; [|done].
    cbn zeta. unfold write_db, after_toggle.
    by destruct (find_reaction (rd_userId d) (m_reactions m0)), (writable _ _).
  - rewrite run_on_message_reaction_no_payload. cbn [snd].
    by destruct (read_db w Messages).
  - by rewrite run_on_typing.
  - done.
  - done.
  - rewrite run_on_disconnect. cbn [snd].
    destruct (joined_as _ _); [|done]. cbn zeta.
    destruct (list_find _ _) as [[j x]|]; [|done].
    cbn zeta. unfold write_db. by destruct (writable _ _).
Qed.

(** ** Typing notifications *)

(** X6.  [typing] stores nothing and makes one emit, [user_typing] with
    the sender id and flag of the payload, addressed from the sending
    connection to the group's room when a group id is given and to the
    receiver's room otherwise: it reaches the open connections in that
    room other than the sending one, and so nobody when neither id is
    given. *)
Theorem typing_is_relayed_not_stored (socket : string) (d : TypingData) (w : World) :
  let w' := Server.deliver (Server.from_socket socket (Server.typing d)) w in
  let room := if JS.truthy (td_groupId d) then td_groupId d else td_receiverId d in
  disk w' = disk w ∧
  ∃ R, new_emissions w w'
       = [mkEmission (socket_to socket room)
            (user_typing (td_senderId d) (td_isTyping d)) R] ∧
       (∀ sid, sid ∈ R ↔
          sid ≠ socket ∧
          ∃ s r, room = Some r ∧ sockets w !! sid = Some s ∧
                 sock_connected s = true ∧ r ∈ sock_rooms s).
Proof.
  intros w' room. unfold w'.
  cbn [Server.deliver Server.handler Server.before]. rewrite run_on_typing.
  cbn [snd]. split; [done|]. eexists. split.
  - by apply new_emissions_app.
  - intros sid. apply recipients_socket_to.
Qed.

(** ** Joining *)

Section joining.

Lemma sockets_joined_ne w socket u sid :
  sid ≠ socket → sockets (joined w socket u) !! sid = sockets w !! sid.
Proof.
  intros Hne. unfold joined. cbn. by rewrite !lookup_alter_ne.
Qed.

Lemma sockets_joined w socket u s :
  sockets w !! socket = Some s →
  sockets (joined w socket u) !! socket
  = Some (mkSocket (Some u) ({[u]} ∪ sock_rooms s) (sock_connected s)).
Proof.
  intros Hs. unfold joined. cbn. by rewrite !lookup_alter_eq, Hs.
Qed.

Lemma others_open_joined w socket u :
  others_open w socket (recipients (sockets (joined w socket u)) (socket_broadcast socket)).
Proof.
  intros sid. rewrite recipients_broadcast. split.
  - intros (Hne & s & Hs & Hc). rewrite sockets_joined_ne in Hs by done. eauto.
  - intros (Hne & s & Hs & Hc). split; [done|]. exists s.
    by rewrite sockets_joined_ne.
Qed.
End joining.

(** X7.  [join] of a stored user on an open connection, the users file
    readable and writable: the user's record is flagged online, the
    connection is registered for the user and put in the user's room, and
    one [user_online] is broadcast, which reaches every other open
    connection and not the joining one. *)
Theorem join_marks_online_and_announces
    (w : World) (socket u : string) (s : Socket) (j : nat) (x : User) :
  sockets w !! socket = Some s →
  readable w Users = true → writable w Users = true →
  list_find (λ v, u_id v = u) (users_json (disk w)) = Some (j, x) →
  let w' := Server.deliver (Server.from_socket socket (Server.join u)) w in
  isOnline u (disk w') = Some true ∧
  connectedUsers w' !! u = Some socket ∧
  sockets w' !! socket
    = Some (mkSocket (Some u) ({[u]} ∪ sock_rooms s) (sock_connected s)) ∧
  ∃ R, new_emissions w w'
       = [mkEmission (socket_broadcast socket) (user_online u) R] ∧
       others_open w socket R.
Proof.
  intros Hs Hr Hw Hf w'. unfold w'.
  cbn [Server.deliver Server.handler Server.before]. rewrite run_on_join.
  cbn [snd]. rewrite (read_db_readable _ Users Hr). cbn [disk_get]. rewrite Hf.
  cbn zeta. unfold write_db.
  change (writable (next_clock (joined w socket u)) Users) with (writable w Users).
  rewrite Hw. split_and!.
  - unfold isOnline. cbn.
    by rewrite (list_find_insert_found _ _ _ _
                  (set_presence x true (clock_src w (clock_n w))) Hf)
      by by apply list_find_Some in Hf as (_ & ? & _).
  - cbn. by rewrite lookup_insert_eq.
  - change (sockets _) with (sockets (joined w socket u)).
    by apply sockets_joined.
  - eexists. split; [by apply new_emissions_app|]. apply others_open_joined.
Qed.

Lemma join_marks_online_and_announces_witness :
  let w := Server.deliver (Server.from_socket "s1" Server.connection) Ex.started in
  sockets w !! "s1" = Some (mkSocket None {["s1"]} true) ∧
  readable w Users = true ∧ writable w Users = true ∧
  list_find (λ v, u_id v = "alice") (users_json (disk w))
    = Some (0, Ex.user "alice") ∧
  isOnline "alice"
    (disk (Server.deliver (Server.from_socket "s1" (Server.join "alice")) w))
  = Some true.
Proof.
  intros w. split_and!; [reflexivity..|].
  apply (join_marks_online_and_announces w "s1" "alice"
           (mkSocket None {["s1"]} true) 0 (Ex.user "alice")); reflexivity.
Defined.

(** ** Rooms are not checked *)

(** X8.  [join_group] puts the connection in the room it names without
    checking that the room is a group or that the user belongs to it: an
    open connection that sends [join_group] with the id of a user then
    receives the direct messages sent to that user. *)
Theorem join_group_is_not_checked
    (w : World) (socket r sender : string) (s : Socket) (d : SendData) :
  sockets w !! socket = Some s → sock_connected s = true →
  sd_receiverId d = Some r → JS.truthy (sd_groupId d) = false →
  let w1 := Server.deliver (Server.from_socket socket (Server.join_group r)) w in
  let w2 := Server.deliver
              (Server.from_socket sender (Server.send_message (Some d))) w1 in
  ∃ R, mkEmission (io_to [Some r]) (receive_message (new_message w1 d)) R
         ∈ new_emissions w1 w2 ∧
       socket ∈ R.
Proof.
  intros Hs Hc Hr Hg w1 w2. eexists. split.
  - unfold w2. rewrite send_emissions. unfold fanout. rewrite Hg, Hr. by left.
  - apply recipients_open_in_room.
    exists (mkSocket (sock_userId s) ({[r]} ∪ sock_rooms s) (sock_connected s)).
    split_and!; [|done|set_solver].
    unfold w1. cbn. by rewrite lookup_alter_eq, Hs.
Qed.

Lemma join_group_is_not_checked_witness :
  let w := Ex.online in
  let w1 := Server.deliver (Server.from_socket "s2" (Server.join_group "carol")) w in
  let d := mkSendData "alice" (Some "carol") None "secret" None None None in
  let w2 := Server.deliver (Server.from_socket "s1" (Server.send_message (Some d))) w1 in
  sockets w !! "s2" = Some (mkSocket (Some "bob") {["bob"; "s2"]} true) ∧
  ∃ R, mkEmission (io_to [Some "carol"]) (receive_message (new_message w1 d)) R
         ∈ new_emissions w1 w2 ∧
       "s2" ∈ R.
Proof.
  intros w w1 d w2. split; [by vm_compute|].
  apply (join_group_is_not_checked w "s2" "carol" "s1"
           (mkSocket (Some "bob") {["bob"; "s2"]} true) d); by vm_compute.
Defined.

(** X9.  [leave_group] takes the connection out of the room it names,
    whatever room that is: after [leave_group] with the id of the user it
    joined as, the connection is no longer reached by what is sent to that
    user's room, and a [join_group] with the same id puts it back. *)
Theorem leave_group_leaves_any_room (w : World) (socket r : string) :
  let w1 := Server.deliver (Server.from_socket socket (Server.leave_group r)) w in
  let w2 := Server.deliver (Server.from_socket socket (Server.join_group r)) w1 in
  (socket ∉ recipients (sockets w1) (io_to [Some r])) ∧
  (socket ∈ recipients (sockets w2) (io_to [Some r]) ↔
   ∃ s, sockets w !! socket = Some s ∧ sock_connected s = true).
Proof.
  intros w1 w2. split.
  - intros (s & Hs & Hc & Hr)%recipients_open_in_room.
    unfold w1 in Hs. cbn in Hs. rewrite lookup_alter_eq in Hs.
    destruct (sockets w !! socket) as [s0|]; [|done]. cbn in Hs.
    injection Hs as <-. cbn in Hr.
    apply elem_of_difference in Hr as [_ Hr]. by apply Hr, elem_of_singleton.
  - split.
    + intros (s & Hs & Hc & Hr)%recipients_open_in_room.
      unfold w2, w1 in Hs. cbn in Hs. rewrite !lookup_alter_eq in Hs.
      destruct (sockets w !! socket) as [s0|]; [|done]. cbn in Hs.
      injection Hs as <-. by exists s0.
    + intros (s & Hs & Hc). apply recipients_open_in_room.
      eexists. split_and!.
      * unfold w2, w1. cbn. by rewrite !lookup_alter_eq, Hs.
      * done.
      * cbn. set_solver.
Qed.


(** * Further properties of the REST routes *)

(** ** Creating a group *)

(** X10.  [POST /api/groups] with a non-empty name and a member array
    answers 200 with the new group: created by the requester, who is its
    first member, the members being the requester and the given members,
    each once whatever the array repeats.  The group is appended to the
    stored groups when [groups.json] can be written; when it cannot, the
    answer is the same and nothing is stored. *)
Theorem post_groups_creates_group
    (w : World) (me name : string) (members : list string) :
  JS.truthy (Some name) = true →
  ∃ g w',
    respond (RestApi.POST_groups me (RestApi.mkGroupBody (Some name) (Some members))) w
    = (Some (RestApi.mkResponse 200 (RestApi.group g)), w') ∧
    g_createdBy g = me ∧ g_name g = name ∧
    g_id g = uuid_src w (uuid_n w) ∧
    NoDup (g_members g) ∧ head (g_members g) = Some me ∧
    (∀ x, x ∈ g_members g ↔ x = me ∨ x ∈ members) ∧
    groups_json (disk w')
    = if writable w Groups then read_db w Groups ++ [g] else groups_json (disk w).
Proof.
  intros Hname. unfold respond. cbn [RestApi.route].
  rewrite run_post_groups. cbn [RestApi.gb_members RestApi.gb_name]. rewrite Hname.
  cbn zeta. eexists _, _. split; [reflexivity|].
  destruct (set_spread_cons me members) as (H1 & H2 & H3).
  split_and!; [done..|].
  unfold write_db. cbn. by destruct (writable w Groups).
Qed.

Lemma post_groups_creates_group_witness :
  JS.truthy (Some "crew") = true ∧
  ∃ g w',
    respond (RestApi.POST_groups "bob"
               (RestApi.mkGroupBody (Some "crew") (Some ["carol"; "bob"; "carol"])))
      Ex.started
    = (Some (RestApi.mkResponse 200 (RestApi.group g)), w') ∧
    g_members g = ["bob"; "carol"].
Proof.
  split; [reflexivity|].
  destruct (post_groups_creates_group Ex.started "bob" "crew" ["carol"; "bob"; "carol"])
    as (g & w' & Hres & _); [reflexivity|].
  exists g, w'. split; [exact Hres|].
  unfold respond in Hres. vm_compute in Hres. by injection Hres as <- <-.
Defined.

(** ** Requests that are turned down *)

(** X11.  A request that is turned down changes nothing on the server:
    [POST /api/groups] without a member array or with a missing or empty
    name answers 400; [DELETE /api/groups/:id] answers 404 when no stored
    group has the id and 403 when the first group with the id was created
    by somebody else. *)
Theorem rejected_requests_change_nothing (w : World) (me : string) :
  (∀ b, RestApi.gb_members b = None ∨ JS.truthy (RestApi.gb_name b) = false →
     respond (RestApi.POST_groups me b) w
     = (Some (RestApi.mkResponse 400
                (RestApi.error "Group name and members are required")), w)) ∧
  (∀ id, list_find (λ g, g_id g = id) (read_db w Groups) = None →
     respond (RestApi.DELETE_groups_id me id) w
     = (Some (RestApi.mkResponse 404 (RestApi.error "Group not found")), w)) ∧
  (∀ id i g, list_find (λ g, g_id g = id) (read_db w Groups) = Some (i, g) →
     g_createdBy g ≠ me →
     respond (RestApi.DELETE_groups_id me id) w
     = (Some (RestApi.mkResponse 403
                (RestApi.error "Only group creator can delete the group")), w)).
Proof.
  unfold respond. cbn [RestApi.route]. split_and!.
  - intros b Hb. rewrite run_post_groups.
    destruct (RestApi.gb_members b); [|done].
    destruct Hb as [?| ->]; done.
  - intros id Hf. by rewrite run_delete_groups_id, Hf.
  - intros id i g Hf Hne. rewrite run_delete_groups_id, Hf.
    by rewrite decide_True.
Qed.

Lemma rejected_requests_change_nothing_witness :
  list_find (λ g, g_id g = "g1") (read_db Ex.started Groups) = Some (0, Ex.G) ∧
  g_createdBy Ex.G ≠ "bob" ∧
  respond (RestApi.DELETE_groups_id "bob" "g1") Ex.started
  = (Some (RestApi.mkResponse 403
             (RestApi.error "Only group creator can delete the group")),
     Ex.started).
Proof.
  split_and!; [reflexivity|by vm_compute|].
  apply (proj2 (proj2 (rejected_requests_change_nothing Ex.started "bob"))
           "g1" 0 Ex.G); [reflexivity|by vm_compute].
Defined.

(** ** Deleting a group *)

(** X12.  [DELETE /api/groups/:id] by the creator of the first stored
    group with the id, [groups.json] readable and writable, answers 200 and
    removes that group and no other: the other groups stay in their order,
    and when ids are unique no group with the id is left.  The messages of
    the group are not touched: [messages.json] is as before. *)
Theorem delete_group_removes_that_group
    (w : World) (me id : string) (i : nat) (g : Group) :
  readable w Groups = true → writable w Groups = true →
  list_find (λ g, g_id g = id) (groups_json (disk w)) = Some (i, g) →
  g_createdBy g = me →
  ∃ w',
    respond (RestApi.DELETE_groups_id me id) w
    = (Some (RestApi.mkResponse 200
               (RestApi.message "Group deleted successfully")), w') ∧
    groups_json (disk w')
    = take i (groups_json (disk w)) ++ drop (S i) (groups_json (disk w)) ∧
    messages_json (disk w') = messages_json (disk w) ∧
    (NoDup (g_id <$> groups_json (disk w)) →
     id ∉ g_id <$> groups_json (disk w')).
Proof.
  intros Hr Hw Hf Hme. unfold respond. cbn [RestApi.route].
  rewrite run_delete_groups_id, (read_db_readable _ Groups Hr). cbn [disk_get].
  rewrite Hf, decide_False by (by intros []).
  eexists. split; [reflexivity|]. unfold write_db. rewrite Hw. cbn.
  rewrite delete_take_drop. split_and!; [done..|].
  intros Hnd. apply list_find_Some in Hf as (Hi & Hid & _).
  rewrite <- (take_drop_middle _ _ _ Hi) in Hnd.
  rewrite fmap_app, fmap_cons, Hid in Hnd.
  apply NoDup_app in Hnd as (_ & Hdis & [Hnot _]%NoDup_cons).
  rewrite fmap_app, elem_of_app. intros [Hin|Hin]; [|done].
  apply (Hdis _ Hin). by left.
Qed.

Lemma delete_group_removes_that_group_witness :
  readable Ex.started Groups = true ∧ writable Ex.started Groups = true ∧
  list_find (λ g, g_id g = "g1") (groups_json (disk Ex.started)) = Some (0, Ex.G) ∧
  g_createdBy Ex.G = "alice" ∧
  ∃ w',
    respond (RestApi.DELETE_groups_id "alice" "g1") Ex.started
    = (Some (RestApi.mkResponse 200
               (RestApi.message "Group deleted successfully")), w') ∧
    groups_json (disk w') = [].
Proof.
  split_and!; [reflexivity..|].
  destruct (delete_group_removes_that_group Ex.started "alice" "g1" 0 Ex.G)
    as (w' & Hres & Hg & _); [reflexivity..|].
  exists w'. split; [exact Hres|]. exact Hg.
Defined.

(** ** Snapshots *)

Section snapshots.

Lemma sort_by_createdAt_sorted l :
  StronglySorted (λ a b, (m_createdAt a ≤ m_createdAt b)%Z)
    (Rest.sort_by_createdAt l).
Proof.
  unfold Rest.sort_by_createdAt. induction l as [|m l IH]; cbn; [constructor|].
  by apply insert_by_createdAt_sorted.
Qed.

Lemma sort_by_createdAt_perm l : Rest.sort_by_createdAt l ≡ₚ l.
Proof.
  unfold Rest.sort_by_createdAt. induction l as [|m l IH]; cbn; [done|].
  by rewrite insert_by_createdAt_perm, IH.
Qed.

Lemma StronglySorted_filter {A} (R : relation A) (P : A → Prop)
    `{!∀ x, Decision (P x)} l :
  StronglySorted R l → StronglySorted R (filter P l).
Proof.
  induction 1 as [|x l Hl IH Hx]; [constructor|]. rewrite filter_cons.
  case_decide; [|done]. constructor; [done|].
  apply Forall_forall. intros y [_ Hy]%list_elem_of_filter.
  by eapply Forall_forall in Hx.
Qed.

Lemma sort_by_createdAt_sorted_id l :
  StronglySorted (λ a b, (m_createdAt a ≤ m_createdAt b)%Z) l →
  Rest.sort_by_createdAt l = l.
Proof.
  unfold Rest.sort_by_createdAt.
  induction 1 as [|x l Hl IH Hx]; [done|]. cbn. rewrite IH.
  destruct Hx as [|y l' Hy _]; [done|]. cbn. rewrite decide_True; [done|]. lia.
Qed.

Lemma get_messages_sym a b ms : Rest.get_messages a b ms = Rest.get_messages b a ms.
Proof.
  unfold Rest.get_messages. f_equal. apply list_filter_iff. intros m. tauto.
Qed.
End snapshots.

(** X13.  [GET /api/messages/:userId] answers 200 with the stored messages
    between the requester and the user, each as often as it is stored, in
    order of creation time; the two users get the same list.  It changes
    nothing on the server, and answers 200 with the empty list when
    [messages.json] cannot be read. *)
Theorem conversation_snapshot (w : World) (me userId : string) :
  ∃ ms,
    respond (RestApi.GET_messages me userId) w
    = (Some (RestApi.mkResponse 200 (RestApi.messages ms)), w) ∧
    respond (RestApi.GET_messages userId me) w
    = (Some (RestApi.mkResponse 200 (RestApi.messages ms)), w) ∧
    StronglySorted (λ a b, (m_createdAt a ≤ m_createdAt b)%Z) ms ∧
    ms ≡ₚ filter (λ m, (m_senderId m = me ∧ m_receiverId m = Some userId) ∨
                       (m_senderId m = userId ∧ m_receiverId m = Some me))
            (read_db w Messages) ∧
    (readable w Messages = false → ms = []).
Proof.
  exists (Rest.get_messages me userId (read_db w Messages)).
  unfold respond. cbn [RestApi.route]. rewrite !run_get_messages.
  split_and!.
  - done.
  - by rewrite (get_messages_sym userId me).
  - apply get_messages_sorted.
  - apply get_messages_perm.
  - intros Hr. unfold read_db. by rewrite Hr.
Qed.

Lemma conversation_snapshot_witness :
  let w := with_faults Ex.online Ex.all_but_messages Ex.all in
  readable w Messages = false ∧
  respond (RestApi.GET_messages "alice" "bob") w
  = (Some (RestApi.mkResponse 200 (RestApi.messages [])), w).
Proof.
  intros w. split; [reflexivity|].
  destruct (conversation_snapshot w "alice" "bob") as (ms & Hres & _ & _ & _ & Hnil).
  by rewrite Hres, Hnil.
Defined.

(** X14.  [GET /api/groups/:groupId/messages] answers 200 with the stored
    messages of the group, each as often as it is stored, in order of
    creation time, and changes nothing on the server.  When the messages
    are stored in order of creation time, the answer is the group's
    messages in their stored order. *)
Theorem group_snapshot (w : World) (groupId : string) :
  ∃ ms,
    respond (RestApi.GET_groups_messages groupId) w
    = (Some (RestApi.mkResponse 200 (RestApi.messages ms)), w) ∧
    StronglySorted (λ a b, (m_createdAt a ≤ m_createdAt b)%Z) ms ∧
    ms ≡ₚ filter (λ m, m_groupId m = Some groupId) (read_db w Messages) ∧
    (StronglySorted (λ a b, (m_createdAt a ≤ m_createdAt b)%Z)
       (read_db w Messages) →
     ms = filter (λ m, m_groupId m = Some groupId) (read_db w Messages)).
Proof.
  eexists. unfold respond. cbn [RestApi.route]. rewrite run_get_groups_messages.
  split_and!; [reflexivity|apply sort_by_createdAt_sorted
              |apply sort_by_createdAt_perm|].
  intros Hs. by apply sort_by_createdAt_sorted_id, StronglySorted_filter.
Qed.

Lemma group_snapshot_witness :
  let w := Server.deliver
             (Server.from_socket "s1" (Server.send_message (Some Ex.hi_group)))
             Ex.online in
  let sent :=
    mkMessage "A" "alice" None (Some "g1") "hi" "text" None None 103 104 [] []
      false in
  read_db w Messages = [Ex.M; sent] ∧
  ∃ ms,
    respond (RestApi.GET_groups_messages "g1") w
    = (Some (RestApi.mkResponse 200 (RestApi.messages ms)), w) ∧
    ms = [sent].
Proof.
  intros w sent.
  assert (read_db w Messages = [Ex.M; sent]) as Hrd by (by vm_compute).
  split; [exact Hrd|].
  destruct (group_snapshot w "g1") as (ms & Hres & _ & _ & Heq).
  exists ms. split; [exact Hres|]. rewrite Heq.
  - rewrite Hrd. by vm_compute.
  - rewrite Hrd. constructor; [constructor; [constructor|constructor]|].
    constructor; [by vm_compute|constructor].
Defined.

(** ** The routes never fail *)


(** ** What is written can be fetched *)

(** X16.  After [POST /api/groups] created a group, [groups.json] readable
    and writable, [GET /api/groups] lists the group for its creator and for
    every member named in the request. *)
Theorem created_group_is_listed
    (w : World) (me name x : string) (members : list string) :
  JS.truthy (Some name) = true →
  readable w Groups = true → writable w Groups = true →
  x = me ∨ x ∈ members →
  let w1 := (respond (RestApi.POST_groups me
                        (RestApi.mkGroupBody (Some name) (Some members))) w).2 in
  ∃ gs, respond (RestApi.GET_groups x) w1
        = (Some (RestApi.mkResponse 200 (RestApi.groups gs)), w1) ∧
        new_group w me name members ∈ gs.
Proof.
  intros Hname Hr Hw Hx w1. eexists. split.
  - unfold respond. cbn [RestApi.route]. by rewrite run_get_groups.
  - apply list_elem_of_filter. split.
    + left. by apply set_spread_cons.
    + unfold w1, respond. cbn [RestApi.route]. rewrite run_post_groups.
      cbn [RestApi.gb_members RestApi.gb_name]. rewrite Hname. cbn [snd JS.prop_key].
      unfold write_db, read_db. cbn. rewrite Hw. cbn. rewrite Hr. cbn.
      apply elem_of_app. right. by left.
Qed.

Lemma created_group_is_listed_witness :
  let w1 := (respond (RestApi.POST_groups "bob"
                        (RestApi.mkGroupBody (Some "crew") (Some ["carol"])))
               Ex.started).2 in
  JS.truthy (Some "crew") = true ∧
  readable Ex.started Groups = true ∧ writable Ex.started Groups = true ∧
  "carol" ∈ ["carol"] ∧
  ∃ gs, respond (RestApi.GET_groups "carol") w1
        = (Some (RestApi.mkResponse 200 (RestApi.groups gs)), w1) ∧
        new_group Ex.started "bob" "crew" ["carol"] ∈ gs.
Proof.
  intros w1. split_and!; [reflexivity..|by left|].
  apply (created_group_is_listed Ex.started "bob" "crew" "carol" ["carol"]);
    [reflexivity..|]. right. by left.
Defined.

(** X17.  A message that [send_message] stored is served by the snapshot
    routes: a direct message by [GET /api/messages/:userId] to its sender
    asking for the receiver and to its receiver asking for the sender, a
    message with a group id by [GET /api/groups/:groupId/messages]. *)
Theorem stored_message_is_served
    (w : World) (socket : string) (d : SendData) :
  readable w Messages = true → writable w Messages = true →
  let w1 := Server.deliver
              (Server.from_socket socket (Server.send_message (Some d))) w in
  let m := new_message w d in
  (∀ r, sd_receiverId d = Some r →
     ∃ ms, respond (RestApi.GET_messages (sd_senderId d) r) w1
           = (Some (RestApi.mkResponse 200 (RestApi.messages ms)), w1) ∧
           respond (RestApi.GET_messages r (sd_senderId d)) w1
           = (Some (RestApi.mkResponse 200 (RestApi.messages ms)), w1) ∧
           m ∈ ms) ∧
  (∀ g, sd_groupId d = Some g →
     ∃ ms, respond (RestApi.GET_groups_messages g) w1
           = (Some (RestApi.mkResponse 200 (RestApi.messages ms)), w1) ∧
           m ∈ ms).
Proof.
  intros Hr Hw w1 m.
  assert (m ∈ read_db w1 Messages) as Hm.
  { unfold read_db, w1.
    assert (readable (Server.deliver
              (Server.from_socket socket (Server.send_message (Some d))) w)
              Messages = true) as ->.
    { rewrite deliver_send_message, run_on_send_message. cbn [snd].
      unfold write_db. by destruct (writable _ _). }
    cbn [disk_get]. rewrite send_disk, Hw. cbn.
    apply elem_of_app. right. by left. }
  split.
  - intros r Hrec. exists (Rest.get_messages (sd_senderId d) r (read_db w1 Messages)).
    unfold respond. cbn [RestApi.route]. rewrite !run_get_messages.
    split_and!; [done|by rewrite (get_messages_sym r)|].
    rewrite get_messages_perm. apply list_elem_of_filter. split; [|done].
    left. by split.
  - intros g Hg. eexists. unfold respond. cbn [RestApi.route].
    rewrite run_get_groups_messages. split; [reflexivity|].
    rewrite sort_by_createdAt_perm. by apply list_elem_of_filter.
Qed.

Lemma stored_message_is_served_witness :
  let w := Ex.online in
  let w1 := Server.deliver
              (Server.from_socket "s1" (Server.send_message (Some Ex.hi_bob))) w in
  readable w Messages = true ∧ writable w Messages = true ∧
  sd_receiverId Ex.hi_bob = Some "bob" ∧
  ∃ ms, respond (RestApi.GET_messages "alice" "bob") w1
        = (Some (RestApi.mkResponse 200 (RestApi.messages ms)), w1) ∧
        respond (RestApi.GET_messages "bob" "alice") w1
        = (Some (RestApi.mkResponse 200 (RestApi.messages ms)), w1) ∧
        new_message w Ex.hi_bob ∈ ms.
Proof.
  intros w w1. split_and!; [reflexivity..|].
  apply (proj1 (stored_message_is_served w "s1" Ex.hi_bob eq_refl eq_refl) "bob").
  reflexivity.
Defined.


(** * Invariants of the stored collections *)

Section stored_invariants.

Lemma groups_write_db_other w c data :
  c ≠ Groups → groups_json (disk (write_db w c data)) = groups_json (disk w).
Proof. unfold write_db. destruct (writable w c); [|done]. by destruct c. Qed.

Lemma messages_write_db_other w c data :
  c ≠ Messages → messages_json (disk (write_db w c data)) = messages_json (disk w).
Proof. unfold write_db. destruct (writable w c); [|done]. by destruct c. Qed.

Lemma uuid_write_db w c data :
  uuid_src (write_db w c data) = uuid_src w ∧ uuid_n (write_db w c data) = uuid_n w.
Proof. unfold write_db. by destruct (writable w c). Qed.

(** The groups file after a request. *)
Lemma route_groups r w :
  let gs := groups_json (disk w) in
  let gs' := groups_json (disk (run (RestApi.route r) w).2) in
  gs' = gs
  ∨ (∃ me name members, gs' = read_db w Groups ++ [new_group w me name members])
  ∨ (∃ i, gs' = delete i (read_db w Groups)).
Proof.
  intros gs gs'. unfold gs, gs'.
  destruct r as [b h|b c|me b|me b|me id|me|g|me u]; cbn [RestApi.route].
  - left. rewrite run_post_register. destruct (_ && _ && _ && _); [|done].
    destruct (list_find _ _) as [[i x]|]; [done|]. cbn [snd].
    by rewrite groups_write_db_other.
  - left. rewrite run_post_login. destruct (_ && _); [|done].
    destruct (list_find _ _) as [[i x]|]; [|done].
    destruct (c _ _); [|done]. cbn [snd]. by rewrite groups_write_db_other.
  - left. rewrite run_put_profile. destruct (list_find _ _) as [[i x]|]; [|done].
    cbn [snd]. by rewrite groups_write_db_other.
  - rewrite run_post_groups. destruct (RestApi.gb_members b) as [ms|]; [|by left].
    destruct (JS.truthy _); [|by left]. cbn [snd]. unfold write_db.
    destruct (writable _ _); [|by left]. right; left. by eexists _, _, _.
  - rewrite run_delete_groups_id. destruct (list_find _ _) as [[i g]|]; [|by left].
    case_decide; [by left|]. cbn [snd]. unfold write_db.
    destruct (writable _ _); [|by left]. right; right. by exists i.
  - left. by rewrite run_get_groups.
  - left. by rewrite run_get_groups_messages.
  - left. by rewrite run_get_messages.
Qed.

(** No request writes [messages.json]; a request draws at most one id. *)
Lemma route_messages r w :
  let w' := (run (RestApi.route r) w).2 in
  messages_json (disk w') = messages_json (disk w) ∧
  uuid_src w' = uuid_src w ∧ (uuid_n w ≤ uuid_n w')%nat.
Proof.
  destruct r as [b h|b c|me b|me b|me id|me|g|me u]; cbn [RestApi.route].
  - rewrite run_post_register. destruct (_ && _ && _ && _); [|done].
    destruct (list_find _ _) as [[i x]|]; [done|]. cbn [snd].
    rewrite messages_write_db_other by done.
    destruct (uuid_write_db (next_clock (next_clock (next_uuid w))) Users
                (read_db w Users ++ [new_user w b h])) as [-> ->].
    cbn. split_and!; [done..|lia].
  - rewrite run_post_login. destruct (_ && _); [|done].
    destruct (list_find _ _) as [[i x]|]; [|done].
    destruct (c _ _); [|done]. cbn [snd].
    rewrite messages_write_db_other by done.
    by destruct (uuid_write_db (next_clock w) Users
                   (<[i := set_presence x true (clock_src w (clock_n w))]>
                      (read_db w Users))) as [-> ->].
  - rewrite run_put_profile. destruct (list_find _ _) as [[i x]|]; [|done].
    cbn [snd]. rewrite messages_write_db_other by done.
    by destruct (uuid_write_db w Users
                   (<[i := RestApi.spread_profile x b]> (read_db w Users)))
      as [-> ->].
  - rewrite run_post_groups. destruct (RestApi.gb_members b) as [ms|]; [|done].
    destruct (JS.truthy _); [|done]. cbn [snd].
    rewrite messages_write_db_other by done.
    destruct (uuid_write_db (next_clock (next_clock (next_uuid w))) Groups
                (read_db w Groups
                 ++ [new_group w me (JS.prop_key (RestApi.gb_name b)) ms]))
      as [-> ->].
    cbn. split_and!; [done..|lia].
  - rewrite run_delete_groups_id. destruct (list_find _ _) as [[i g]|]; [|done].
    case_decide; [done|]. cbn [snd]. rewrite messages_write_db_other by done.
    by destruct (uuid_write_db w Groups (delete i (read_db w Groups))) as [-> ->].
  - by rewrite run_get_groups.
  - by rewrite run_get_groups_messages.
  - by rewrite run_get_messages.
Qed.

Lemma read_db_groups_ok w :
  groups_ok (disk w) →
  Forall (λ g, NoDup (g_members g) ∧ g_createdBy g ∈ g_members g)
    (read_db w Groups).
Proof. unfold read_db, groups_ok. by destruct (readable w Groups). Qed.

Lemma serve_groups_ok i w :
  groups_ok (disk w) → groups_ok (disk (RestApi.serve i w)).
Proof.
  intros Hok. destruct i as [i|r]; cbn [RestApi.serve].
  - unfold groups_ok. by rewrite deliver_groups.
  - unfold groups_ok.
    destruct (route_groups r w) as [-> |[(me & name & members & ->)|(i & ->)]].
    + done.
    + apply Forall_app. split; [by apply read_db_groups_ok|].
      constructor; [|done]. cbn.
      destruct (set_spread_cons me members) as (H1 & H2 & _).
      split; [done|]. apply H2. by left.
    + by apply Forall_delete, read_db_groups_ok.
Qed.

Lemma serve_ids_fresh i w N :
  (∀ j k, j < N → k < N → uuid_src w j = uuid_src w k → j = k) →
  (uuid_n (RestApi.serve i w) ≤ N)%nat →
  ids_fresh w →
  ids_fresh (RestApi.serve i w) ∧
  uuid_src (RestApi.serve i w) = uuid_src w ∧
  (uuid_n w ≤ uuid_n (RestApi.serve i w))%nat.
Proof.
  intros Hinj HN [Hnd Hids]. destruct i as [i|r]; cbn [RestApi.serve] in *.
  - destruct (deliver_uuid i w) as [Hsrc Hn].
    assert (uuid_n w ≤ uuid_n (Server.deliver i w))%nat as Hle.
    { rewrite Hn. destruct i as [s []|]; cbn; lia. }
    split; [|done]. unfold ids_fresh. rewrite Hsrc.
    destruct (deliver_messages i w)
      as [Hm|[(socket & d & -> & _ & Hm)|(socket & d & j & m0 & -> & Hj & Hm)]];
      cbn zeta in Hm.
    + rewrite Hm. split; [done|]. intros id Hid.
      destruct (Hids id Hid) as (k & Hk & ->). exists k. split; [lia|done].
    + assert (uuid_n (Server.deliver
                (Server.from_socket socket (Server.send_message (Some d))) w)
              = S (uuid_n w)) as Hn' by exact Hn.
      rewrite Hn' in HN |- *. rewrite Hm, fmap_app. cbn [fmap list_fmap].
      assert (∀ id, id ∈ m_id <$> read_db w Messages →
                    id ∈ m_id <$> messages_json (disk w)) as Hsub.
      { unfold read_db. destruct (readable w Messages); [done|].
        by intros id ?%elem_of_nil. }
      assert (NoDup (m_id <$> read_db w Messages)) as Hnd'.
      { unfold read_db. destruct (readable w Messages); [done|constructor]. }
      split.
      * apply NoDup_app. split_and!; [done| |apply NoDup_singleton].
        intros id Hid ->%list_elem_of_singleton.
        destruct (Hids _ (Hsub _ Hid)) as (k & Hk & Heq). cbn in Heq.
        assert (uuid_n w = k); [|lia]. apply Hinj; [lia..|done].
      * intros id [Hid| ->%list_elem_of_singleton]%elem_of_app.
        -- destruct (Hids _ (Hsub _ Hid)) as (k & Hk & ->). exists k.
           split; [lia|done].
        -- exists (uuid_n w). split; [lia|done].
    + assert (m_id <$> messages_json (disk (Server.deliver
                (Server.from_socket socket (Server.message_reaction (Some d))) w))
              = m_id <$> messages_json (disk w)) as ->.
      { rewrite Hm. by apply (fmap_insert_same _ _ _ m0). }
      split; [done|]. intros id Hid.
      destruct (Hids id Hid) as (k & Hk & ->). exists k. split; [lia|done].
  - destruct (route_messages r w) as (Hm & Hsrc & Hle). cbn zeta in *.
    split; [|done]. unfold ids_fresh. rewrite Hm, Hsrc. split; [done|].
    intros id Hid. destruct (Hids id Hid) as (k & Hk & ->). exists k.
    split; [lia|done].
Qed.

Lemma serve_all_uuid_n inputs w :
  (uuid_n w ≤ uuid_n (RestApi.serve_all inputs w))%nat.
Proof.
  revert w. induction inputs as [|i inputs IH]; intros w; [done|]. cbn.
  etrans; [|apply IH]. destruct i as [i|r]; cbn [RestApi.serve].
  - destruct (deliver_uuid i w) as [_ ->]. destruct i as [s []|]; cbn; lia.
  - by destruct (route_messages r w) as (_ & _ & ?).
Qed.
Lemma serve_all_ids_fresh inputs w N :
  (uuid_n (RestApi.serve_all inputs w) ≤ N)%nat →
  (∀ j k, j < N → k < N → uuid_src w j = uuid_src w k → j = k) →
  ids_fresh w →
  ids_fresh (RestApi.serve_all inputs w).
Proof.
  revert w. induction inputs as [|i inputs IH]; intros w HN Hinj Hfresh; [done|].
  cbn in *.
  destruct (serve_ids_fresh i w N Hinj) as (Hf & Hsrc & Hle); [|done|].
  { etrans; [apply serve_all_uuid_n|exact HN]. }
  apply IH; [done| |done]. by rewrite Hsrc.
Qed.
End stored_invariants.

(** X18.  Every stored group lists its creator among its members and no
    member twice, and this stays so under every socket event and request:
    [POST /api/groups] builds the member list with a [Set] that starts
    with the creator, and nothing else adds a group or changes one.  (The
    fan-out of a group message relies on it for sending one event per
    member.) *)
Theorem groups_list_creator_and_no_member_twice
    (inputs : list RestApi.Incoming) (w : World) :
  groups_ok (disk w) → groups_ok (disk (RestApi.serve_all inputs w)).
Proof.
  revert w. induction inputs as [|i inputs IH]; intros w Hok; [done|].
  cbn. by apply IH, serve_groups_ok.
Qed.

Lemma groups_list_creator_and_no_member_twice_witness :
  let inputs :=
    [RestApi.request
       (RestApi.POST_groups "bob"
          (RestApi.mkGroupBody (Some "crew") (Some ["carol"; "carol"; "bob"])));
     RestApi.socket_input
       (Server.from_socket "s1" (Server.send_message (Some Ex.hi_group)))] in
  groups_ok (disk Ex.started) ∧
  groups_ok (disk (RestApi.serve_all inputs Ex.started)) ∧
  g_members <$> groups_json (disk (RestApi.serve_all inputs Ex.started))
  = [["alice"; "bob"; "carol"]; ["bob"; "carol"]].
Proof.
  intros inputs.
  assert (groups_ok (disk Ex.started)) as Hok.
  { constructor; [|constructor]. split; [|by left].
    exact (bool_decide_unpack (NoDup ["alice"; "bob"; "carol"]) I). }
  split_and!; [exact Hok| |by vm_compute].
  by apply (groups_list_creator_and_no_member_twice inputs Ex.started).
Defined.

(** X19.  Message ids are unique as long as the id source does not repeat:
    when the stored messages have distinct ids, each drawn from the id
    source, they still do after any sequence of socket events and
    requests, also when a failed read made [send_message] replace the
    file. *)
Theorem message_ids_stay_unique (inputs : list RestApi.Incoming) (w : World) :
  (∀ j k, j < uuid_n (RestApi.serve_all inputs w) →
          k < uuid_n (RestApi.serve_all inputs w) →
          uuid_src w j = uuid_src w k → j = k) →
  ids_fresh w →
  ids_fresh (RestApi.serve_all inputs w).
Proof. intros Hinj Hfresh. by eapply serve_all_ids_fresh. Qed.

Lemma message_ids_stay_unique_witness :
  let w := with_disk Ex.online (mkDisk (users_json (disk Ex.online)) []
                                  (groups_json (disk Ex.online))) in
  let inputs :=
    [RestApi.socket_input
       (Server.from_socket "s1" (Server.send_message (Some Ex.hi_bob)));
     RestApi.socket_input
       (Server.from_socket "s2" (Server.send_message (Some Ex.hi_group)))] in
  ids_fresh w ∧
  m_id <$> messages_json (disk (RestApi.serve_all inputs w)) = ["A"; "B"] ∧
  ids_fresh (RestApi.serve_all inputs w).
Proof.
  intros w inputs.
  assert (ids_fresh w) as Hw.
  { split; [constructor|]. by intros id ?%elem_of_nil. }
  split_and!; [exact Hw|by vm_compute|].
  apply (message_ids_stay_unique inputs w); [|exact Hw].
  assert (uuid_n (RestApi.serve_all inputs w) = 2) as -> by (by vm_compute).
  intros j k Hj Hk.
  destruct j as [|[|j]], k as [|[|k]]; try lia; try done; by vm_compute.
Defined.

(** X20.  The socket events change nothing of a user record but its
    presence: after any sequence of them the users file holds the same
    accounts in the same order, differing at most in [isOnline] and
    [lastSeen]. *)
Theorem socket_events_change_presence_only
    (inputs : list Server.Input) (w : World) :
  account_of <$> users_json (disk (Server.deliver_all inputs w))
  = account_of <$> users_json (disk w).
Proof.
  revert w. induction inputs as [|i inputs IH]; intros w; [done|].
  change (Server.deliver_all (i :: inputs) w)
    with (Server.deliver_all inputs (Server.deliver i w)).
  rewrite IH.
  destruct (deliver_users i w) as [-> |(j & x & b & t & Hf & -> & _)]; [done|].
  apply (fmap_insert_same _ _ _ x); [|done].
  by apply list_find_Some in Hf as (? & _).
Qed.

(** X21.  [POST /api/login] with the name or e-mail of a stored user and a
    password that [bcrypt] accepts ([users.json] readable and writable)
    answers 200 and stores the user as online, without any connection of
    the user: the stored flag does not say that the user is connected. *)
Theorem login_marks_online_without_connection
    (w : World) (name password : string)
    (bcrypt_compare : string → string → bool) (i : nat) (x : User) :
  JS.truthy (Some name) = true → JS.truthy (Some password) = true →
  readable w Users = true → writable w Users = true →
  list_find (λ u, u_username u = name ∨ u_email u = name) (users_json (disk w))
    = Some (i, x) →
  bcrypt_compare password (u_password x) = true →
  ∃ res w',
    respond (RestApi.POST_login (RestApi.mkLoginBody (Some name) (Some password))
               bcrypt_compare) w = (Some res, w') ∧
    RestApi.status res = 200 ∧
    users_json (disk w')
    = <[i := set_presence x true (clock_src w (clock_n w))]> (users_json (disk w)) ∧
    sockets w' = sockets w ∧ connectedUsers w' = connectedUsers w ∧
    emitted w' = emitted w.
Proof.
  intros Hn Hp Hr Hw Hf Hc. unfold respond. cbn [RestApi.route].
  rewrite run_post_login. cbn [RestApi.lb_username RestApi.lb_password].
  rewrite Hn, Hp. cbn [andb JS.prop_key].
  rewrite (read_db_readable _ Users Hr). cbn [disk_get]. rewrite Hf, Hc.
  cbn zeta. eexists _, _. split; [reflexivity|]. unfold write_db. cbn.
  by rewrite Hw.
Qed.

Lemma login_marks_online_without_connection_witness :
  let accept (_ _ : string) := true in
  JS.truthy (Some "bob") = true ∧ JS.truthy (Some "secret") = true ∧
  readable Ex.started Users = true ∧ writable Ex.started Users = true ∧
  list_find (λ u, u_username u = "bob" ∨ u_email u = "bob")
    (users_json (disk Ex.started)) = Some (1, Ex.user "bob") ∧
  sockets Ex.started = ∅ ∧
  ∃ res w',
    respond (RestApi.POST_login (RestApi.mkLoginBody (Some "bob") (Some "secret"))
               accept) Ex.started = (Some res, w') ∧
    isOnline "bob" (disk w') = Some true.
Proof.
  intros accept. split_and!; [reflexivity..|].
  destruct (login_marks_online_without_connection Ex.started "bob" "secret"
              accept 1 (Ex.user "bob"))
    as (res & w' & Hres & _ & Hu & _); [reflexivity..|].
  exists res, w'. split; [exact Hres|]. unfold isOnline. by rewrite Hu.
Defined.


(** * Further properties of the client *)

(** ** The message cache *)

(** X22.  The cache of conversations, for ids that name no property of
    [Object.prototype]: what [setMessages] stored for a conversation is
    what [getMessages] gives for it, the entries of the other
    conversations, the group cache and the unread counters being
    untouched; [addMessage] appends to what was cached; and when
    [localStorage.setItem] fails (the error is caught and logged) the
    cache is as before. *)
Theorem message_cache_round_trip
    (ls : Client.LocalStorage) (c c' : string) (ms : list Message) (m : Message) :
  JS.inherited c = false → JS.inherited c' = false →
  let ls' := Client.conversationStorage.setMessages c ms ls in
  Client.conversationStorage.getMessages c' ls'
  = (if Client.setItem_ok ls && bool_decide (c' = c) then ms
     else Client.conversationStorage.getMessages c' ls) ∧
  Client.xgram_group_messages ls' = Client.xgram_group_messages ls ∧
  Client.xgram_unread_counts ls' = Client.xgram_unread_counts ls ∧
  Client.conversationStorage.getMessages c
    (Client.conversationStorage.addMessage c m ls)
  = (if Client.setItem_ok ls
     then Client.conversationStorage.getMessages c ls ++ [m]
     else Client.conversationStorage.getMessages c ls).
Proof.
  intros _ _ ls'. unfold ls', Client.conversationStorage.addMessage,
    Client.conversationStorage.setMessages, Client.conversationStorage.getMessages.
  destruct (Client.setItem_ok ls); cbn; [|done].
  split_and!; [|done|done|by rewrite lookup_insert_eq].
  case_bool_decide as Hc.
  - subst. by rewrite lookup_insert_eq.
  - by rewrite lookup_insert_ne.
Qed.

Lemma message_cache_round_trip_witness :
  let ls := Client.storage Ex.signed_in in
  JS.inherited "peer" = false ∧
  Client.conversationStorage.getMessages "peer"
    (Client.conversationStorage.addMessage "peer" (Ex.from_peer "2" 6)
       (Client.conversationStorage.setMessages "peer" [Ex.from_peer "1" 5] ls))
  = [Ex.from_peer "1" 5; Ex.from_peer "2" 6].
Proof.
  intros ls. split; [reflexivity|].
  destruct (message_cache_round_trip
              (Client.conversationStorage.setMessages "peer" [Ex.from_peer "1" 5] ls)
              "peer" "peer" [] (Ex.from_peer "2" 6)) as (_ & _ & _ & ->);
    [reflexivity..|].
  destruct (message_cache_round_trip ls "peer" "peer" [Ex.from_peer "1" 5]
              (Ex.from_peer "2" 6)) as (Hget & _); [reflexivity..|].
  change (Client.setItem_ok _) with true. cbn [andb] in *.
  by rewrite Hget.
Defined.

(** ** Unread counters *)

Section counting.
Import Client.

Lemma setItem_ok_increments n c ls :
  setItem_ok (Nat.iter n (conversationStorage.incrementUnreadCount c) ls)
  = setItem_ok ls.
Proof.
  induction n as [|n IH]; [done|].
  change (Nat.iter (S n) ?f ?x) with (f (Nat.iter n f x)).
  unfold conversationStorage.incrementUnreadCount at 1.
  by rewrite setItem_ok_setUnreadCount.
Qed.

Lemma increments_unread n c c' ls :
  conversationStorage.getUnreadCount c'
    (Nat.iter n (conversationStorage.incrementUnreadCount c) ls)
  = if setItem_ok ls && bool_decide (c = c')
    then conversationStorage.getUnreadCount c' ls + n
    else conversationStorage.getUnreadCount c' ls.
Proof.
  induction n as [|n IH].
  - change (Nat.iter 0 ?f ?x) with x. destruct (_ && _); lia.
  - change (Nat.iter (S n) ?f ?x) with (f (Nat.iter n f x)).
    unfold conversationStorage.incrementUnreadCount at 1.
    rewrite getUnreadCount_setUnreadCount, setItem_ok_increments.
    destruct (setItem_ok ls); cbn [andb] in *; [|done].
    case_bool_decide as Hc; [|done]. subst. rewrite IH. lia.
Qed.
End counting.

(** X23.  Unread counters, for ids that name no property of
    [Object.prototype] and with [localStorage] writable: [n] increments of
    a conversation raise its counter by [n] and leave the counters of the
    other conversations as they are, and clearing sets it to zero. *)
Theorem unread_counts_add_up (ls : Client.LocalStorage) (c c' : string) (n : nat) :
  JS.inherited c = false → JS.inherited c' = false →
  Client.setItem_ok ls = true →
  let ls' := Nat.iter n (Client.conversationStorage.incrementUnreadCount c) ls in
  Client.conversationStorage.getUnreadCount c ls'
  = Client.conversationStorage.getUnreadCount c ls + n ∧
  (c' ≠ c → Client.conversationStorage.getUnreadCount c' ls'
            = Client.conversationStorage.getUnreadCount c' ls) ∧
  Client.conversationStorage.getUnreadCount c
    (Client.conversationStorage.clearUnreadCount c ls') = 0.
Proof.
  intros _ _ Hok ls'. unfold ls'. split_and!.
  - by rewrite increments_unread, Hok, bool_decide_eq_true_2.
  - intros Hne. rewrite increments_unread, Hok, bool_decide_eq_false_2; [done|].
    congruence.
  - unfold Client.conversationStorage.clearUnreadCount.
    rewrite getUnreadCount_setUnreadCount, bool_decide_eq_true_2 by done.
    by rewrite setItem_ok_increments, Hok.
Qed.

Lemma unread_counts_add_up_witness :
  let ls := Client.storage Ex.signed_in in
  JS.inherited "peer" = false ∧ JS.inherited "other" = false ∧
  Client.setItem_ok ls = true ∧
  Client.conversationStorage.getUnreadCount "peer"
    (Nat.iter 3 (Client.conversationStorage.incrementUnreadCount "peer") ls) = 3.
Proof.
  intros ls. split_and!; [reflexivity..|].
  destruct (unread_counts_add_up ls "peer" "other" 3) as [-> _];
    reflexivity.
Defined.

(** ** Presence and typing indicators *)

Section indicators.
Import Indicators.

Lemma last_snoc_omap {A B} (f : A → option B) (l : list A) x :
  last (omap f (l ++ [x]))
  = match f x with Some y => Some y | None => last (omap f l) end.
Proof.
  rewrite omap_app. cbn. destruct (f x) as [y|]; cbn.
  - by rewrite last_snoc.
  - by rewrite app_nil_r.
Qed.

Lemma on_events_snoc es e st : on_events (es ++ [e]) st = on_event e (on_events es st).
Proof. unfold on_events. by rewrite foldl_app. Qed.
End indicators.

(** X24.  The online and typing indicators of a user show the last event
    about that user: a user is shown online exactly when the last
    [user_online] or [user_offline] received for the user is a
    [user_online] (or, when none was received, when the user was in the
    set before), and as typing exactly when the last [user_typing] for
    the user carried [true]; events about other users do not matter. *)
Theorem indicators_show_last_event
    (es : list ServerEvent) (st : Indicators.State) (userId : string) :
  Indicators.isOnline (Some userId) (Indicators.on_events es st)
  = default (Indicators.isOnline (Some userId) st)
      (Indicators.last_presence userId es) ∧
  Indicators.isTyping (Some userId) (Indicators.on_events es st)
  = default (Indicators.isTyping (Some userId) st)
      (Indicators.last_typing userId es).
Proof.
  induction es as [|e es IH] using rev_ind; [done|].
  rewrite on_events_snoc. unfold Indicators.last_presence, Indicators.last_typing.
  rewrite !last_snoc_omap. destruct IH as [IHo IHt].
  fold (Indicators.last_presence userId es) (Indicators.last_typing userId es).
  unfold Indicators.isOnline, Indicators.isTyping in *.
  destruct e as [m|m|m|u|u|u b|s|s]; cbn [Indicators.on_event]; try done.
  - split; [|done]. cbn. destruct (decide (u = userId)) as [->|Hu]; cbn.
    + apply bool_decide_eq_true, elem_of_union_l. by apply elem_of_singleton.
    + rewrite <- IHo. apply bool_decide_ext.
      rewrite elem_of_union, elem_of_singleton. split; [|by right].
      intros [?|?]; [congruence|done].
  - split; [|done]. cbn. destruct (decide (u = userId)) as [->|Hu]; cbn.
    + apply bool_decide_eq_false. rewrite elem_of_difference, elem_of_singleton.
      intros [_ H]. by apply H.
    + rewrite <- IHo. apply bool_decide_ext.
      rewrite elem_of_difference, elem_of_singleton. split; [by intros [? _]|].
      intros ?. split; [done|congruence].
  - split; [done|]. cbn. destruct (decide (u = userId)) as [->|Hu]; cbn.
    + destruct b.
      * apply bool_decide_eq_true. rewrite lookup_insert_eq. by eexists.
      * apply bool_decide_eq_false. rewrite lookup_delete_eq. by intros [? ?].
    + rewrite <- IHt. apply bool_decide_ext. destruct b.
      * by rewrite lookup_insert_ne.
      * by rewrite lookup_delete_ne.
Qed.
